(** * Tabulator stream filter: a shallow embedding of
      [include/ios_filter/utf_utils.h] and [include/ios_filter/tabulator.h]

    Code units are modelled as integers ([Z]); for the 8-bit instantiation a
    unit is the value of the byte (0..255).  [std::size_t] quantities are
    modelled in [N]; the two places where the source subtracts sizes use the
    64-bit wrap-around written out in [size_sub].  The [int] accumulators of
    the source ([cbr], [sum], [score]) are modelled in [Z].

    A [std::deque<char_type>] is a [list Z]; an iterator into it is the
    offset (a [nat]) from [begin()].  Operations whose behaviour the C++
    standard leaves undefined (reading [front()] of an empty deque,
    dereferencing [end()], stepping before [begin()], indexing a vector out
    of range) and failed [assert]s are faults of the [result] monad. *)

From Stdlib Require Import ZArith NArith Lia Ascii String.
From stdpp Require Import base option list gmap.

Local Open Scope Z_scope.

(** ** Faults and the error monad *)

Inductive fault : Type :=
  | FrontOfEmpty      (* [_buf.front()] on an empty deque *)
  | DerefEnd          (* [*end] where [end == _buf.cend()] *)
  | BeforeBegin       (* [--end] where [end == _buf.cbegin()] *)
  | OutOfRange        (* [_cells[i]] with [i >= _cells.size()] *)
  | DanglingStreambuf (* a streambuf pointer with no live object behind it *)
  | AssertionFailed   (* a failed [assert] (debug build) *)
  | OutOfFuel.        (* the loop did not finish within the given fuel *)

Inductive result (A : Type) : Type :=
  | Ok (a : A)
  | Fault (f : fault).
Arguments Ok {A} a.
Arguments Fault {A} f.

#[global] Instance result_ret : MRet result := fun _ a => Ok a.
#[global] Instance result_bind : MBind result := fun _ _ k m =>
  match m with
  | Ok a => k a
  | Fault f => Fault f
  end.

Definition assert (b : bool) : result unit :=
  if b then Ok tt else Fault AssertionFailed.

(** ** utf_utils.h *)

(** [sizeof(CharT)] of the character type the templates are instantiated at. *)
Inductive unit_size : Type := U8 | U16 | U32.

(** [utf_char_score<CharT>(ch)] *)
Definition utf_char_score (sz : unit_size) (ch : Z) : Z :=
  match sz with
  | U8 =>
      if Z.land ch 0xC0 =? 0x80 then -1
      else if Z.land ch 0xE0 =? 0xC0 then 1
      else if Z.land ch 0xF0 =? 0xE0 then 2
      else if Z.land ch 0xF8 =? 0xF0 then 3
      else 0
  | U16 =>
      if Z.land ch 0xFC00 =? 0xDC00 then -1
      else if Z.land ch 0xFC00 =? 0xD800 then 1
      else 0
  | U32 => 0
  end.

(** The [for] loop of [utflen]: [cbr] is the rolling sum, [c] the counter. *)
Fixpoint utflen_loop (sz : unit_size) (cbr : Z) (c : N) (s : list Z) : N :=
  match s with
  | [] => c
  | u :: s' =>
      let cbr := cbr + utf_char_score sz u in
      utflen_loop sz cbr (if cbr =? 0 then N.succ c else c) s'
  end.

(** [utflen(begin, end)] *)
Definition utflen (sz : unit_size) (s : list Z) : N :=
  match sz with
  | U32 => N.of_nat (length s)
  | _ => utflen_loop sz 0 0 s
  end.

(** ** tabulator.h: enumerations *)

Module justify.
Inductive t : Type := left | right | center.
Definition is_left (j : t) : bool :=
  match j with left => true | _ => false end.
End justify.

Module truncate.
Inductive t : Type := none | left | right.
Definition is_none (x : t) : bool :=
  match x with none => true | _ => false end.
Definition is_right (x : t) : bool :=
  match x with right => true | _ => false end.
End truncate.

Module wrap.
Inductive t : Type := character | word.
Definition is_word (x : t) : bool :=
  match x with word => true | _ => false end.
End wrap.

(** ** Characters and sizes *)

(** The character literals the source compares against and emits. *)
Definition NL : Z := 10.     (* '\n' *)
Definition SPACE : Z := 32.  (* ' ' *)

(** [std::isspace] in the "C" locale: space, \t, \n, \v, \f, \r. *)
Definition isspace (c : Z) : bool :=
  (c =? 32) || ((9 <=? c) && (c <=? 13)).

(** [a - b] on [std::size_t] (64 bits, wrapping). *)
Definition size_sub (a b : N) : N :=
  if (b <=? a)%N then (a - b)%N else (a + 2 ^ 64 - b)%N.

(** Code units of a narrow string literal. *)
Fixpoint chars (s : string) : list Z :=
  match s with
  | EmptyString => []
  | String a s' => Z.of_N (N_of_ascii a) :: chars s'
  end.

(** [std::find_if(first, last, p) - first] *)
Fixpoint find_if (p : Z -> bool) (l : list Z) : nat :=
  match l with
  | [] => O
  | c :: l' => if p c then O else S (find_if p l')
  end.

(** ** basic_tabulator::cell_info *)

Record cell_info : Type := mk_cell_info {
  _buf : list Z;              (* std::deque<char_type> *)
  _width : N;
  _written : N;
  _cell_start : bool;
  _justify : justify.t;
  _truncate : truncate.t;
  _wrap : wrap.t;
  _pad : list Z * list Z;     (* (lpad, rpad) *)
  _ellipsis : list Z
}.

Definition with_buf (b : list Z) (c : cell_info) : cell_info :=
  mk_cell_info b (_width c) (_written c) (_cell_start c) (_justify c)
               (_truncate c) (_wrap c) (_pad c) (_ellipsis c).

Definition with_row_state (b : list Z) (written : N) (cell_start : bool)
    (c : cell_info) : cell_info :=
  mk_cell_info b (_width c) written cell_start (_justify c)
               (_truncate c) (_wrap c) (_pad c) (_ellipsis c).

Section Cell.

(** The character type's size, and whether [assert] is compiled in. *)
Variable sz : unit_size.
Variable debug : bool.

Definition check (b : bool) : result unit :=
  if debug then assert b else Ok tt.

(** [UTF8_ELLIPSIS = SLI("…")] in the encoding of the character type. *)
Definition UTF8_ELLIPSIS : list Z :=
  match sz with
  | U8 => [0xE2; 0x80; 0xA6]
  | _ => [0x2026]
  end.

(** The class invariant the constructor asserts:
    [_width == 0 || _width > utflen(_ellipsis)]. *)
Definition width_ok (c : cell_info) : bool :=
  (_width c =? 0)%N || (utflen sz (_ellipsis c) <? _width c)%N.

(** [cell_info(width, lpad, rpad, ellipsis)] *)
Definition cell_info_ctor (width : N) (lpad rpad ellipsis : list Z)
    : result cell_info :=
  let c := mk_cell_info [] width 0 true justify.left truncate.none
                        wrap.character (lpad, rpad) ellipsis in
  _ ← check (width_ok c);
  Ok c.

(** [cell_info(width)] with the default padding and ellipsis. *)
Definition cell_info_default (width : N) : result cell_info :=
  cell_info_ctor width [SPACE] [SPACE] UTF8_ELLIPSIS.

(** [set_width]: the assertion reads the width before the assignment and
    compares with [>=]. *)
Definition cell_set_width (w : N) (c : cell_info) : result cell_info :=
  _ ← check ((_width c =? 0)%N || (utflen sz (_ellipsis c) <=? _width c)%N);
  Ok (mk_cell_info (_buf c) w (_written c) (_cell_start c) (_justify c)
                   (_truncate c) (_wrap c) (_pad c) (_ellipsis c)).

Definition cell_set_justify (j : justify.t) (c : cell_info) : cell_info :=
  mk_cell_info (_buf c) (_width c) (_written c) (_cell_start c) j
               (_truncate c) (_wrap c) (_pad c) (_ellipsis c).

Definition cell_set_truncate (t : truncate.t) (c : cell_info) : result cell_info :=
  _ ← check (width_ok c);
  Ok (mk_cell_info (_buf c) (_width c) (_written c) (_cell_start c) (_justify c)
                   t (_wrap c) (_pad c) (_ellipsis c)).

Definition cell_set_wrap (w : wrap.t) (c : cell_info) : cell_info :=
  mk_cell_info (_buf c) (_width c) (_written c) (_cell_start c) (_justify c)
               (_truncate c) w (_pad c) (_ellipsis c).

(** Both overloads of [set_ellipsis] have the same body. *)
Definition cell_set_ellipsis (e : list Z) (c : cell_info) : result cell_info :=
  _ ← check (width_ok c);
  Ok (mk_cell_info (_buf c) (_width c) (_written c) (_cell_start c) (_justify c)
                   (_truncate c) (_wrap c) (_pad c) e).

Definition cell_set_pad (p : list Z * list Z) (c : cell_info) : cell_info :=
  mk_cell_info (_buf c) (_width c) (_written c) (_cell_start c) (_justify c)
               (_truncate c) (_wrap c) p (_ellipsis c).

Definition get_cell_width (c : cell_info) : N :=
  (_width c + utflen sz (fst (_pad c)) + utflen sz (snd (_pad c)))%N.

(** [putc] *)
Definition putc (ch : Z) (c : cell_info) : cell_info :=
  with_buf (_buf c ++ [ch]) c.

(** [empty] *)
Definition empty (c : cell_info) : bool :=
  match _buf c with [] => true | _ => false end.

(** [draw_fill(sbuf, c)]: the characters it puts. *)
Definition draw_fill (c : N) : list Z := replicate (N.to_nat c) SPACE.

(** [find_line_end(begin, end, width)]: [l] is the range, [it] the offset
    already advanced; the result is the offset of the returned iterator. *)
Fixpoint find_line_end_loop (cbr : Z) (width : N) (l : list Z) (it : nat) : nat :=
  match l with
  | [] => it
  | ch :: l' =>
      if (width =? 0)%N then it
      else
        let cbr := cbr + utf_char_score sz ch in
        if cbr =? 0 then
          if ch =? NL then it
          else find_line_end_loop cbr (N.pred width) l' (S it)
        else find_line_end_loop cbr width l' (S it)
  end.

Definition find_line_end (l : list Z) (width : N) : nat :=
  find_line_end_loop 0 width l O.

(** [find_last_word(begin, end)] over the first [e] units of [l]: the reverse
    search for whitespace; [std::next(rit).base()] is the position of the
    whitespace found. *)
Definition find_last_word (l : list Z) (e : nat) : nat :=
  let r := reverse (take e l) in
  let rit := find_if isspace r in
  if (rit =? length r)%nat then e else (e - S rit)%nat.

(** [find_output_end(begin, end, width)] on the range [l] (the buffer, or the
    buffer reversed for the reverse-iterator instantiation). *)
Definition find_output_end (c : cell_info) (l : list Z) (width : N) : nat :=
  let e := find_line_end l width in
  if wrap.is_word (_wrap c) then
    if negb (e =? length l)%nat then
      let e := find_last_word l (S e) in
      if (0 <? _written c)%N && (width <? utflen sz (take e l))%N then O else e
    else e
  else e.

(** [truncate_buf]: the cell with its buffer possibly truncated, and the
    offset of the returned iterator. *)
Definition truncate_buf (c : cell_info) : cell_info * nat :=
  if (_width c =? 0)%N then
    (c, find_if (fun ch => ch =? NL) (_buf c))
  else if truncate.is_none (_truncate c) then
    (c, find_output_end c (_buf c) (size_sub (_width c) (_written c)))
  else if (_width c <? utflen sz (_buf c))%N then
    let width := size_sub (_width c) (utflen sz (_ellipsis c)) in
    let b :=
      if truncate.is_right (_truncate c) then
        let e := find_output_end c (_buf c) width in
        let b := take e (_buf c) in
        match b with [] => b | _ => b ++ _ellipsis c end
      else
        let e := find_output_end c (reverse (_buf c)) width in
        let b := drop (length (_buf c) - e) (_buf c) in
        match b with [] => b | _ => _ellipsis c ++ b end
    in
    (with_buf b c, length b)
  else (c, length (_buf c)).

(** The [while (out_width > _width)] loop of [write_line]; it reads [*end]
    and then steps [end] back. *)
Fixpoint walk_back (buf : list Z) (width : N) (sum : Z) (e : nat) (out_width : N)
    {struct e} : result (nat * N) :=
  if (width <? out_width)%N then
    match buf !! e with
    | None => Fault DerefEnd
    | Some ch =>
        let sum := sum + utf_char_score sz ch in
        match e with
        | O => Fault BeforeBegin
        | S e' => walk_back buf width sum e'
                    (if sum =? 0 then N.pred out_width else out_width)
        end
    end
  else Ok (e, out_width).

Definition drop_space (b : list Z) : list Z :=
  match b with
  | ch :: b' => if isspace ch then b' else b
  | [] => []
  end.

Fixpoint drop_spaces (b : list Z) : list Z :=
  match b with
  | ch :: b' => if isspace ch then drop_spaces b' else b
  | [] => []
  end.

(** [write_line(sbuf, write_full_line)]: the cell afterwards, the characters
    put to [sbuf], and the returned flag. *)
Definition write_line (c : cell_info) (write_full_line : bool)
    : result (cell_info * list Z * bool) :=
  let wrote_full := write_full_line in
  if write_full_line || truncate.is_none (_truncate c) then
    let '(c, e) := truncate_buf c in
    let out_width := (utflen sz (take e (_buf c)) + _written c)%N in
    if negb write_full_line && (out_width <? _width c)%N
       && negb (justify.is_left (_justify c))
    then Ok (c, [], wrote_full)
    else
      fit ←
        (if (0 <? _width c)%N then
           '(e, out_width) ← walk_back (_buf c) (_width c) 0 e out_width;
           let wrote_full := wrote_full || (out_width =? _width c)%N in
           let total_fill := size_sub (_width c) out_width in
           let '(lfill, rfill) :=
             match _justify c with
             | justify.center =>
                 let lfill := (total_fill / 2)%N in
                 (lfill, size_sub total_fill lfill)
             | justify.left => (0%N, total_fill)
             | justify.right => (total_fill, 0%N)
             end in
           Ok (e, out_width, wrote_full, lfill, rfill)
         else Ok (e, out_width, wrote_full, 0%N, 0%N));
      let '(e, out_width, wrote_full, lfill, rfill) :=
        (fit : nat * N * bool * N * N) in
      let '(lpad, rpad) := _pad c in
      let out_start := if _cell_start c then lpad ++ draw_fill lfill else [] in
      let out_text := take e (_buf c) in
      let buf := drop e (_buf c) in
      wrote_full ←
        (if wrote_full then Ok true
         else match buf with
              | [] => Fault FrontOfEmpty
              | ch :: _ => Ok (ch =? NL)
              end);
      let buf := drop_space buf in
      let buf := if wrap.is_word (_wrap c) then drop_spaces buf else buf in
      let wrote_full := wrote_full || negb (match buf with [] => true | _ => false end) in
      if wrote_full then
        Ok (with_row_state buf 0 true c,
            out_start ++ out_text ++ draw_fill rfill ++ rpad, true)
      else
        Ok (with_row_state buf out_width false c, out_start ++ out_text, false)
  else Ok (c, [], wrote_full).

End Cell.

(** ** Encoded literals

    [SLI(x)] selects the literal of the instantiated character type; the
    compiler encodes a code point as UTF-8 (RFC 3629), UTF-16 (RFC 2781) or
    UTF-32.  The same encoders say what a valid UTF-encoded sequence is. *)

Definition utf8_encode (cp : Z) : list Z :=
  if cp <? 0x80 then [cp]
  else if cp <? 0x800 then
    [Z.lor 0xC0 (Z.shiftr cp 6); Z.lor 0x80 (Z.land cp 0x3F)]
  else if cp <? 0x10000 then
    [Z.lor 0xE0 (Z.shiftr cp 12);
     Z.lor 0x80 (Z.land (Z.shiftr cp 6) 0x3F);
     Z.lor 0x80 (Z.land cp 0x3F)]
  else
    [Z.lor 0xF0 (Z.shiftr cp 18);
     Z.lor 0x80 (Z.land (Z.shiftr cp 12) 0x3F);
     Z.lor 0x80 (Z.land (Z.shiftr cp 6) 0x3F);
     Z.lor 0x80 (Z.land cp 0x3F)].

Definition utf16_encode (cp : Z) : list Z :=
  if cp <? 0x10000 then [cp]
  else
    let v := cp - 0x10000 in
    [Z.lor 0xD800 (Z.shiftr v 10); Z.lor 0xDC00 (Z.land v 0x3FF)].

Definition utf_encode (sz : unit_size) (cp : Z) : list Z :=
  match sz with
  | U8 => utf8_encode cp
  | U16 => utf16_encode cp
  | U32 => [cp]
  end.

(** A Unicode scalar value: a code point that is not a surrogate. *)
Definition scalar_value (cp : Z) : Prop :=
  0 <= cp < 0xD800 \/ 0xE000 <= cp <= 0x10FFFF.

(** [SLI("...")] for a literal given by its code points. *)
Definition SLI (sz : unit_size) (cps : list Z) : list Z :=
  concat (map (utf_encode sz) cps).

(** ** style_info *)

Record row : Type := mk_row {
  _left : list Z;
  _center : list Z;
  _right : list Z;
  _line : list Z
}.

Record style_info : Type := mk_style_info {
  _top : row;
  _middle : row;
  _bottom : row;
  _cell : row
}.

Section Styles.

Variable sz : unit_size.

Definition NUL : list Z := SLI sz [].
Definition PLUS : list Z := SLI sz [0x2B].
Definition PIPE : list Z := SLI sz [0x7C].
Definition DASH : list Z := SLI sz [0x2D].
Definition BOX (cp : Z) : list Z := SLI sz [cp].

Definition empty_style : style_info :=
  mk_style_info (mk_row NUL NUL NUL NUL) (mk_row NUL NUL NUL NUL)
                (mk_row NUL NUL NUL NUL) (mk_row NUL NUL NUL NUL).

Definition ascii : style_info :=
  mk_style_info (mk_row PLUS PLUS PLUS DASH) (mk_row PLUS PLUS PLUS DASH)
                (mk_row PLUS PLUS PLUS DASH) (mk_row PIPE PIPE PIPE NUL).

Definition markdown : style_info :=
  mk_style_info (mk_row NUL NUL NUL NUL) (mk_row NUL PIPE NUL DASH)
                (mk_row NUL NUL NUL NUL) (mk_row NUL PIPE NUL NUL).

Definition box : style_info :=
  mk_style_info
    (mk_row (BOX 0x250C) (BOX 0x252C) (BOX 0x2510) (BOX 0x2500))
    (mk_row (BOX 0x251C) (BOX 0x253C) (BOX 0x2524) (BOX 0x2500))
    (mk_row (BOX 0x2514) (BOX 0x2534) (BOX 0x2518) (BOX 0x2500))
    (mk_row (BOX 0x2502) (BOX 0x2502) (BOX 0x2502) NUL).

Definition heavy_box : style_info :=
  mk_style_info
    (mk_row (BOX 0x250F) (BOX 0x2533) (BOX 0x2513) (BOX 0x2501))
    (mk_row (BOX 0x2523) (BOX 0x254B) (BOX 0x252B) (BOX 0x2501))
    (mk_row (BOX 0x2517) (BOX 0x253B) (BOX 0x251B) (BOX 0x2501))
    (mk_row (BOX 0x2503) (BOX 0x2503) (BOX 0x2503) NUL).

Definition double_box : style_info :=
  mk_style_info
    (mk_row (BOX 0x2554) (BOX 0x2566) (BOX 0x2557) (BOX 0x2550))
    (mk_row (BOX 0x2560) (BOX 0x256C) (BOX 0x2563) (BOX 0x2550))
    (mk_row (BOX 0x255A) (BOX 0x2569) (BOX 0x255D) (BOX 0x2550))
    (mk_row (BOX 0x2551) (BOX 0x2551) (BOX 0x2551) NUL).

Definition rounded_box : style_info :=
  mk_style_info
    (mk_row (BOX 0x256D) (BOX 0x252C) (BOX 0x256E) (BOX 0x2500))
    (mk_row (BOX 0x251C) (BOX 0x253C) (BOX 0x2524) (BOX 0x2500))
    (mk_row (BOX 0x2570) (BOX 0x2534) (BOX 0x256F) (BOX 0x2500))
    (mk_row (BOX 0x2502) (BOX 0x2502) (BOX 0x2502) NUL).

Definition borderless_ascii : style_info :=
  mk_style_info (mk_row NUL NUL NUL NUL) (mk_row NUL PLUS NUL DASH)
                (mk_row NUL NUL NUL NUL) (mk_row NUL PIPE NUL NUL).

Definition borderless_box : style_info :=
  mk_style_info
    (mk_row NUL NUL NUL NUL)
    (mk_row NUL (BOX 0x253C) NUL (BOX 0x2500))
    (mk_row NUL NUL NUL NUL)
    (mk_row NUL (BOX 0x2502) NUL NUL).

Definition borderless_double_box : style_info :=
  mk_style_info
    (mk_row NUL NUL NUL NUL)
    (mk_row NUL (BOX 0x256C) NUL (BOX 0x2550))
    (mk_row NUL NUL NUL NUL)
    (mk_row NUL (BOX 0x2551) NUL NUL).

Definition borderless_heavy_box : style_info :=
  mk_style_info
    (mk_row NUL NUL NUL NUL)
    (mk_row NUL (BOX 0x254B) NUL (BOX 0x2501))
    (mk_row NUL NUL NUL NUL)
    (mk_row NUL (BOX 0x2503) NUL NUL).

(** The styles the class declares. *)
Definition styles : list style_info :=
  [empty_style; ascii; markdown; box; heavy_box; double_box; rounded_box;
   borderless_ascii; borderless_box; borderless_double_box; borderless_heavy_box].

End Styles.

(** ** basic_tabulator *)

(** A [std::basic_streambuf*]: the address of a streambuf object. *)
Abbreviation sb_ptr := nat (only parsing).

Record basic_tabulator : Type := mk_tabulator {
  _cells : list cell_info;
  _column : nat;
  _sync_column : nat;
  _line_start : bool;
  _real_sb : sb_ptr;
  _style : style_info
}.

Definition with_cells (cs : list cell_info) (t : basic_tabulator) : basic_tabulator :=
  mk_tabulator cs (_column t) (_sync_column t) (_line_start t) (_real_sb t) (_style t).

Definition with_column (col : nat) (t : basic_tabulator) : basic_tabulator :=
  mk_tabulator (_cells t) col (_sync_column t) (_line_start t) (_real_sb t) (_style t).

Section Tabulator.

Variable sz : unit_size.
Variable debug : bool.

(** [Traits::eof()] *)
Definition eof : Z :=
  match sz with
  | U8 => -1
  | U16 => 0xFFFF
  | U32 => 0xFFFFFFFF
  end.

(** [Traits::not_eof(ch)]: [ch] unless it is [eof()], else a value that is
    not [eof()] (0 in libstdc++, [~eof()] in libc++). *)
Definition not_eof (ch : Z) : Z :=
  if ch =? eof then 0 else ch.

(** [Traits::to_char_type(ch)] *)
Definition to_char_type (ch : Z) : Z :=
  match sz with
  | U8 => ch mod 256
  | _ => ch
  end.

(** [Traits::to_int_type(c)]: [char] goes through [unsigned char];
    [char_traits<char16_t>] of libstdc++ maps the unit 0xFFFF, which is the
    value of [eof()], to 0xFFFD. *)
Definition to_int_type (c : Z) : Z :=
  match sz with
  | U8 => c mod 256
  | U16 => if c =? 0xFFFF then 0xFFFD else c
  | U32 => c
  end.

(** The two checks every member function starts and ends with. *)
Definition check_columns (t : basic_tabulator) : result unit :=
  _ ← check debug (_sync_column t <? length (_cells t))%nat;
  check debug (_column t <? length (_cells t))%nat.

(** [_cells[i]] and the update of the cell through that reference. *)
Definition cell_at (t : basic_tabulator) (i : nat) : result cell_info :=
  match _cells t !! i with
  | Some c => Ok c
  | None => Fault OutOfRange
  end.

(** [overflow(ch)]: an [int] converts to [true] when it is not zero. *)
Definition overflow (ch : Z) (t : basic_tabulator) : result basic_tabulator :=
  if negb (not_eof ch =? 0) then
    c ← cell_at t (_column t);
    Ok (with_cells (<[_column t := putc (to_char_type ch) c]> (_cells t)) t)
  else Ok t.

(** The cell setters of the tabulator act on [get_current_cell()]. *)
Definition on_current_cell (f : cell_info -> result cell_info)
    (t : basic_tabulator) : result basic_tabulator :=
  c ← cell_at t (_column t);
  c' ← f c;
  Ok (with_cells (<[_column t := c']> (_cells t)) t).

Definition set_style (s : style_info) (t : basic_tabulator) : basic_tabulator :=
  mk_tabulator (_cells t) (_column t) (_sync_column t) (_line_start t) (_real_sb t) s.

Definition set_width (w : N) := on_current_cell (cell_set_width sz debug w).
Definition set_justify (j : justify.t) :=
  on_current_cell (fun c => Ok (cell_set_justify j c)).
Definition set_truncate (x : truncate.t) :=
  on_current_cell (cell_set_truncate sz debug x).
Definition set_wrap (w : wrap.t) :=
  on_current_cell (fun c => Ok (cell_set_wrap w c)).
Definition set_pad (p : list Z * list Z) :=
  on_current_cell (fun c => Ok (cell_set_pad p c)).
Definition set_ellipsis (e : list Z) :=
  on_current_cell (cell_set_ellipsis sz debug e).

(** The lambda [any] of [flush], applied to the cells from offset [i] on. *)
Definition any_from (i : nat) (cells : list cell_info) : bool :=
  existsb (fun c => negb (empty c)) (drop i cells).

(** The lambda [more] of [flush]. *)
Definition more (all_cells : bool) (t : basic_tabulator) : bool :=
  if (negb all_cells && (_sync_column t <? _column t)%nat)
     || (all_cells && (0 <? _sync_column t)%nat)
  then true
  else any_from (if all_cells then O else _sync_column t) (_cells t).

(** One iteration of the [while (more())] loop of [flush]: the tabulator
    afterwards and the characters put to [*_real_sb]. *)
Definition flush_step (all_cells : bool) (t : basic_tabulator)
    : result (basic_tabulator * list Z) :=
  let out_left := if _line_start t then _left (_cell (_style t)) else [] in
  let full_cell :=
    all_cells || (negb (_sync_column t =? _column t)%nat
                  || any_from (S (_sync_column t)) (_cells t)) in
  _ ← check_columns t;
  c ← cell_at t (_sync_column t);
  r ← write_line sz c full_cell;
  let '(c', out_cell, full_cell) := (r : cell_info * list Z * bool) in
  let cells := <[_sync_column t := c']> (_cells t) in
  if full_cell then
    let last := (S (_sync_column t) =? length cells)%nat in
    let out_sep :=
      if last then _right (_cell (_style t)) ++ [NL]
      else _center (_cell (_style t)) in
    let sync := if last then O else S (_sync_column t) in
    Ok (mk_tabulator cells (_column t) sync last (_real_sb t) (_style t),
        out_left ++ out_cell ++ out_sep)
  else
    Ok (mk_tabulator cells (_column t) (_sync_column t) false (_real_sb t) (_style t),
        out_left ++ out_cell).

Fixpoint flush_loop (fuel : nat) (all_cells : bool) (t : basic_tabulator)
    : result (basic_tabulator * list Z) :=
  if more all_cells t then
    match fuel with
    | O => Fault OutOfFuel
    | S fuel' =>
        r ← flush_step all_cells t;
        r' ← flush_loop fuel' all_cells (fst r);
        Ok (fst r', snd r ++ snd r')
    end
  else Ok (t, []).

(** [flush(all_cells)] *)
Definition flush (fuel : nat) (all_cells : bool) (t : basic_tabulator)
    : result (basic_tabulator * list Z) :=
  _ ← check_columns t;
  flush_loop fuel all_cells t.

(** [next_column()] *)
Definition next_column (fuel : nat) (t : basic_tabulator)
    : result (basic_tabulator * list Z) :=
  _ ← check_columns t;
  let col := S (_column t) in
  r ← (if (col =? length (_cells t))%nat
       then flush fuel true (with_column O t)
       else Ok (with_column col t, []));
  _ ← check_columns (fst r);
  Ok r.

(** [sync()]: the drain; [pubsync] of the wrapped streambuf is not modelled. *)
Definition sync (fuel : nat) (t : basic_tabulator)
    : result (basic_tabulator * list Z) :=
  flush fuel false t.

(** The [while (width > 0)] loop of [draw_segment]; [i] indexes [line]. *)
Fixpoint draw_segment_loop (fuel : nat) (line : list Z) (i : nat) (score : Z)
    (width : N) : result (list Z) :=
  if (0 <? width)%N then
    match fuel with
    | O => Fault OutOfFuel
    | S fuel' =>
        match line !! i with
        | None => Fault OutOfRange
        | Some ch =>
            let score := score + utf_char_score sz ch in
            let i := if (S i =? length line)%nat then O else S i in
            out ← draw_segment_loop fuel' line i score
                     (if score =? 0 then N.pred width else width);
            Ok (ch :: out)
        end
    end
  else Ok [].

(** [draw_segment(cell, left, line)] *)
Definition draw_segment (fuel : nat) (c : cell_info) (left line : list Z)
    : result (list Z) :=
  match line with
  | [] => Ok left
  | _ =>
      out ← draw_segment_loop fuel line O 0 (get_cell_width sz c);
      Ok (left ++ out)
  end.

(** The [for_each] of [draw_line] over the cells after the first. *)
Fixpoint draw_segments (fuel : nat) (cs : list cell_info) (tee line : list Z)
    : result (list Z) :=
  match cs with
  | [] => Ok []
  | c :: cs' =>
      o ← draw_segment fuel c tee line;
      os ← draw_segments fuel cs' tee line;
      Ok (o ++ os)
  end.

(** [draw_line(row)] *)
Definition draw_line (fuel : nat) (r : row) (t : basic_tabulator)
    : result (basic_tabulator * list Z) :=
  _ ← check_columns t;
  f ← (if negb (_column t =? O)%nat
       then flush fuel true (with_column O t)
       else Ok (t, []));
  let '(t, out_flush) := (f : basic_tabulator * list Z) in
  _ ← check_columns t;
  match _cells t with
  | [] => Fault OutOfRange
  | c :: cs =>
      o ← draw_segment fuel c (_left r) (_line r);
      os ← draw_segments fuel cs (_center r) (_line r);
      Ok (t, out_flush ++ o ++ os ++ _right r ++ [NL])
  end.

Definition top_line (fuel : nat) (t : basic_tabulator) :=
  draw_line fuel (_top (_style t)) t.
Definition horiz_line (fuel : nat) (t : basic_tabulator) :=
  draw_line fuel (_middle (_style t)) t.
Definition bottom_line (fuel : nat) (t : basic_tabulator) :=
  draw_line fuel (_bottom (_style t)) t.

End Tabulator.

(** ** basic_logger

    [go_first_column()] of the logger, which is a tabulator:
    [while (get_current_column() != 0) { next_column(); }].  [steps] bounds
    the iterations of this loop, [fuel] those of the drain inside
    [next_column]. *)
Fixpoint go_first_column (sz : unit_size) (debug : bool) (fuel steps : nat)
    (t : basic_tabulator) : result (basic_tabulator * list Z) :=
  if (_column t =? O)%nat then Ok (t, [])
  else
    match steps with
    | O => Fault OutOfFuel
    | S steps' =>
        r ← next_column sz debug fuel t;
        r' ← go_first_column sz debug fuel steps' (fst r);
        Ok (fst r', snd r ++ snd r')
    end.

(** ** The stream, its streambufs, and the manipulators

    The world holds the live streambuf objects by address and the
    [rdbuf()] pointer of the output stream [os] the tabulators are built on.
    A streambuf is either a plain sink (the [std::stringbuf] of the tests,
    modelled by the characters it has received) or a tabulator. *)

Inductive streambuf : Type :=
  | StringBuf (content : list Z)
  | Tabulator (t : basic_tabulator).

Record world : Type := mk_world {
  sbufs : gmap nat streambuf;
  os_rdbuf : sb_ptr
}.

Section Stream.

Variable sz : unit_size.
Variable debug : bool.

(** A run of [sputc] calls on a tabulator.  A tabulator has no put area, so
    [sputc(c)] is [overflow(to_int_type(c))]; the callers of [sputc] in this
    library do not look at what it returns. *)
Fixpoint sputc_all (s : list Z) (t : basic_tabulator) : result basic_tabulator :=
  match s with
  | [] => Ok t
  | c :: s' =>
      t' ← overflow sz (to_int_type sz c) t;
      sputc_all s' t'
  end.

(** [xsputn(s, n)], which the tabulator inherits from [std::basic_streambuf]:
    with no put area it calls [overflow(to_int_type(c))] unit after unit and
    stops at the first call that returns [eof()].  [overflow] returns its
    argument, so that is the first unit whose [int_type] value is [eof()]. *)
Fixpoint xsputn (s : list Z) (t : basic_tabulator) : result basic_tabulator :=
  match s with
  | [] => Ok t
  | c :: s' =>
      t' ← overflow sz (to_int_type sz c) t;
      if to_int_type sz c =? eof sz then Ok t' else xsputn s' t'
  end.

(** [p->sputn(s, n)] *)
Definition sputn (p : sb_ptr) (s : list Z) (h : gmap nat streambuf)
    : result (gmap nat streambuf) :=
  match h !! p with
  | Some (StringBuf content) => Ok (<[p := StringBuf (content ++ s)]> h)
  | Some (Tabulator t) =>
      t' ← xsputn s t;
      Ok (<[p := Tabulator t']> h)
  | None => Fault DanglingStreambuf
  end.

(** What a tabulator puts to the streambuf at [p], in order.  [write_line],
    [draw_fill], [flush] and the rules put the text, the fills, the line
    characters and the newline by [sputc] and the paddings, edges and
    separators by [sputn]; a wrapped tabulator passes every unit to
    [overflow] either way.  [sputn] would hand over no more of a padding,
    edge or separator after a unit whose [int_type] value is [eof()]: there
    is no such unit for [char] and [char16_t], and for a 32-bit type it is
    0xFFFFFFFF alone, which is not followed here. *)
Definition forward (p : sb_ptr) (s : list Z) (h : gmap nat streambuf)
    : result (gmap nat streambuf) :=
  match h !! p with
  | Some (StringBuf content) => Ok (<[p := StringBuf (content ++ s)]> h)
  | Some (Tabulator t) =>
      t' ← sputc_all s t;
      Ok (<[p := Tabulator t']> h)
  | None => Fault DanglingStreambuf
  end.

(** A member function of the tabulator at [p]; what it puts goes to
    [*_real_sb]. *)
Definition on_tabulator (f : basic_tabulator -> result (basic_tabulator * list Z))
    (p : sb_ptr) (h : gmap nat streambuf) : result (gmap nat streambuf) :=
  match h !! p with
  | Some (Tabulator t) =>
      r ← f t;
      forward (_real_sb (fst r)) (snd r) (<[p := Tabulator (fst r)]> h)
  | _ => Fault DanglingStreambuf
  end.

(** [basic_tabulator(os, cells_type&& cells)], constructed at address [p]. *)
Definition tabulator_ctor_rvalue (p : sb_ptr) (cells : list cell_info)
    (w : world) : world :=
  let t := mk_tabulator cells O O true (os_rdbuf w) (ascii sz) in
  mk_world (<[p := Tabulator t]> (sbufs w)) p.

(** [basic_tabulator(os, cells_type const& cells)]: the member initialiser
    list has no entry for [_line_start]; [indeterminate] is what the storage
    holds. *)
Definition tabulator_ctor_lvalue (p : sb_ptr) (cells : list cell_info)
    (indeterminate : bool) (w : world) : world :=
  let t := mk_tabulator cells O O indeterminate (os_rdbuf w) (ascii sz) in
  mk_world (<[p := Tabulator t]> (sbufs w)) p.

(** [~basic_tabulator()] of the tabulator at [p]. *)
Definition tabulator_dtor (p : sb_ptr) (w : world) : result world :=
  match sbufs w !! p with
  | Some (Tabulator t) => Ok (mk_world (delete p (sbufs w)) (_real_sb t))
  | _ => Fault DanglingStreambuf
  end.

(** [p->pubsync()] *)
Fixpoint pubsync (fuel : nat) (p : sb_ptr) (h : gmap nat streambuf)
    : result (gmap nat streambuf) :=
  match h !! p with
  | Some (StringBuf _) => Ok h
  | Some (Tabulator t) =>
      match fuel with
      | O => Fault OutOfFuel
      | S fuel' =>
          h' ← on_tabulator (sync sz debug fuel) p h;
          pubsync fuel' (_real_sb t) h'
      end
  | None => Fault DanglingStreambuf
  end.

(** What can be inserted into the stream. *)
Inductive stream_op : Type :=
  | put (c : Z)
  | write (s : list Z)
  | flush_os
  | endc
  | m_top_line
  | m_horiz_line
  | m_bottom_line
  | m_set_justify (j : justify.t)
  | m_set_truncate (x : truncate.t)
  | m_set_wrap (x : wrap.t)
  | m_set_width (n : N)
  | m_set_pad (lpad rpad : list Z)
  | m_set_style (s : style_info)
  | m_set_ellipsis (e : list Z).

(** [is_tabulator_streambuf(os.rdbuf())] guards every manipulator. *)
Definition manipulate (f : basic_tabulator -> result (basic_tabulator * list Z))
    (w : world) : result world :=
  match sbufs w !! os_rdbuf w with
  | Some (Tabulator _) =>
      h ← on_tabulator f (os_rdbuf w) (sbufs w);
      Ok (mk_world h (os_rdbuf w))
  | Some (StringBuf _) => Ok w
  | None => Fault DanglingStreambuf
  end.

Definition quiet (f : basic_tabulator -> result basic_tabulator)
    (t : basic_tabulator) : result (basic_tabulator * list Z) :=
  t' ← f t; Ok (t', []).

(** [os << x].  The error state of [os] is not modelled: it changes only
    when [sputn] comes back short, which takes a unit whose [int_type] value
    is [eof()], and there is none for [char] and [char16_t]. *)
Definition insert_op (fuel : nat) (x : stream_op) (w : world) : result world :=
  match x with
  | put c =>
      h ← sputn (os_rdbuf w) [c] (sbufs w); Ok (mk_world h (os_rdbuf w))
  | write s =>
      h ← sputn (os_rdbuf w) s (sbufs w); Ok (mk_world h (os_rdbuf w))
  | flush_os =>
      h ← pubsync fuel (os_rdbuf w) (sbufs w); Ok (mk_world h (os_rdbuf w))
  | endc => manipulate (next_column sz debug fuel) w
  | m_top_line => manipulate (top_line sz debug fuel) w
  | m_horiz_line => manipulate (horiz_line sz debug fuel) w
  | m_bottom_line => manipulate (bottom_line sz debug fuel) w
  | m_set_justify j => manipulate (quiet (set_justify j)) w
  | m_set_truncate x => manipulate (quiet (set_truncate sz debug x)) w
  | m_set_wrap x => manipulate (quiet (set_wrap x)) w
  | m_set_width n => manipulate (quiet (set_width sz debug n)) w
  | m_set_pad l r => manipulate (quiet (set_pad (l, r))) w
  | m_set_style s => manipulate (quiet (fun t => Ok (set_style s t))) w
  | m_set_ellipsis _ =>
      (* [operator<<] has no branch for a string parameter *)
      manipulate (quiet (fun t => Ok t)) w
  end.

Fixpoint insert_all (fuel : nat) (xs : list stream_op) (w : world) : result world :=
  match xs with
  | [] => Ok w
  | x :: xs' =>
      w' ← insert_op fuel x w;
      insert_all fuel xs' w'
  end.

(** What the plain sink at [p] has received. *)
Definition received (p : sb_ptr) (w : world) : option (list Z) :=
  match sbufs w !! p with
  | Some (StringBuf s) => Some s
  | _ => None
  end.

End Stream.

(** The fixture of the tests: a stream whose sink is an empty string buffer
    at address 0. *)
Definition ostringstream : world := mk_world {[ O := StringBuf [] ]} O.

Definition cells_of (sz : unit_size) (debug : bool) (widths : list N)
    : result (list cell_info) :=
  mapM (cell_info_default sz debug) widths.

(** Build a tabulator at address 1 over [ostringstream] and insert [xs]. *)
Definition scenario (debug : bool) (fuel : nat) (widths : list N)
    (xs : list stream_op) : result (option (list Z)) :=
  cells ← cells_of U8 debug widths;
  w ← insert_all U8 debug fuel xs (tabulator_ctor_rvalue U8 1 cells ostringstream);
  Ok (received O w).

(** ** Concrete cells and worlds the properties are evaluated at *)

(** [cell_info(w)] of the 8-bit tabulator, as the constructor leaves it. *)
Definition default_cell (w : N) : cell_info :=
  mk_cell_info [] w 0 true justify.left truncate.none wrap.character
               ([SPACE], [SPACE]) (UTF8_ELLIPSIS U8).

(** A width-10 cell truncating on the right that holds the four ISO 8859-1
    bytes of "café": the last byte, 0xE9, scores as the lead of a three-byte
    sequence. *)
Definition latin1_cell : cell_info :=
  mk_cell_info [99; 97; 102; 233] 10 0 true justify.left truncate.right
               wrap.character ([SPACE], [SPACE]) (UTF8_ELLIPSIS U8).

(** A width-10 cell truncating on the right that holds "abcdef ghijkl". *)
Definition long_cell : cell_info :=
  mk_cell_info (chars "abcdef ghijkl") 10 0 true justify.left truncate.right
               wrap.character ([SPACE], [SPACE]) (UTF8_ELLIPSIS U8).

(** A width-10 cell truncating on the right and wrapping by word that holds
    two lines, "123456 ghijkl" and "mnopqr stuvwx". *)
Definition two_line_cell : cell_info :=
  mk_cell_info (chars "123456 ghijkl" ++ [NL] ++ chars "mnopqr stuvwx") 10 0 true
               justify.left truncate.right wrap.word ([SPACE], [SPACE])
               (UTF8_ELLIPSIS U8).

(** A width-10 cell truncating on the right whose buffer fits and holds a
    newline. *)
Definition short_two_line_cell : cell_info :=
  mk_cell_info (chars "ab" ++ [NL] ++ chars "cd") 10 0 true
               justify.left truncate.right wrap.character ([SPACE], [SPACE])
               (UTF8_ELLIPSIS U8).

(** The same cell wrapping by word and holding fourteen letters and no
    whitespace. *)
Definition unbroken_cell : cell_info :=
  mk_cell_info (chars "abcdefghijklmn") 10 0 true justify.left truncate.right
               wrap.word ([SPACE], [SPACE]) (UTF8_ELLIPSIS U8).

(** [long_cell] in the middle of a cell line: [_cell_start] is clear. *)
Definition started_cell : cell_info :=
  mk_cell_info (chars "abcdef ghijkl") 10 0 false justify.left truncate.right
               wrap.character ([SPACE], [SPACE]) (UTF8_ELLIPSIS U8).

(** A width-9 cell wrapping by word that holds the UTF-8 units of
    "électricité": eleven code points and no whitespace; the tenth is one
    unit and the eleventh begins with a lead unit. *)
Definition electricite_cell : cell_info :=
  mk_cell_info ([0xC3; 0xA9] ++ chars "lectricit" ++ [0xC3; 0xA9]) 9 0 true
               justify.left truncate.none wrap.word ([SPACE], [SPACE])
               (UTF8_ELLIPSIS U8).

(** The UTF-8 units of "$€$". *)
Definition dollar_euro_dollar : list Z := [0x24; 0xE2; 0x82; 0xAC; 0x24].

(** The world of a run, or [d] if the run faulted. *)
Definition world_of (d : world) (r : result world) : world :=
  match r with
  | Ok w => w
  | Fault _ => d
  end.

(** A one-column tabulator at address 1 over [ostringstream]. *)
Definition one_column : world :=
  tabulator_ctor_rvalue U8 1 [default_cell 10] ostringstream.

(** The same after [os << "abc"]: a row is pending in the cell. *)
Definition pending_world : world :=
  world_of ostringstream
    (insert_all U8 true 1 [write (chars "abc")] one_column).

(** The same after the word-wrapped row of the first scenario. *)
Definition wrapped_world : world :=
  world_of ostringstream
    (insert_all U8 true 2
       [m_set_wrap wrap.word; write (chars "abcdef ghijkl"); endc] one_column).

(** The one-column scenario on a tabulator built by the l-value
    constructor, whose [_line_start] holds [indeterminate]. *)
Definition scenario_lvalue (debug : bool) (fuel : nat) (indeterminate : bool)
    (xs : list stream_op) : result (option (list Z)) :=
  w ← insert_all U8 debug fuel xs
        (tabulator_ctor_lvalue U8 1 [default_cell 10] indeterminate ostringstream);
  Ok (received O w).

(** The nested test: "one" and a column advance on a two-column outer
    tabulator of width 20; an inner tabulator with two width-5 cells built on
    the same stream at address 2, which receives "12345678", an advance,
    "abcd", an advance, and is destroyed; then one more advance. *)
Definition nested_scenario (debug : bool) (fuel : nat) : result (option (list Z)) :=
  outer ← cells_of U8 debug [20%N; 20%N];
  w ← insert_all U8 debug fuel [write (chars "one"); endc]
        (tabulator_ctor_rvalue U8 1 outer ostringstream);
  inner ← cells_of U8 debug [5%N; 5%N];
  w ← insert_all U8 debug fuel
        [write (chars "12345678"); endc; write (chars "abcd"); endc]
        (tabulator_ctor_rvalue U8 2 inner w);
  w ← tabulator_dtor 2 w;
  w ← insert_all U8 debug fuel [endc] w;
  Ok (received O w).

(** ** Notions used to state the properties *)

(** The units of one code point: a lead unit whose score is the number of
    units that follow, each of score -1. *)
Definition is_cp (sz : unit_size) (ch : list Z) : Prop :=
  match ch with
  | [] => False
  | lead :: conts =>
      utf_char_score sz lead = Z.of_nat (length conts)
      /\ Forall (fun u => utf_char_score sz u = -1) conts
  end.

(** Reading [l] with the rolling sum at [cbr], the sum is back at zero for
    the first time after the last unit of [l]. *)
Fixpoint closes (sz : unit_size) (cbr : Z) (l : list Z) : Prop :=
  match l with
  | [] => False
  | u :: l' =>
      match l' with
      | [] => cbr + utf_char_score sz u = 0
      | _ :: _ => cbr + utf_char_score sz u <> 0
                  /\ closes sz (cbr + utf_char_score sz u) l'
      end
  end.

(** The values the rolling sum of [utflen] takes, one per unit. *)
Fixpoint rolling_sums (sz : unit_size) (cbr : Z) (s : list Z) : list Z :=
  match s with
  | [] => []
  | u :: s' =>
      (cbr + utf_char_score sz u) :: rolling_sums sz (cbr + utf_char_score sz u) s'
  end.

(** A run of units the line search steps over as one character: the rolling
    sum closes at its end, and a newline only occurs as a unit of its own. *)
Definition unit_chunk (sz : unit_size) (ch : list Z) : Prop :=
  closes sz 0 ch /\ (NL ∈ ch -> ch = [NL]).

(** A sequence of whole code points. *)
Definition well_formed (sz : unit_size) (s : list Z) : Prop :=
  exists chunks, Forall (is_cp sz) chunks /\ s = concat chunks.

(** What a streambuf points to: nothing for a plain sink, the wrapped
    streambuf for a tabulator. *)
Definition link_of (o : streambuf) : option sb_ptr :=
  match o with
  | StringBuf _ => None
  | Tabulator t => Some (_real_sb t)
  end.

(** The live objects with their links, forgetting their contents. *)
Definition links (h : gmap nat streambuf) : gmap nat (option sb_ptr) :=
  link_of <$> h.

(** [P] on every integer of [base, base + 2^k), by halving the interval. *)
Fixpoint all_bits (k : nat) (P : Z -> bool) (base : Z) : bool :=
  match k with
  | O => P base
  | S k' => all_bits k' P base && all_bits k' P (base + 2 ^ Z.of_nat k')
  end.

(** A run has settled when it did not stop for lack of fuel. *)
Definition settled {A} (r : result A) : Prop := r <> Fault OutOfFuel.

(** More fuel does not change a settled run. *)
Definition fuel_mono {A} (f : nat -> result A) : Prop :=
  forall n m, (n <= m)%nat -> settled (f n) -> f m = f n.

(** A cell with the policies the constructor gives it: no truncation and
    wrapping by character. *)
Definition plain_cell (c : cell_info) : Prop :=
  _truncate c = truncate.none /\ _wrap c = wrap.character.

(** What a forced line of a plain cell makes smaller: the units held, and
    then the count of code points already written on the line. *)
Definition cell_measure (c : cell_info) : nat :=
  2 * length (_buf c) + (if (_written c =? 0)%N then 0 else 1).

Definition cells_measure (cs : list cell_info) : nat :=
  sum_list_with cell_measure cs.

(** The two indices of a tabulator are inside its cell list. *)
Definition in_range (t : basic_tabulator) : Prop :=
  (_column t < length (_cells t))%nat /\ (_sync_column t < length (_cells t))%nat.

(** The forced drain settles from [t]. *)
Definition halts (sz : unit_size) (debug : bool) (t : basic_tabulator) : Prop :=
  exists fuel, settled (flush_loop sz debug fuel true t).

(** The insertions that are manipulators of this library. *)
Definition is_manipulator (x : stream_op) : bool :=
  match x with
  | put _ | write _ | flush_os => false
  | _ => true
  end.

(** The faults that read a cell buffer out of its bounds. *)
Definition buffer_fault (f : fault) : Prop :=
  f = FrontOfEmpty \/ f = DerefEnd \/ f = BeforeBegin.

(** A member function that, from a tabulator in range, keeps the cell count
    and the indices in range, and can only fail in a cell buffer or for lack
    of fuel. *)
Definition keeps_range (t : basic_tabulator)
    (r : result (basic_tabulator * list Z)) : Prop :=
  match r with
  | Ok (t', _) => length (_cells t') = length (_cells t) /\ in_range t'
  | Fault f => buffer_fault f \/ f = OutOfFuel
  end.

(** A rule of the table: the segments of the cells, the first after the
    left edge and each other after a tee, then the right edge and a newline. *)
Definition rule_of (r : row) (segs : list (list Z)) : list Z :=
  match segs with
  | [] => []
  | seg :: segs' =>
      _left r ++ seg ++ concat (map (fun s => _center r ++ s) segs')
        ++ _right r ++ [NL]
  end.

(** The units of [s] before the first whose [int_type] value is [eof()]. *)
Fixpoint before_eof (sz : unit_size) (s : list Z) : list Z :=
  match s with
  | [] => []
  | u :: s' => if to_int_type sz u =? eof sz then [] else u :: before_eof sz s'
  end.

(** What [sputn] leaves in the cell of the units of [s]: the [int_type]
    values of those before the first [eof()], without the NULs. *)
Definition kept (sz : unit_size) (s : list Z) : list Z :=
  filter (fun u => u <> 0) (to_int_type sz <$> before_eof sz s).

(** A whitespace unit the truncation can break at: on the side that is kept
    (before it when the cell truncates on the right, after it when it
    truncates on the left) there are at most [n] code points. *)
Definition break_within (sz : unit_size) (right : bool) (n : N) (s : list Z)
    : Prop :=
  exists a x b, s = a ++ x :: b /\ isspace x = true
    /\ (utflen sz (if right then a else b) <= n)%N.

(** The fills on the left and on the right of a text that is [total] code
    points short of the width of its cell. *)
Definition fills (j : justify.t) (total : N) : N * N :=
  match j with
  | justify.left => (0, total)
  | justify.right => (total, 0)
  | justify.center => (total / 2, total - total / 2)
  end%N.

(** The line of a cell whose text fits its width: the text between its
    fills, between the paddings. *)
Definition cell_line (sz : unit_size) (c : cell_info) : list Z :=
  let f := fills (_justify c) (_width c - utflen sz (_buf c)) in
  fst (_pad c) ++ draw_fill (fst f) ++ _buf c ++ draw_fill (snd f) ++ snd (_pad c).

(** A cell at the start of a row whose text fits on one line of it. *)
Definition fits_one_line (sz : unit_size) (c : cell_info) : Prop :=
  _width c <> 0%N /\ _written c = 0%N /\ _cell_start c = true
  /\ well_formed sz (_buf c) /\ (utflen sz (_buf c) <= _width c)%N
  /\ (NL ∉ _buf c) /\ well_formed sz (fst (_pad c)).

(** What follows the first cell of a row: each further cell after the
    separator, then the right edge and the newline. *)
Fixpoint row_rest (r : row) (lines : list (list Z)) : list Z :=
  match lines with
  | [] => _right r ++ [NL]
  | l :: lines' => _center r ++ l ++ row_rest r lines'
  end.

(** An edge, tee or separator of a style: nothing, or one code point. *)
Definition short (sz : unit_size) (l : list Z) : Prop := l = [] \/ is_cp sz l.

(** The rule [r] of style [s] is drawn with one code point, and its edges
    and tees are as wide as the edges and separators of a row. *)
Definition aligned_rule (sz : unit_size) (s : style_info) (r : row) : Prop :=
  is_cp sz (_line r)
  /\ short sz (_left r) /\ short sz (_center r) /\ short sz (_right r)
  /\ short sz (_left (_cell s)) /\ short sz (_center (_cell s))
  /\ short sz (_right (_cell s))
  /\ utflen sz (_left r) = utflen sz (_left (_cell s))
  /\ utflen sz (_center r) = utflen sz (_center (_cell s))
  /\ utflen sz (_right r) = utflen sz (_right (_cell s)).

(** The three rules of a style. *)
Definition rules (s : style_info) : list row := [_top s; _middle s; _bottom s].

(** The units of one code point, in the order of the buffer or in the order
    the reverse iterators of the left truncation give them. *)
Definition cp_either (sz : unit_size) (ch : list Z) : Prop :=
  is_cp sz ch \/ is_cp sz (reverse ch).

(** * Properties *)

(** ** The result monad *)

Lemma bind_Ok {A B} (m : result A) (k : A -> result B) (b : B) :
  m ≫= k = Ok b -> exists a, m = Ok a /\ k a = Ok b.
Proof. destruct m as [a|f]; simpl; [eauto | discriminate]. Qed.

(** ** The width oracle *)

(** A property of the integers below [2^k], decided by running through them. *)
Lemma all_bits_spec k : forall P base,
  all_bits k P base = true ->
  forall x, base <= x < base + 2 ^ Z.of_nat k -> P x = true.
Proof.
  induction k as [|k IH]; intros P base Hall x Hx.
  - cbn in *. replace x with base by lia. exact Hall.
  - cbn [all_bits] in Hall. apply andb_true_iff in Hall as [H1 H2].
    rewrite Nat2Z.inj_succ, Z.pow_succ_r in Hx by lia.
    destruct (Z.lt_ge_cases x (base + 2 ^ Z.of_nat k)).
    + apply (IH P base H1). lia.
    + apply (IH P _ H2). lia.
Qed.

Ltac by_range n :=
  match goal with
  | |- ?f ?x = ?v =>
      let H := fresh in
      assert (H : (fun y => f y =? v) x = true);
      [ refine (all_bits_spec n (fun y => f y =? v) 0 _ x _);
        [vm_compute; reflexivity | cbn; lia]
      | cbv beta in H; apply Z.eqb_eq in H; exact H ]
  end.

Lemma score8_single u : 0 <= u < 0x80 -> utf_char_score U8 u = 0.
Proof. intros. by_range 7%nat. Qed.

Lemma score8_cont z : 0 <= z < 64 -> utf_char_score U8 (Z.lor 0x80 z) = -1.
Proof.
  intros. change (utf_char_score U8 (Z.lor 128 z)) with
    ((fun y => utf_char_score U8 (Z.lor 128 y)) z).
  by_range 6%nat.
Qed.

Lemma score8_lead2 x : 0 <= x < 32 -> utf_char_score U8 (Z.lor 0xC0 x) = 1.
Proof.
  intros. change (utf_char_score U8 (Z.lor 192 x)) with
    ((fun y => utf_char_score U8 (Z.lor 192 y)) x).
  by_range 5%nat.
Qed.

Lemma score8_lead3 x : 0 <= x < 16 -> utf_char_score U8 (Z.lor 0xE0 x) = 2.
Proof.
  intros. change (utf_char_score U8 (Z.lor 224 x)) with
    ((fun y => utf_char_score U8 (Z.lor 224 y)) x).
  by_range 4%nat.
Qed.

Lemma score8_lead4 x : 0 <= x < 8 -> utf_char_score U8 (Z.lor 0xF0 x) = 3.
Proof.
  intros. change (utf_char_score U8 (Z.lor 240 x)) with
    ((fun y => utf_char_score U8 (Z.lor 240 y)) x).
  by_range 3%nat.
Qed.

Lemma score16_single u :
  0 <= u < 0xD800 \/ 0xE000 <= u < 0x10000 -> utf_char_score U16 u = 0.
Proof.
  intros Hu.
  assert (H : (fun y => if (y <? 0xD800) || (0xE000 <=? y)
                        then utf_char_score U16 y =? 0 else true) u = true).
  { refine (all_bits_spec 16 (fun y => if (y <? 0xD800) || (0xE000 <=? y)
                        then utf_char_score U16 y =? 0 else true) 0 _ u _);
      [vm_compute; reflexivity | cbn; lia]. }
  cbv beta in H.
  destruct Hu as [Hu|Hu].
  - replace (u <? 55296) with true in H by (symmetry; apply Z.ltb_lt; lia).
    simpl in H. apply Z.eqb_eq in H. exact H.
  - replace (57344 <=? u) with true in H by (symmetry; apply Z.leb_le; lia).
    rewrite orb_true_r in H. apply Z.eqb_eq in H. exact H.
Qed.

Lemma score16_high x : 0 <= x < 1024 -> utf_char_score U16 (Z.lor 0xD800 x) = 1.
Proof.
  intros. change (utf_char_score U16 (Z.lor 55296 x)) with
    ((fun y => utf_char_score U16 (Z.lor 55296 y)) x).
  by_range 10%nat.
Qed.

Lemma score16_low x : 0 <= x < 1024 -> utf_char_score U16 (Z.lor 0xDC00 x) = -1.
Proof.
  intros. change (utf_char_score U16 (Z.lor 56320 x)) with
    ((fun y => utf_char_score U16 (Z.lor 56320 y)) x).
  by_range 10%nat.
Qed.

Lemma low_bits_range x k : 0 <= k -> 0 <= Z.land x (Z.ones k) < 2 ^ k.
Proof. intros. rewrite Z.land_ones by lia. apply Z.mod_pos_bound. lia. Qed.

Lemma high_bits_range x k n :
  0 <= k -> 0 <= x < n * 2 ^ k -> 0 <= Z.shiftr x k < n.
Proof.
  intros Hk Hx. rewrite Z.shiftr_div_pow2 by lia.
  assert (0 < 2 ^ k) by lia.
  split; [apply Z.div_pos; lia | apply Z.div_lt_upper_bound; lia].
Qed.

Lemma utf8_encode_is_cp cp : scalar_value cp -> is_cp U8 (utf8_encode cp).
Proof.
  intros Hcp. unfold utf8_encode.
  assert (Hr : 0 <= cp <= 0x10FFFF) by (destruct Hcp; lia).
  change 0x3F with (Z.ones 6).
  destruct (Z.ltb_spec cp 0x80); [|destruct (Z.ltb_spec cp 0x800);
    [|destruct (Z.ltb_spec cp 0x10000)]]; cbn [is_cp length Z.of_nat Pos.of_succ_nat Pos.succ];
    (split; [|repeat (apply List.Forall_cons); try apply List.Forall_nil]).
  - apply score8_single; lia.
  - apply score8_lead2, (high_bits_range cp 6 32); lia.
  - apply score8_cont, (low_bits_range _ 6); lia.
  - apply score8_lead3, (high_bits_range cp 12 16); lia.
  - apply score8_cont, (low_bits_range _ 6); lia.
  - apply score8_cont, (low_bits_range _ 6); lia.
  - apply score8_lead4, (high_bits_range cp 18 8); lia.
  - apply score8_cont, (low_bits_range _ 6); lia.
  - apply score8_cont, (low_bits_range _ 6); lia.
  - apply score8_cont, (low_bits_range _ 6); lia.
Qed.

Lemma utf16_encode_is_cp cp : scalar_value cp -> is_cp U16 (utf16_encode cp).
Proof.
  intros Hcp. unfold utf16_encode.
  change 0x3FF with (Z.ones 10).
  destruct (Z.ltb_spec cp 0x10000); cbn [is_cp length Z.of_nat Pos.of_succ_nat Pos.succ];
    (split; [|repeat (apply List.Forall_cons); try apply List.Forall_nil]).
  - apply score16_single. destruct Hcp; lia.
  - apply score16_high, (high_bits_range _ 10 1024); destruct Hcp; lia.
  - apply score16_low, (low_bits_range _ 10); lia.
Qed.

Lemma utf_encode_is_cp sz cp : scalar_value cp -> is_cp sz (utf_encode sz cp).
Proof.
  destruct sz; simpl.
  - apply utf8_encode_is_cp.
  - apply utf16_encode_is_cp.
  - intros _. split; [reflexivity | apply List.Forall_nil].
Qed.

Lemma closes_conts sz conts cbr :
  Forall (fun u => utf_char_score sz u = -1) conts ->
  conts <> [] -> cbr = Z.of_nat (length conts) -> closes sz cbr conts.
Proof.
  revert cbr. induction conts as [|u conts IH]; intros cbr Hall Hne Hcbr;
    [congruence|].
  apply Forall_cons in Hall as [Hu Hall].
  cbn [closes]. rewrite Hu. destruct conts as [|u' conts'].
  - simpl in Hcbr. lia.
  - split; [cbn [length] in Hcbr; lia|].
    apply IH; [assumption | discriminate | cbn [length] in *; lia].
Qed.

Lemma is_cp_closes sz ch : is_cp sz ch -> closes sz 0 ch.
Proof.
  destruct ch as [|lead conts]; [intros []|]. intros [Hlead Hconts].
  cbn [closes]. destruct conts as [|u conts].
  - simpl in Hlead. lia.
  - split; [cbn [length] in Hlead; lia|].
    apply closes_conts; [assumption | discriminate | lia].
Qed.

Lemma closes_snoc sz xs cbr lead :
  Forall (fun u => utf_char_score sz u = -1) xs ->
  cbr <= 0 -> cbr - Z.of_nat (length xs) + utf_char_score sz lead = 0 ->
  closes sz cbr (xs ++ [lead]).
Proof.
  revert cbr. induction xs as [|x xs IH]; intros cbr Hall Hle Hsum.
  - simpl in *. lia.
  - apply Forall_cons in Hall as [Hx Hall].
    assert (Htail : closes sz (cbr + utf_char_score sz x) (xs ++ [lead])).
    { apply IH; [assumption | lia | cbn [length] in Hsum; lia]. }
    change ((x :: xs) ++ [lead]) with (x :: (xs ++ [lead])).
    cbn [closes]. destruct (xs ++ [lead]) eqn:E.
    + destruct xs; discriminate.
    + split; [lia | exact Htail].
Qed.

Lemma is_cp_closes_reverse sz ch : is_cp sz ch -> closes sz 0 (reverse ch).
Proof.
  destruct ch as [|lead conts]; [intros []|]. intros [Hlead Hconts].
  rewrite reverse_cons. apply closes_snoc.
  - apply Forall_reverse. exact Hconts.
  - lia.
  - rewrite length_reverse. lia.
Qed.

Lemma utflen_loop_chunk sz ch : forall cbr c rest,
  closes sz cbr ch ->
  utflen_loop sz cbr c (ch ++ rest) = utflen_loop sz 0 (N.succ c) rest.
Proof.
  induction ch as [|u ch IH]; intros cbr c rest Hc; [destruct Hc|].
  cbn [closes] in Hc. cbn [app utflen_loop]. destruct ch as [|u' ch'].
  - rewrite Hc. reflexivity.
  - destruct Hc as [Hne Hc].
    destruct (Z.eqb_spec (cbr + utf_char_score sz u) 0); [contradiction|].
    apply IH. exact Hc.
Qed.

Lemma utflen_loop_chunks sz chunks : forall c rest,
  Forall (closes sz 0) chunks ->
  utflen_loop sz 0 c (concat chunks ++ rest)
  = utflen_loop sz 0 (c + N.of_nat (length chunks)) rest.
Proof.
  induction chunks as [|ch chunks IH]; intros c rest Hall.
  - simpl. f_equal. lia.
  - apply Forall_cons in Hall as [Hch Hall].
    cbn [concat]. rewrite <- app_assoc, utflen_loop_chunk by assumption.
    rewrite IH by assumption. f_equal. cbn [length]. lia.
Qed.

Lemma utflen_loop_U32 s : forall c,
  utflen_loop U32 0 c s = (c + N.of_nat (length s))%N.
Proof.
  induction s as [|u s IH]; intros c; cbn [utflen_loop length].
  - lia.
  - simpl. rewrite IH. lia.
Qed.

Lemma utflen_as_loop sz s : utflen sz s = utflen_loop sz 0 0 s.
Proof. destruct sz; try reflexivity. simpl. rewrite utflen_loop_U32. lia. Qed.

Lemma utflen_chunks sz chunks :
  Forall (closes sz 0) chunks ->
  utflen sz (concat chunks) = N.of_nat (length chunks).
Proof.
  intros Hall. rewrite utflen_as_loop.
  rewrite <- (app_nil_r (concat chunks)), utflen_loop_chunks by assumption.
  reflexivity.
Qed.

Lemma utflen_chunks_app sz chunks rest :
  Forall (closes sz 0) chunks ->
  utflen sz (concat chunks ++ rest)
  = (N.of_nat (length chunks) + utflen sz rest)%N.
Proof.
  intros Hall. rewrite !utflen_as_loop, utflen_loop_chunks by assumption.
  generalize (N.of_nat (length chunks)). clear.
  assert (G : forall s cbr c d,
    utflen_loop sz cbr (c + d) s = (c + utflen_loop sz cbr d s)%N).
  { induction s as [|u s IH]; intros cbr c d; cbn [utflen_loop]; [reflexivity|].
    destruct (_ =? 0); [|apply IH].
    rewrite <- IH. f_equal. lia. }
  intros n. rewrite <- G. f_equal. lia.
Qed.

Lemma utflen_loop_rolling sz s : forall cbr c,
  utflen_loop sz cbr c s
  = (c + N.of_nat (length (filter (fun r : Z => r = 0%Z) (rolling_sums sz cbr s))))%N.
Proof.
  induction s as [|u s IH]; intros cbr c; cbn [utflen_loop rolling_sums].
  - simpl. lia.
  - rewrite IH, filter_cons.
    destruct (Z.eqb_spec (cbr + utf_char_score sz u) 0) as [E|E].
    + rewrite decide_True by assumption. cbn [length]. lia.
    + rewrite decide_False by assumption. reflexivity.
Qed.

Lemma SLI_chunks sz cps :
  Forall scalar_value cps -> Forall (is_cp sz) (map (utf_encode sz) cps).
Proof.
  intros H. apply Forall_map. eapply Forall_impl; [exact H|].
  intros cp Hcp. apply utf_encode_is_cp. exact Hcp.
Qed.

(** ** The line search over whole characters *)

Lemma score_NL sz : utf_char_score sz NL = 0.
Proof. destruct sz; reflexivity. Qed.

Lemma score_SPACE sz : utf_char_score sz SPACE = 0.
Proof. destruct sz; reflexivity. Qed.

Lemma closes_nonempty sz cbr ch : closes sz cbr ch -> ch <> [].
Proof. destruct ch; [intros [] | discriminate]. Qed.

Lemma is_cp_unit_chunk sz ch : is_cp sz ch -> unit_chunk sz ch.
Proof.
  intros Hcp. split; [apply is_cp_closes; exact Hcp|].
  destruct ch as [|lead conts]; [destruct Hcp|]. destruct Hcp as [Hlead Hconts].
  intros Hin. apply elem_of_cons in Hin as [Heq|Hin].
  - subst lead. rewrite score_NL in Hlead. destruct conts; [reflexivity|].
    cbn [length] in Hlead. lia.
  - rewrite List.Forall_forall in Hconts.
    apply list_elem_of_In in Hin. apply Hconts in Hin.
    rewrite score_NL in Hin. discriminate.
Qed.

Lemma is_cp_unit_chunk_reverse sz ch : is_cp sz ch -> unit_chunk sz (reverse ch).
Proof.
  intros Hcp. split; [apply is_cp_closes_reverse; exact Hcp|].
  intros Hin. rewrite elem_of_reverse in Hin.
  apply is_cp_unit_chunk in Hcp as [_ Hnl]. rewrite (Hnl Hin). reflexivity.
Qed.

Lemma find_line_end_loop_step sz ch : forall cbr w rest it,
  closes sz cbr ch -> NL ∉ ch -> (0 < w)%N ->
  find_line_end_loop sz cbr w (ch ++ rest) it
  = find_line_end_loop sz 0 (N.pred w) rest (it + length ch).
Proof.
  induction ch as [|u ch IH]; intros cbr w rest it Hc Hnl Hw; [destruct Hc|].
  assert (Hu : u <> NL) by (intros ->; apply Hnl; left).
  assert (Hch : NL ∉ ch) by (intros H; apply Hnl; right; exact H).
  cbn [closes] in Hc. cbn [app find_line_end_loop length].
  replace (w =? 0)%N with false by (symmetry; apply N.eqb_neq; lia).
  destruct ch as [|u' ch'].
  - rewrite Hc. cbn [Z.eqb].
    replace (u =? NL) with false by (symmetry; apply Z.eqb_neq; exact Hu).
    cbn [app length]. f_equal. lia.
  - destruct Hc as [Hne Hc].
    replace (cbr + utf_char_score sz u =? 0) with false
      by (symmetry; apply Z.eqb_neq; exact Hne).
    rewrite (IH _ _ _ _ Hc Hch Hw). f_equal. cbn [length]. lia.
Qed.

Lemma find_line_end_chunks sz chunks : forall w it,
  Forall (unit_chunk sz) chunks ->
  exists k, (k <= length chunks)%nat /\ (N.of_nat k <= w)%N
    /\ find_line_end_loop sz 0 w (concat chunks) it
       = (it + length (concat (take k chunks)))%nat.
Proof.
  induction chunks as [|ch chunks IH]; intros w it Hall.
  - exists O. cbn. repeat split; lia.
  - apply Forall_cons in Hall as [[Hch Hnl] Hall].
    pose proof (closes_nonempty _ _ _ Hch) as Hne.
    destruct (N.eq_dec w 0%N) as [->|Hw].
    + exists O. repeat split; [cbn; lia | lia |].
      destruct ch as [|u ch']; [congruence|]. cbn. lia.
    + destruct (decide (NL ∈ ch)) as [Hin|Hnin].
      * exists O. repeat split; [cbn; lia | lia |].
        rewrite (Hnl Hin). cbn [concat app find_line_end_loop take length].
        replace (w =? 0)%N with false by (symmetry; apply N.eqb_neq; lia).
        rewrite score_NL, Z.add_0_l, Z.eqb_refl. cbn. lia.
      * destruct (IH (N.pred w) (it + length ch)%nat Hall) as (k & Hk & Hkw & E).
        exists (S k). repeat split; [cbn [length]; lia | lia |].
        cbn [concat take]. rewrite find_line_end_loop_step by (assumption || lia).
        rewrite E, length_app. lia.
Qed.

Lemma concat_take_drop (chunks : list (list Z)) k :
  concat chunks = concat (take k chunks) ++ concat (drop k chunks).
Proof. rewrite <- concat_app, take_drop. reflexivity. Qed.

(** The line search over whole characters stops after at most [w] of them. *)
Lemma find_line_end_units sz chunks w :
  Forall (unit_chunk sz) chunks ->
  exists k, (N.of_nat k <= w)%N
    /\ take (find_line_end sz (concat chunks) w) (concat chunks)
       = concat (take k chunks)
    /\ (find_line_end sz (concat chunks) w <= length (concat chunks))%nat.
Proof.
  intros Hall. destruct (find_line_end_chunks sz chunks w O Hall) as (k & Hk & Hkw & E).
  exists k. unfold find_line_end. rewrite E. cbn [Nat.add].
  split; [exact Hkw|]. split.
  - rewrite (concat_take_drop chunks k) at 1. apply take_app_length.
  - rewrite (concat_take_drop chunks k) at 1. rewrite length_app. lia.
Qed.

Lemma reverse_concat (chunks : list (list Z)) :
  reverse (concat chunks) = concat (reverse (map reverse chunks)).
Proof.
  induction chunks as [|ch chunks IH]; [reflexivity|].
  cbn [concat map]. rewrite reverse_app, reverse_cons, concat_app, IH.
  cbn [concat]. rewrite app_nil_r. reflexivity.
Qed.

Lemma well_formed_app sz a b :
  well_formed sz a -> well_formed sz b -> well_formed sz (a ++ b).
Proof.
  intros (ca & Ha & ->) (cb & Hb & ->). exists (ca ++ cb). split.
  - apply Forall_app. split; assumption.
  - rewrite concat_app. reflexivity.
Qed.

Lemma utflen_app sz a b :
  well_formed sz a -> utflen sz (a ++ b) = (utflen sz a + utflen sz b)%N.
Proof.
  intros (ca & Ha & ->).
  assert (Hc : Forall (closes sz 0) ca).
  { eapply Forall_impl; [exact Ha|]. intros ch. apply is_cp_closes. }
  rewrite utflen_chunks_app, utflen_chunks by assumption. reflexivity.
Qed.

Lemma well_formed_fill sz n : well_formed sz (draw_fill n).
Proof.
  exists (replicate (N.to_nat n) [SPACE]). unfold draw_fill. split.
  - apply Forall_replicate. cbn. rewrite score_SPACE. split; [reflexivity|constructor].
  - induction (N.to_nat n) as [|m IH]; [reflexivity|].
    cbn [replicate concat app]. rewrite <- IH. reflexivity.
Qed.

Lemma utflen_fill sz n : utflen sz (draw_fill n) = n.
Proof.
  rewrite utflen_as_loop. unfold draw_fill.
  assert (G : forall m c, utflen_loop sz 0 c (replicate m SPACE) = (c + N.of_nat m)%N).
  { induction m as [|m IH]; intros c; cbn [replicate utflen_loop]; [lia|].
    rewrite score_SPACE, Z.add_0_l, Z.eqb_refl, IH. lia. }
  rewrite G. lia.
Qed.

Lemma SLI_well_formed sz cps : Forall scalar_value cps -> well_formed sz (SLI sz cps).
Proof. intros H. eexists. split; [apply SLI_chunks; exact H | reflexivity]. Qed.

Lemma utflen_well_formed sz chunks :
  Forall (is_cp sz) chunks -> utflen sz (concat chunks) = N.of_nat (length chunks).
Proof.
  intros H. apply utflen_chunks. eapply Forall_impl; [exact H|].
  intros ch. apply is_cp_closes.
Qed.

(** What the forward search keeps is whole characters, at most [w] of them. *)
Lemma find_line_end_take sz s w :
  well_formed sz s ->
  well_formed sz (take (find_line_end sz s w) s)
  /\ (utflen sz (take (find_line_end sz s w) s) <= w)%N.
Proof.
  intros (chunks & Hcp & ->).
  assert (Hu : Forall (unit_chunk sz) chunks).
  { eapply Forall_impl; [exact Hcp|]. intros ch. apply is_cp_unit_chunk. }
  destruct (find_line_end_units sz chunks w Hu) as (k & Hk & E & _).
  rewrite E. split.
  - exists (take k chunks). split; [apply Forall_take; exact Hcp | reflexivity].
  - rewrite utflen_well_formed by (apply Forall_take; exact Hcp).
    pose proof (length_take_le chunks k). rewrite length_take. lia.
Qed.

(** The same for the reverse search, which keeps the tail of the buffer. *)
Lemma find_line_end_reverse_drop sz s w :
  well_formed sz s ->
  well_formed sz (drop (length s - find_line_end sz (reverse s) w) s)
  /\ (utflen sz (drop (length s - find_line_end sz (reverse s) w) s) <= w)%N.
Proof.
  intros (chunks & Hcp & ->).
  set (rchunks := reverse (map reverse chunks)).
  assert (Hr : Forall (fun r => is_cp sz (reverse r)) rchunks).
  { apply Forall_reverse. clear -Hcp. induction Hcp as [|ch chunks Hch _ IH].
    - constructor.
    - cbn [map]. constructor; [rewrite reverse_involutive; exact Hch | exact IH]. }
  assert (Hu : Forall (unit_chunk sz) rchunks).
  { eapply Forall_impl; [exact Hr|]. intros r Hcpr.
    rewrite <- (reverse_involutive r). apply is_cp_unit_chunk_reverse. exact Hcpr. }
  destruct (find_line_end_units sz rchunks w Hu) as (k & Hk & E & Hle).
  fold rchunks in E.
  assert (Hrev : reverse (concat chunks) = concat rchunks) by apply reverse_concat.
  rewrite Hrev.
  set (e := find_line_end sz (concat rchunks) w) in *.
  assert (Hb : drop (length (concat chunks) - e) (concat chunks)
               = concat (reverse (map reverse (take k rchunks)))).
  { rewrite <- reverse_concat, <- E, <- Hrev, take_reverse, reverse_involutive.
    reflexivity. }
  rewrite Hb.
  assert (Hcps : Forall (is_cp sz) (reverse (map reverse (take k rchunks)))).
  { apply Forall_reverse. pose proof (Forall_take _ k _ Hr) as Hk'. clear -Hk'.
    induction Hk' as [|r rs Hr0 _ IH]; cbn [map]; constructor; assumption. }
  split.
  - eexists. split; [exact Hcps | reflexivity].
  - rewrite utflen_well_formed by exact Hcps.
    rewrite length_reverse, length_map, length_take. lia.
Qed.

Lemma well_formed_nil sz : well_formed sz [].
Proof. exists []. split; [constructor | reflexivity]. Qed.

(** ** Where a truncating cell is cut *)

Lemma find_if_split p l :
  (Forall (fun u => p u = false) l /\ find_if p l = length l)
  \/ exists a x b, l = a ++ x :: b /\ Forall (fun u => p u = false) a
       /\ p x = true /\ find_if p l = length a.
Proof.
  induction l as [|u l IH]; [left; split; [constructor | reflexivity]|].
  cbn [find_if]. destruct (p u) eqn:Hu.
  - right. exists [], u, l. repeat split; [constructor | exact Hu].
  - destruct IH as [[Hall E]|(a & x & b & -> & Ha & Hx & E)].
    + left. split; [constructor; assumption | cbn [length]; lia].
    + right. exists (u :: a), x, b.
      repeat split; [constructor; assumption | exact Hx | cbn [length]; lia].
Qed.

(** What the reverse search for whitespace returns. *)
Lemma find_last_word_spec (l : list Z) (e : nat) :
  (e <= length l)%nat ->
  (Forall (fun u => isspace u = false) (take e l) /\ find_last_word l e = e)
  \/ exists a x b, take e l = a ++ x :: b /\ isspace x = true
       /\ Forall (fun u => isspace u = false) b
       /\ find_last_word l e = length a.
Proof.
  intros He. unfold find_last_word.
  assert (Hlen : length (take e l) = e) by (apply length_take_le; exact He).
  rewrite length_reverse, Hlen.
  destruct (find_if_split isspace (reverse (take e l)))
    as [[Hall E]|(a & x & b & Hrev & Ha & Hx & E)].
  - left. rewrite E, length_reverse, Hlen, Nat.eqb_refl.
    split; [rewrite Forall_reverse in Hall; exact Hall | reflexivity].
  - right. exists (reverse b), x, (reverse a).
    assert (Ht : take e l = reverse b ++ x :: reverse a).
    { rewrite <- (reverse_involutive (take e l)), Hrev, reverse_app, reverse_cons.
      rewrite <- app_assoc. reflexivity. }
    assert (Hl : e = (length b + S (length a))%nat).
    { rewrite <- Hlen, Ht, length_app. cbn [length]. rewrite !length_reverse. lia. }
    split; [exact Ht|]. split; [exact Hx|]. split; [apply Forall_reverse; exact Ha|].
    rewrite E, length_reverse.
    replace (length a =? e)%nat with false by (symmetry; apply Nat.eqb_neq; lia).
    lia.
Qed.

Lemma isspace_cases x :
  isspace x = true -> x = 32 \/ x = 9 \/ x = 10 \/ x = 11 \/ x = 12 \/ x = 13.
Proof.
  unfold isspace. intros H. apply orb_true_iff in H as [H|H].
  - apply Z.eqb_eq in H. lia.
  - apply andb_true_iff in H as [H1 H2]. apply Z.leb_le in H1, H2. lia.
Qed.

Lemma isspace_score sz x : isspace x = true -> utf_char_score sz x = 0.
Proof.
  intros H. apply isspace_cases in H.
  destruct sz; destruct H as [->|[->|[->|[->|[->| ->]]]]]; reflexivity.
Qed.

Lemma isspace_NL : isspace NL = true.
Proof. reflexivity. Qed.

Lemma cp_either_unit_chunk sz ch : cp_either sz ch -> unit_chunk sz ch.
Proof.
  intros [H|H]; [apply is_cp_unit_chunk; exact H|].
  rewrite <- (reverse_involutive ch). apply is_cp_unit_chunk_reverse. exact H.
Qed.

Lemma is_cp_single sz ch x :
  is_cp sz ch -> x ∈ ch -> utf_char_score sz x = 0 -> ch = [x].
Proof.
  destruct ch as [|lead conts]; [intros []|]. intros [Hlead Hconts] Hin Hx.
  apply elem_of_cons in Hin as [->|Hin].
  - rewrite Hx in Hlead. destruct conts; [reflexivity | cbn [length] in Hlead; lia].
  - rewrite List.Forall_forall in Hconts. apply list_elem_of_In in Hin.
    apply Hconts in Hin. lia.
Qed.

Lemma cp_either_single sz ch x :
  cp_either sz ch -> x ∈ ch -> utf_char_score sz x = 0 -> ch = [x].
Proof.
  intros [H|H] Hin Hx; [eapply is_cp_single; eassumption|].
  rewrite <- (reverse_involutive ch).
  rewrite (is_cp_single sz (reverse ch) x H); [reflexivity | | exact Hx].
  rewrite elem_of_reverse. exact Hin.
Qed.

(** A unit of score 0 in a sequence of characters is a character of its own. *)
Lemma space_chunk sz chunks : Forall (cp_either sz) chunks ->
  forall a x b, concat chunks = a ++ x :: b -> utf_char_score sz x = 0 ->
  exists j, a = concat (take j chunks) /\ chunks !! j = Some [x]
            /\ b = concat (drop (S j) chunks).
Proof.
  induction 1 as [|ch chunks Hch Hall IH]; intros a x b E Hx.
  - destruct a; discriminate E.
  - cbn [concat] in E. apply app_eq_inv in E as [(k & E1 & E2)|(k & E1 & E2)].
    + destruct k as [|x0 k].
      * rewrite app_nil_r in E1. subst ch. cbn [app] in E2.
        destruct (IH [] x b (eq_sym E2) Hx) as (j & Ea & Hj & Eb).
        exists (S j). cbn [take concat lookup drop]. rewrite <- Ea, app_nil_r.
        repeat split; assumption.
      * cbn [app] in E2. injection E2 as <- ->.
        assert (Hone : ch = [x]).
        { eapply cp_either_single; [exact Hch | | exact Hx].
          rewrite E1. apply elem_of_app. right. left. }
        rewrite Hone in E1. destruct a as [|u a].
        -- injection E1 as <-. exists O. rewrite Hone. repeat split; reflexivity.
        -- injection E1 as _ E1. destruct a; discriminate E1.
    + destruct (IH k x b E2 Hx) as (j & Ea & Hj & Eb).
      exists (S j). cbn [take concat lookup drop]. rewrite <- Ea.
      repeat split; assumption.
Qed.

(** Where the line search stops, and why. *)
Lemma find_line_end_stop sz chunks : forall w it,
  Forall (unit_chunk sz) chunks ->
  exists k, (k <= length chunks)%nat /\ (N.of_nat k <= w)%N
    /\ find_line_end_loop sz 0 w (concat chunks) it
       = (it + length (concat (take k chunks)))%nat
    /\ (NL ∉ concat (take k chunks))
    /\ (k = length chunks \/ N.of_nat k = w \/ chunks !! k = Some [NL]).
Proof.
  induction chunks as [|ch chunks IH]; intros w it Hall.
  - exists O. split; [cbn; lia|]. split; [lia|]. split; [cbn; lia|].
    split; [apply not_elem_of_nil | left; reflexivity].
  - apply Forall_cons in Hall as [[Hch Hnl] Hall].
    pose proof (closes_nonempty _ _ _ Hch) as Hne.
    destruct (N.eq_dec w 0%N) as [->|Hw].
    + exists O. split; [cbn; lia|]. split; [lia|]. split.
      * destruct ch as [|u ch']; [congruence|]. cbn. lia.
      * split; [apply not_elem_of_nil | right; left; reflexivity].
    + destruct (decide (NL ∈ ch)) as [Hin|Hnin].
      * exists O. split; [cbn; lia|]. split; [lia|]. split.
        -- rewrite (Hnl Hin). cbn [concat app find_line_end_loop take length].
           replace (w =? 0)%N with false by (symmetry; apply N.eqb_neq; lia).
           rewrite score_NL, Z.add_0_l, Z.eqb_refl. cbn. lia.
        -- split; [apply not_elem_of_nil|]. right. right. rewrite (Hnl Hin).
           reflexivity.
      * destruct (IH (N.pred w) (it + length ch)%nat Hall)
          as (k & Hk & Hkw & E & Hno & Hstop).
        exists (S k). split; [cbn [length]; lia|]. split; [lia|]. split.
        -- cbn [concat take]. rewrite find_line_end_loop_step by (assumption || lia).
           rewrite E, length_app. lia.
        -- split.
           ++ cbn [take concat]. intros Hin. apply elem_of_app in Hin as [Hin|Hin];
                [apply Hnin; exact Hin | apply Hno; exact Hin].
           ++ destruct Hstop as [->|[Hs|Hs]];
                [left; reflexivity | right; left; lia | right; right; exact Hs].
Qed.

Lemma utflen_take_chunks sz chunks k :
  Forall (unit_chunk sz) chunks -> (k <= length chunks)%nat ->
  utflen sz (concat (take k chunks)) = N.of_nat k.
Proof.
  intros Hall Hk. rewrite utflen_chunks.
  - rewrite length_take. f_equal. lia.
  - apply Forall_take. eapply Forall_impl; [exact Hall|]. intros ch [Hc _]. exact Hc.
Qed.

(** The end of the output of a cell at the start of its line: with word wrap
    and a whitespace within reach it is a whitespace before the line end. *)
Lemma find_output_end_chunks sz c chunks w :
  Forall (cp_either sz) chunks ->
  _written c = 0%N ->
  _wrap c = wrap.character
  \/ (exists j x, chunks !! j = Some [x] /\ isspace x = true /\ (N.of_nat j <= w)%N) ->
  exists k, (k <= length chunks)%nat /\ (N.of_nat k <= w)%N
    /\ take (find_output_end sz c (concat chunks) w) (concat chunks)
       = concat (take k chunks)
    /\ (NL ∉ concat (take k chunks)).
Proof.
  intros Hall Hwr Hbreak.
  assert (Hu : Forall (unit_chunk sz) chunks).
  { eapply Forall_impl; [exact Hall|]. intros ch. apply cp_either_unit_chunk. }
  destruct (find_line_end_stop sz chunks w O Hu) as (k0 & Hk0 & Hk0w & E & Hno & Hstop).
  cbn [Nat.add] in E. fold (find_line_end sz (concat chunks) w) in E.
  set (l := concat chunks) in *. set (e := find_line_end sz l w) in *.
  assert (Hl : l = concat (take k0 chunks) ++ concat (drop k0 chunks))
    by apply concat_take_drop.
  assert (Htake : take e l = concat (take k0 chunks)).
  { rewrite Hl at 1. rewrite E. apply take_app_length. }
  assert (Hplain : exists k, (k <= length chunks)%nat /\ (N.of_nat k <= w)%N
            /\ take e l = concat (take k chunks) /\ (NL ∉ concat (take k chunks))).
  { exists k0. repeat split; assumption. }
  unfold find_output_end. fold l. fold e.
  destruct (wrap.is_word (_wrap c)) eqn:Hword; [|exact Hplain].
  destruct (Nat.eqb_spec e (length l)) as [Hend|Hmid]; [exact Hplain|].
  cbn [negb]. rewrite Hwr. cbn [N.ltb N.compare andb].
  destruct Hbreak as [Hchar|(j & x & Hj & Hx & Hjw)];
    [rewrite Hchar in Hword; discriminate|].
  assert (Hk0lt : (k0 < length chunks)%nat).
  { destruct (decide (k0 = length chunks)) as [->|]; [|lia].
    exfalso. apply Hmid. rewrite E, take_ge by lia. reflexivity. }
  assert (Hle : (e < length l)%nat).
  { assert (e <= length l)%nat; [|lia].
    rewrite Hl, length_app, E. lia. }
  (* a whitespace among the units searched *)
  assert (Hsp : exists x1, isspace x1 = true /\ x1 ∈ take (S e) l).
  { assert (Hsplit : take (S e) l
                     = concat (take k0 chunks) ++ take 1 (concat (drop k0 chunks))).
    { rewrite Hl at 1. rewrite E.
      replace (S (length (concat (take k0 chunks))))
        with (length (concat (take k0 chunks)) + 1)%nat by lia.
      apply take_app_add. }
    assert (Hcase : (j < k0)%nat \/ exists x1, isspace x1 = true
                                            /\ chunks !! k0 = Some [x1]).
    { destruct Hstop as [->|[Hs|Hs]]; [lia | |].
      - destruct (decide (j = k0)) as [->|]; [right; exists x; split; assumption|].
        left. lia.
      - right. exists NL. split; [apply isspace_NL | exact Hs]. }
    destruct Hcase as [Hlt|(x1 & Hx1 & Hk)].
    - exists x. split; [exact Hx|]. rewrite Hsplit. apply elem_of_app. left.
      apply list_elem_of_In. apply in_concat. exists [x]. split; [|left; reflexivity].
      apply list_elem_of_In. apply (list_elem_of_lookup_2 _ j).
      rewrite lookup_take_lt by exact Hlt. exact Hj.
    - exists x1. split; [exact Hx1|]. rewrite Hsplit. apply elem_of_app. right.
      rewrite (drop_S _ _ _ Hk). cbn. left. }
  destruct Hsp as (x1 & Hx1 & Hin1).
  destruct (find_last_word_spec l (S e) ltac:(lia))
    as [[Hnone _]|(a & x' & b' & Ht & Hx' & _ & Efl)].
  { exfalso. rewrite Forall_forall in Hnone. specialize (Hnone _ Hin1). congruence. }
  rewrite Efl.
  assert (Hal : l = a ++ x' :: (b' ++ drop (S e) l)).
  { rewrite <- (take_drop (S e) l) at 1. rewrite Ht, <- app_assoc. reflexivity. }
  destruct (space_chunk sz chunks Hall a x' _ Hal (isspace_score sz x' Hx'))
    as (j' & Ea & Hj' & _).
  assert (Hj'lt : (j' < length chunks)%nat) by (eapply lookup_lt_Some; exact Hj').
  assert (Hlena : (length a <= e)%nat).
  { assert (Hlt : length (take (S e) l) = S e) by (apply length_take_le; lia).
    rewrite Ht, length_app in Hlt. cbn [length] in Hlt. lia. }
  assert (Hpre : concat (take k0 chunks) = a ++ take (e - length a) (x' :: b' ++ drop (S e) l)).
  { rewrite <- Htake. rewrite Hal at 1. apply take_app_ge. exact Hlena. }
  exists j'. split; [lia|]. split; [|split].
  - pose proof (utflen_take_chunks sz chunks k0 Hu Hk0) as U0.
    rewrite Hpre, Ea, utflen_chunks_app in U0.
    2:{ apply Forall_take. eapply Forall_impl; [exact Hu|]. intros ch [Hc _]. exact Hc. }
    rewrite length_take in U0. lia.
  - rewrite Hal at 1. rewrite take_app_length. exact Ea.
  - rewrite <- Ea. intros Hin. apply Hno. rewrite Hpre. apply elem_of_app. left.
    exact Hin.
Qed.

(** ** A full line of a truncating cell *)

Lemma walk_back_fits sz buf w sum e ow :
  (ow <= w)%N -> walk_back sz buf w sum e ow = Ok (e, ow).
Proof.
  intros H. destruct e; cbn [walk_back];
    replace (w <? ow)%N with false by (symmetry; apply N.ltb_ge; exact H);
    reflexivity.
Qed.

Lemma with_buf_id c : with_buf (_buf c) c = c.
Proof. destruct c; reflexivity. Qed.

Lemma size_sub_le a b : (b <= a)%N -> size_sub a b = (a - b)%N.
Proof.
  intros H. unfold size_sub.
  replace (b <=? a)%N with true by (symmetry; apply N.leb_le; exact H).
  reflexivity.
Qed.

Lemma is_cp_cp_either sz chunks :
  Forall (is_cp sz) chunks -> Forall (cp_either sz) chunks.
Proof. intros H. eapply Forall_impl; [exact H|]. intros ch Hch. left. exact Hch. Qed.

Lemma reversed_chunks sz chunks :
  Forall (is_cp sz) chunks ->
  Forall (fun r => is_cp sz (reverse r)) (reverse (map reverse chunks)).
Proof.
  intros Hcp. apply Forall_reverse. induction Hcp as [|ch chunks Hch _ IH].
  - constructor.
  - cbn [map]. constructor; [rewrite reverse_involutive; exact Hch | exact IH].
Qed.

Lemma break_right sz chunks n :
  Forall (is_cp sz) chunks -> break_within sz true n (concat chunks) ->
  exists j x, chunks !! j = Some [x] /\ isspace x = true /\ (N.of_nat j <= n)%N.
Proof.
  intros Hcp (a & x & b & E & Hx & Hlen).
  destruct (space_chunk sz chunks (is_cp_cp_either sz chunks Hcp) a x b E
              (isspace_score sz x Hx)) as (j & Ea & Hj & _).
  exists j, x. split; [exact Hj|]. split; [exact Hx|].
  rewrite Ea, utflen_well_formed in Hlen by (apply Forall_take; exact Hcp).
  apply lookup_lt_Some in Hj. rewrite length_take in Hlen. lia.
Qed.

Lemma break_left sz chunks n :
  Forall (is_cp sz) chunks -> break_within sz false n (concat chunks) ->
  exists j x, reverse (map reverse chunks) !! j = Some [x] /\ isspace x = true
              /\ (N.of_nat j <= n)%N.
Proof.
  intros Hcp (a & x & b & E & Hx & Hlen).
  destruct (space_chunk sz chunks (is_cp_cp_either sz chunks Hcp) a x b E
              (isspace_score sz x Hx)) as (j & _ & Hj & Eb).
  pose proof (lookup_lt_Some _ _ _ Hj) as Hjlt.
  exists (length chunks - S j)%nat, x. split; [|split; [exact Hx|]].
  - rewrite reverse_lookup by (rewrite length_map; lia).
    rewrite length_map.
    replace (length chunks - S (length chunks - S j))%nat with j by lia.
    change (map reverse chunks) with (reverse <$> chunks).
    rewrite list_lookup_fmap, Hj. reflexivity.
  - rewrite Eb, utflen_well_formed in Hlen by (apply Forall_drop; exact Hcp).
    rewrite length_drop in Hlen. lia.
Qed.

Lemma not_elem_of_fill n : NL ∉ draw_fill n.
Proof.
  unfold draw_fill. intros H. apply elem_of_replicate in H as [H _]. discriminate H.
Qed.

(** What [truncate_buf] leaves in the buffer of a truncating cell: whole
    characters, no more than the width, and no newline. *)
Lemma truncate_buf_fits sz c :
  _truncate c <> truncate.none ->
  (0 < _width c)%N ->
  (utflen sz (_ellipsis c) < _width c)%N ->
  _written c = 0%N ->
  well_formed sz (_buf c) ->
  well_formed sz (_ellipsis c) ->
  _wrap c = wrap.character \/ (utflen sz (_buf c) <= _width c)%N
  \/ break_within sz (truncate.is_right (_truncate c))
       (_width c - utflen sz (_ellipsis c)) (_buf c) ->
  (NL ∉ _buf c) \/ (_width c < utflen sz (_buf c))%N ->
  (NL ∉ _ellipsis c) ->
  exists b, truncate_buf sz c = (with_buf b c, length b)
    /\ well_formed sz b /\ (utflen sz b <= _width c)%N /\ (NL ∉ b).
Proof.
  intros Htr Hw Hell Hwr Hbuf Hewf Hwrap Hnl Hnle. unfold truncate_buf.
  replace (_width c =? 0)%N with false by (symmetry; apply N.eqb_neq; lia).
  replace (truncate.is_none (_truncate c)) with false
    by (destruct (_truncate c); [congruence | reflexivity | reflexivity]).
  destruct (N.ltb_spec (_width c) (utflen sz (_buf c))) as [Hlong|Hshort].
  - rewrite size_sub_le by lia.
    set (w' := (_width c - utflen sz (_ellipsis c))%N) in *.
    destruct Hbuf as (chunks & Hcp & Ebuf).
    eexists. split; [reflexivity|].
    destruct (truncate.is_right (_truncate c)) eqn:Hdir.
    + assert (Hbr : _wrap c = wrap.character
                    \/ exists j x, chunks !! j = Some [x] /\ isspace x = true
                                   /\ (N.of_nat j <= w')%N).
      { destruct Hwrap as [Hc|[Hf|Hb]]; [left; exact Hc | lia |].
        right. rewrite Ebuf in Hb. apply (break_right sz chunks w' Hcp Hb). }
      destruct (find_output_end_chunks sz c chunks w'
                  (is_cp_cp_either sz chunks Hcp) Hwr Hbr)
        as (k & Hk & Hkw & Etake & Hno).
      rewrite Ebuf, Etake.
      assert (Hpre : well_formed sz (concat (take k chunks))).
      { eexists. split; [apply Forall_take; exact Hcp | reflexivity]. }
      assert (Hlen : utflen sz (concat (take k chunks)) = N.of_nat k).
      { rewrite utflen_well_formed by (apply Forall_take; exact Hcp).
        rewrite length_take. f_equal. lia. }
      destruct (concat (take k chunks)) as [|u b0] eqn:E.
      * split; [apply well_formed_nil|].
        split; [rewrite utflen_as_loop; cbn; lia | apply not_elem_of_nil].
      * split; [apply well_formed_app; assumption|].
        split; [rewrite utflen_app by assumption; lia|].
        intros Hin. apply elem_of_app in Hin as [Hin|Hin]; [apply Hno | apply Hnle];
          exact Hin.
    + set (rchunks := reverse (map reverse chunks)).
      pose proof (reversed_chunks sz chunks Hcp) as Hr. fold rchunks in Hr.
      assert (Hce : Forall (cp_either sz) rchunks).
      { eapply Forall_impl; [exact Hr|]. intros r Hrr. right. exact Hrr. }
      assert (Hbr : _wrap c = wrap.character
                    \/ exists j x, rchunks !! j = Some [x] /\ isspace x = true
                                   /\ (N.of_nat j <= w')%N).
      { destruct Hwrap as [Hc|[Hf|Hb]]; [left; exact Hc | lia |].
        right. rewrite Ebuf in Hb. apply (break_left sz chunks w' Hcp Hb). }
      destruct (find_output_end_chunks sz c rchunks w' Hce Hwr Hbr)
        as (k & Hk & Hkw & Etake & Hno).
      assert (Hrev : reverse (_buf c) = concat rchunks)
        by (rewrite Ebuf; apply reverse_concat).
      rewrite Hrev.
      set (e := find_output_end sz c (concat rchunks) w') in *.
      assert (Hb : drop (length (_buf c) - e) (_buf c)
                   = concat (reverse (map reverse (take k rchunks)))).
      { rewrite <- reverse_concat, <- Etake, <- Hrev, take_reverse, reverse_involutive.
        reflexivity. }
      rewrite Hb.
      assert (Hcps : Forall (is_cp sz) (reverse (map reverse (take k rchunks)))).
      { apply Forall_reverse. pose proof (Forall_take _ k _ Hr) as Hk'. clear -Hk'.
        induction Hk' as [|r rs Hr0 _ IH]; cbn [map]; constructor; assumption. }
      assert (Hpre : well_formed sz (concat (reverse (map reverse (take k rchunks))))).
      { eexists. split; [exact Hcps | reflexivity]. }
      assert (Hlen : utflen sz (concat (reverse (map reverse (take k rchunks))))
                     = N.of_nat k).
      { rewrite utflen_well_formed by exact Hcps.
        rewrite length_reverse, length_map, length_take. f_equal. lia. }
      assert (Hno' : NL ∉ concat (reverse (map reverse (take k rchunks)))).
      { rewrite <- reverse_concat. rewrite elem_of_reverse. exact Hno. }
      destruct (concat (reverse (map reverse (take k rchunks)))) as [|u b0] eqn:E.
      * split; [apply well_formed_nil|].
        split; [rewrite utflen_as_loop; cbn; lia | apply not_elem_of_nil].
      * split; [apply well_formed_app; assumption|].
        split; [rewrite utflen_app by assumption; lia|].
        intros Hin. apply elem_of_app in Hin as [Hin|Hin]; [apply Hnle | apply Hno'];
          exact Hin.
  - exists (_buf c). rewrite with_buf_id.
    split; [reflexivity|]. split; [exact Hbuf|]. split; [exact Hshort|].
    destruct Hnl as [Hnl|Hnl]; [exact Hnl | lia].
Qed.

Lemma fills_add_up (j : justify.t) (total : N) :
  exists lfill rfill,
    match j with
    | justify.left => (0%N, total)
    | justify.right => (total, 0%N)
    | justify.center => ((total / 2)%N, size_sub total (total / 2))
    end = (lfill, rfill)
    /\ (lfill + rfill = total)%N.
Proof.
  destruct j; do 2 eexists; (split; [reflexivity|]); try lia.
  assert (total / 2 <= total)%N by (apply N.Div0.div_le_upper_bound; lia).
  rewrite size_sub_le by assumption. lia.
Qed.

Lemma write_line_full_fits sz c c1 :
  truncate_buf sz c = (c1, length (_buf c1)) ->
  _written c1 = 0%N -> _cell_start c1 = true ->
  (0 < _width c1)%N -> (utflen sz (_buf c1) <= _width c1)%N ->
  well_formed sz (_buf c1) ->
  exists lfill rfill,
    write_line sz c true
    = Ok (with_row_state [] 0 true c1,
          fst (_pad c1) ++ (draw_fill lfill ++ _buf c1 ++ draw_fill rfill)
          ++ snd (_pad c1), true)
    /\ utflen sz (draw_fill lfill ++ _buf c1 ++ draw_fill rfill) = _width c1.
Proof.
  intros Htb Hwr Hst Hw Hfit Hwf. unfold write_line. cbn [orb].
  rewrite Htb, take_ge, Hwr, N.add_0_r by lia. cbn [negb andb].
  replace (0 <? _width c1)%N with true by (symmetry; apply N.ltb_lt; exact Hw).
  rewrite walk_back_fits by exact Hfit.
  cbn [mbind result_bind orb].
  destruct (fills_add_up (_justify c1) (size_sub (_width c1) (utflen sz (_buf c1))))
    as (lfill & rfill & -> & Hsum).
  rewrite size_sub_le in Hsum by exact Hfit.
  cbn [mbind result_bind orb]. destruct (_pad c1) as [lpad rpad].
  rewrite Hst, drop_all, take_ge by lia. cbn [drop_space drop_spaces fst snd].
  exists lfill, rfill. split.
  - destruct (wrap.is_word (_wrap c1)); cbn [drop_spaces];
      rewrite <- !app_assoc; reflexivity.
  - rewrite utflen_app by apply well_formed_fill.
    rewrite utflen_app by exact Hwf. rewrite !utflen_fill. lia.
Qed.

(** ** Links between streambufs are stable *)

Lemma overflow_real_sb sz ch t t' :
  overflow sz ch t = Ok t' -> _real_sb t' = _real_sb t.
Proof.
  unfold overflow. destruct (negb _); [|intros [= <-]; reflexivity].
  unfold cell_at. destruct (_cells t !! _column t); [|discriminate].
  intros [= <-]. reflexivity.
Qed.

Lemma sputc_all_real_sb sz s : forall t t',
  sputc_all sz s t = Ok t' -> _real_sb t' = _real_sb t.
Proof.
  induction s as [|c s IH]; intros t t' H; cbn [sputc_all] in H.
  - injection H as <-. reflexivity.
  - apply bind_Ok in H as (t1 & H1 & H2).
    rewrite (IH _ _ H2). eapply overflow_real_sb. exact H1.
Qed.

Lemma xsputn_real_sb sz s : forall t t',
  xsputn sz s t = Ok t' -> _real_sb t' = _real_sb t.
Proof.
  induction s as [|c s IH]; intros t t' H; cbn [xsputn] in H.
  - injection H as <-. reflexivity.
  - apply bind_Ok in H as (t1 & H1 & H2).
    apply overflow_real_sb in H1. rewrite <- H1.
    destruct (_ =? _); [injection H2 as <-; reflexivity | apply IH; exact H2].
Qed.

Lemma on_current_cell_real_sb f t t' :
  on_current_cell f t = Ok t' -> _real_sb t' = _real_sb t.
Proof.
  unfold on_current_cell. intros H.
  apply bind_Ok in H as (c & _ & H). apply bind_Ok in H as (c' & _ & H).
  injection H as <-. reflexivity.
Qed.

Lemma flush_step_real_sb sz debug all_cells t r :
  flush_step sz debug all_cells t = Ok r -> _real_sb (fst r) = _real_sb t.
Proof.
  unfold flush_step. intros H.
  apply bind_Ok in H as (u & _ & H). apply bind_Ok in H as (c & _ & H).
  apply bind_Ok in H as ([[c' out] full] & _ & H).
  destruct full; injection H as <-; reflexivity.
Qed.

Lemma flush_loop_real_sb sz debug all_cells fuel : forall t r,
  flush_loop sz debug fuel all_cells t = Ok r -> _real_sb (fst r) = _real_sb t.
Proof.
  induction fuel as [|fuel IH]; intros t r H; cbn [flush_loop] in H;
    destruct (more all_cells t); try discriminate;
    try (injection H as <-; reflexivity).
  apply bind_Ok in H as (r1 & H1 & H). apply bind_Ok in H as (r2 & H2 & H).
  injection H as <-. cbn [fst].
  rewrite (IH _ _ H2). eapply flush_step_real_sb. exact H1.
Qed.

Lemma flush_real_sb sz debug fuel all_cells t r :
  flush sz debug fuel all_cells t = Ok r -> _real_sb (fst r) = _real_sb t.
Proof.
  unfold flush. intros H. apply bind_Ok in H as (u & _ & H).
  eapply flush_loop_real_sb. exact H.
Qed.

Lemma next_column_real_sb sz debug fuel t r :
  next_column sz debug fuel t = Ok r -> _real_sb (fst r) = _real_sb t.
Proof.
  unfold next_column. intros H.
  apply bind_Ok in H as (u & _ & H). apply bind_Ok in H as (r1 & H1 & H).
  apply bind_Ok in H as (u' & _ & H). injection H as <-.
  destruct (_ =? _)%nat.
  - apply flush_real_sb in H1. exact H1.
  - injection H1 as <-. reflexivity.
Qed.

Lemma draw_line_real_sb sz debug fuel rw t r :
  draw_line sz debug fuel rw t = Ok r -> _real_sb (fst r) = _real_sb t.
Proof.
  unfold draw_line. intros H.
  apply bind_Ok in H as (u & _ & H). apply bind_Ok in H as ([t1 out1] & H1 & H).
  apply bind_Ok in H as (u' & _ & H).
  assert (E : _real_sb t1 = _real_sb t).
  { destruct (negb _).
    - apply flush_real_sb in H1. exact H1.
    - injection H1 as <- <-. reflexivity. }
  destruct (_cells t1); [discriminate|].
  apply bind_Ok in H as (o & _ & H). apply bind_Ok in H as (os & _ & H).
  injection H as <-. exact E.
Qed.

Lemma quiet_real_sb f t r :
  (forall t', f t = Ok t' -> _real_sb t' = _real_sb t) ->
  quiet f t = Ok r -> _real_sb (fst r) = _real_sb t.
Proof.
  intros Hf H. unfold quiet in H. apply bind_Ok in H as (t' & H1 & H).
  injection H as <-. apply Hf. exact H1.
Qed.

Lemma links_update (h : gmap nat streambuf) p o o' :
  h !! p = Some o -> link_of o' = link_of o -> links (<[p := o']> h) = links h.
Proof.
  intros Hp Hl. unfold links. rewrite fmap_insert, Hl.
  apply insert_id. rewrite lookup_fmap, Hp. reflexivity.
Qed.

Lemma sputn_links sz p s (h h' : gmap nat streambuf) :
  sputn sz p s h = Ok h' -> links h' = links h.
Proof.
  unfold sputn. destruct (h !! p) as [[content|t]|] eqn:Hp; [| |discriminate].
  - intros [= <-]. eapply links_update; [exact Hp | reflexivity].
  - intros H. apply bind_Ok in H as (t' & Ht & H). injection H as <-.
    eapply links_update; [exact Hp|]. cbn. f_equal.
    eapply xsputn_real_sb. exact Ht.
Qed.

Lemma forward_links sz p s (h h' : gmap nat streambuf) :
  forward sz p s h = Ok h' -> links h' = links h.
Proof.
  unfold forward. destruct (h !! p) as [[content|t]|] eqn:Hp; [| |discriminate].
  - intros [= <-]. eapply links_update; [exact Hp | reflexivity].
  - intros H. apply bind_Ok in H as (t' & Ht & H). injection H as <-.
    eapply links_update; [exact Hp|]. cbn. f_equal.
    eapply sputc_all_real_sb. exact Ht.
Qed.

Lemma on_tabulator_links sz f p (h h' : gmap nat streambuf) :
  (forall t r, f t = Ok r -> _real_sb (fst r) = _real_sb t) ->
  on_tabulator sz f p h = Ok h' -> links h' = links h.
Proof.
  intros Hf. unfold on_tabulator.
  destruct (h !! p) as [[content|t]|] eqn:Hp; try discriminate.
  intros H. apply bind_Ok in H as (r & Hr & H).
  apply forward_links in H. rewrite H.
  eapply links_update; [exact Hp|]. cbn. f_equal. apply Hf. exact Hr.
Qed.

Lemma pubsync_links sz debug fuel : forall p (h h' : gmap nat streambuf),
  pubsync sz debug fuel p h = Ok h' -> links h' = links h.
Proof.
  induction fuel as [|fuel IH]; intros p h h' H; cbn [pubsync] in H;
    destruct (h !! p) as [[content|t]|]; try discriminate;
    try (injection H as <-; reflexivity).
  apply bind_Ok in H as (h1 & H1 & H). apply IH in H. rewrite H.
  eapply on_tabulator_links; [|exact H1].
  intros t0 r. apply flush_real_sb.
Qed.

Lemma manipulate_links sz f w w' :
  (forall t r, f t = Ok r -> _real_sb (fst r) = _real_sb t) ->
  manipulate sz f w = Ok w' ->
  links (sbufs w') = links (sbufs w) /\ os_rdbuf w' = os_rdbuf w.
Proof.
  intros Hf. unfold manipulate.
  destruct (sbufs w !! os_rdbuf w) as [[content|t]|]; try discriminate.
  - intros [= <-]. split; reflexivity.
  - intros H. apply bind_Ok in H as (h & Hh & H). injection H as <-.
    split; [|reflexivity]. eapply on_tabulator_links; eassumption.
Qed.

Lemma insert_op_links sz debug fuel x w w' :
  insert_op sz debug fuel x w = Ok w' ->
  links (sbufs w') = links (sbufs w) /\ os_rdbuf w' = os_rdbuf w.
Proof.
  destruct x; cbn [insert_op]; intros H;
    try (apply bind_Ok in H as (h & Hh & H); injection H as <-;
         split; [|reflexivity]);
    try (eapply sputn_links; exact Hh);
    try (eapply pubsync_links; exact Hh);
    try (eapply manipulate_links; [|exact H]; intros t r Hr).
  - eapply next_column_real_sb; exact Hr.
  - eapply draw_line_real_sb; exact Hr.
  - eapply draw_line_real_sb; exact Hr.
  - eapply draw_line_real_sb; exact Hr.
  - eapply quiet_real_sb; [|exact Hr]. intros t'. apply on_current_cell_real_sb.
  - eapply quiet_real_sb; [|exact Hr]. intros t'. apply on_current_cell_real_sb.
  - eapply quiet_real_sb; [|exact Hr]. intros t'. apply on_current_cell_real_sb.
  - eapply quiet_real_sb; [|exact Hr]. intros t'. apply on_current_cell_real_sb.
  - eapply quiet_real_sb; [|exact Hr]. intros t'. apply on_current_cell_real_sb.
  - eapply quiet_real_sb; [|exact Hr]. intros t' [= <-]. reflexivity.
  - eapply quiet_real_sb; [|exact Hr]. intros t' [= <-]. reflexivity.
Qed.

Lemma insert_all_links sz debug fuel xs : forall w w',
  insert_all sz debug fuel xs w = Ok w' ->
  links (sbufs w') = links (sbufs w) /\ os_rdbuf w' = os_rdbuf w.
Proof.
  induction xs as [|x xs IH]; intros w w' H; cbn [insert_all] in H.
  - injection H as <-. split; reflexivity.
  - apply bind_Ok in H as (w1 & H1 & H).
    apply IH in H as [-> ->]. eapply insert_op_links. exact H1.
Qed.

(** The destructor of a tabulator whose link is [r] hands [r] back. *)
Lemma dtor_restores_link p r w :
  links (sbufs w) !! p = Some (Some r) ->
  exists w', tabulator_dtor p w = Ok w' /\ os_rdbuf w' = r.
Proof.
  unfold links, tabulator_dtor. rewrite lookup_fmap.
  destruct (sbufs w !! p) as [[content|t]|]; cbn; try discriminate.
  intros [= <-]. eexists. split; reflexivity.
Qed.


(** ** Fuel *)

Lemma fuel_mono_const {A} (r : result A) : fuel_mono (fun _ => r).
Proof. intros n m _ _. reflexivity. Qed.

Lemma fuel_mono_bind {A B} (f : nat -> result A) (g : A -> nat -> result B) :
  fuel_mono f -> (forall a, fuel_mono (g a)) ->
  fuel_mono (fun n => f n ≫= fun a => g a n).
Proof.
  intros Hf Hg n m Hle Hs. cbv beta in *.
  destruct (f n) as [a|e] eqn:E.
  - rewrite (Hf n m Hle), E by (rewrite E; discriminate).
    cbn in *. apply Hg; assumption.
  - rewrite (Hf n m Hle), E
      by (rewrite E; intros [= ->]; apply Hs; reflexivity).
    reflexivity.
Qed.

Lemma fuel_mono_if {A} (b : bool) (f g : nat -> result A) :
  fuel_mono f -> fuel_mono g -> fuel_mono (fun n => if b then f n else g n).
Proof. destruct b; intros; assumption. Qed.

Lemma flush_loop_fuel_mono sz debug all_cells t :
  fuel_mono (fun n => flush_loop sz debug n all_cells t).
Proof.
  intros n. revert t. induction n as [|n IH]; intros t m Hle Hs.
  - destruct m; cbn [flush_loop] in *; destruct (more all_cells t);
      solve [reflexivity | exfalso; apply Hs; reflexivity].
  - destruct m as [|m]; [lia|]. cbn [flush_loop] in *.
    destruct (more all_cells t); [|reflexivity].
    destruct (flush_step sz debug all_cells t) as [r|e]; [|reflexivity].
    cbn [mbind result_bind] in *.
    rewrite (IH (fst r) m) by
      (lia || (intros E; apply Hs; rewrite E; reflexivity)).
    reflexivity.
Qed.

Lemma flush_fuel_mono sz debug all_cells t :
  fuel_mono (fun n => flush sz debug n all_cells t).
Proof.
  unfold flush. apply fuel_mono_bind; [apply fuel_mono_const|].
  intros _. apply flush_loop_fuel_mono.
Qed.

Lemma next_column_fuel_mono sz debug t :
  fuel_mono (fun n => next_column sz debug n t).
Proof.
  unfold next_column. apply fuel_mono_bind; [apply fuel_mono_const|]. intros _.
  apply (fuel_mono_bind
           (fun n => if (S (_column t) =? length (_cells t))%nat
                     then flush sz debug n true (with_column O t)
                     else Ok (with_column (S (_column t)) t, []))).
  - apply fuel_mono_if; [apply flush_fuel_mono | apply fuel_mono_const].
  - intros r. apply fuel_mono_const.
Qed.

Lemma draw_segment_loop_fuel_mono sz line : forall i score width,
  fuel_mono (fun n => draw_segment_loop sz n line i score width).
Proof.
  intros i score width n. revert i score width.
  induction n as [|n IH]; intros i score width m Hle Hs.
  - destruct m; cbn [draw_segment_loop] in *; destruct (0 <? width)%N;
      solve [reflexivity | exfalso; apply Hs; reflexivity].
  - destruct m as [|m]; [lia|]. cbn [draw_segment_loop] in *.
    destruct (0 <? width)%N; [|reflexivity].
    destruct (line !! i) as [ch|]; [|reflexivity].
    rewrite (IH _ _ _ m) by
      (lia || (intros E; apply Hs; rewrite E; reflexivity)).
    reflexivity.
Qed.

Lemma draw_segment_fuel_mono sz c left line :
  fuel_mono (fun n => draw_segment sz n c left line).
Proof.
  unfold draw_segment. destruct line; [apply fuel_mono_const|].
  apply (fuel_mono_bind
           (fun n => draw_segment_loop sz n (z :: line) O 0 (get_cell_width sz c))).
  - apply draw_segment_loop_fuel_mono.
  - intros out. apply fuel_mono_const.
Qed.

Lemma draw_segments_fuel_mono sz cs tee line :
  fuel_mono (fun n => draw_segments sz n cs tee line).
Proof.
  induction cs as [|c cs IH]; cbn [draw_segments]; [apply fuel_mono_const|].
  apply (fuel_mono_bind (fun n => draw_segment sz n c tee line));
    [apply draw_segment_fuel_mono|]. intros o.
  apply (fuel_mono_bind (fun n => draw_segments sz n cs tee line));
    [exact IH|]. intros os. apply fuel_mono_const.
Qed.

Lemma draw_line_fuel_mono sz debug rw t :
  fuel_mono (fun n => draw_line sz debug n rw t).
Proof.
  unfold draw_line. apply fuel_mono_bind; [apply fuel_mono_const|]. intros _.
  apply (fuel_mono_bind
           (fun n => if negb (_column t =? O)%nat
                     then flush sz debug n true (with_column O t)
                     else Ok (t, []))).
  - apply fuel_mono_if; [apply flush_fuel_mono | apply fuel_mono_const].
  - intros [t1 out1]. apply fuel_mono_bind; [apply fuel_mono_const|]. intros _.
    destruct (_cells t1) as [|c cs]; [apply fuel_mono_const|].
    apply (fuel_mono_bind (fun n => draw_segment sz n c (_left rw) (_line rw)));
      [apply draw_segment_fuel_mono|]. intros o.
    apply (fuel_mono_bind (fun n => draw_segments sz n cs (_center rw) (_line rw)));
      [apply draw_segments_fuel_mono|]. intros os. apply fuel_mono_const.
Qed.

Lemma on_tabulator_fuel_mono sz f p h :
  (forall t, fuel_mono (fun n => f n t)) ->
  fuel_mono (fun n => on_tabulator sz (f n) p h).
Proof.
  intros Hf. unfold on_tabulator.
  destruct (h !! p) as [[content|t]|]; try apply fuel_mono_const.
  apply (fuel_mono_bind (fun n => f n t)); [apply Hf|].
  intros r. apply fuel_mono_const.
Qed.

Lemma manipulate_fuel_mono sz f w :
  (forall t, fuel_mono (fun n => f n t)) ->
  fuel_mono (fun n => manipulate sz (f n) w).
Proof.
  intros Hf. unfold manipulate.
  destruct (sbufs w !! os_rdbuf w) as [[content|t]|]; try apply fuel_mono_const.
  apply (fuel_mono_bind (fun n => on_tabulator sz (f n) (os_rdbuf w) (sbufs w)));
    [apply on_tabulator_fuel_mono; exact Hf|].
  intros h. apply fuel_mono_const.
Qed.

Lemma pubsync_fuel_mono sz debug : forall p h,
  fuel_mono (fun n => pubsync sz debug n p h).
Proof.
  intros p h n. revert p h. induction n as [|n IH]; intros p h m Hle Hs.
  - destruct m; cbn [pubsync] in *; destruct (h !! p) as [[content|t]|];
      solve [reflexivity | exfalso; apply Hs; reflexivity].
  - destruct m as [|m]; [lia|]. cbn [pubsync] in *.
    destruct (h !! p) as [[content|t]|]; try reflexivity.
    assert (Hot : fuel_mono (fun k => on_tabulator sz (sync sz debug k) p h)).
    { apply on_tabulator_fuel_mono. intros t0. apply flush_fuel_mono. }
    destruct (on_tabulator sz (sync sz debug (S n)) p h) as [h1|e] eqn:E.
    + rewrite (Hot (S n) (S m)), E by (lia || (rewrite E; discriminate)).
      cbn [mbind result_bind] in *. apply IH; [lia | exact Hs].
    + rewrite (Hot (S n) (S m)), E
        by (lia || (rewrite E; intros [= ->]; apply Hs; reflexivity)).
      reflexivity.
Qed.

Lemma insert_op_fuel_mono sz debug x w :
  fuel_mono (fun n => insert_op sz debug n x w).
Proof.
  destruct x; cbn [insert_op]; try apply fuel_mono_const;
    try (apply manipulate_fuel_mono; intros t).
  - apply (fuel_mono_bind (fun n => pubsync sz debug n (os_rdbuf w) (sbufs w)));
      [apply pubsync_fuel_mono|]. intros h. apply fuel_mono_const.
  - apply next_column_fuel_mono.
  - apply draw_line_fuel_mono.
  - apply draw_line_fuel_mono.
  - apply draw_line_fuel_mono.
Qed.

Lemma insert_all_fuel_mono sz debug xs : forall w,
  fuel_mono (fun n => insert_all sz debug n xs w).
Proof.
  induction xs as [|x xs IH]; intros w; cbn [insert_all];
    [apply fuel_mono_const|].
  apply (fuel_mono_bind (fun n => insert_op sz debug n x w));
    [apply insert_op_fuel_mono | exact IH].
Qed.

Lemma scenario_fuel_mono debug widths xs :
  fuel_mono (fun n => scenario debug n widths xs).
Proof.
  unfold scenario. apply fuel_mono_bind; [apply fuel_mono_const|]. intros cells.
  apply (fuel_mono_bind
           (fun n => insert_all U8 debug n xs
                       (tabulator_ctor_rvalue U8 1 cells ostringstream)));
    [apply insert_all_fuel_mono|]. intros w. apply fuel_mono_const.
Qed.

Lemma scenario_lvalue_fuel_mono debug b xs :
  fuel_mono (fun n => scenario_lvalue debug n b xs).
Proof.
  unfold scenario_lvalue.
  apply (fuel_mono_bind
           (fun n => insert_all U8 debug n xs
                       (tabulator_ctor_lvalue U8 1 [default_cell 10] b ostringstream)));
    [apply insert_all_fuel_mono|]. intros w. apply fuel_mono_const.
Qed.

(** A scenario that settles with [n] units of fuel gives the same with more. *)
Lemma scenario_from debug n k widths xs r :
  scenario debug n widths xs = r -> settled r ->
  scenario debug (n + k) widths xs = r.
Proof.
  intros E Hs. rewrite <- E.
  apply (scenario_fuel_mono debug widths xs n (n + k)%nat); [lia|].
  rewrite E. exact Hs.
Qed.

(** ** The expectations of the test suite hold in the model *)

Lemma score8_signed u : 0 <= u < 256 -> utf_char_score U8 (u - 256) = utf_char_score U8 u.
Proof.
  intros H.
  assert (E : (fun y => utf_char_score U8 (y - 256) =? utf_char_score U8 y) u = true).
  { refine (all_bits_spec 8
              (fun y => utf_char_score U8 (y - 256) =? utf_char_score U8 y) 0 _ u _);
      [vm_compute; reflexivity | cbn; lia]. }
  cbv beta in E. apply Z.eqb_eq in E. exact E.
Qed.

Lemma test_wrapping_ascii_character :
  scenario true 4 [10%N] [m_set_wrap wrap.character; write (chars "abcdef ghijkl"); endc]
  = Ok (Some (chars "| abcdef ghi |" ++ [NL] ++ chars "| jkl        |" ++ [NL])).
Proof. vm_compute. reflexivity. Qed.

Lemma test_wrapping_utf8_word :
  scenario true 4 [10%N] [m_set_wrap wrap.word; write (chars "ăƀçđêƒ ǧĥïĵǩĺ"); endc]
  = Ok (Some (chars "| ăƀçđêƒ     |" ++ [NL] ++ chars "| ǧĥïĵǩĺ     |" ++ [NL])).
Proof. vm_compute. reflexivity. Qed.

Lemma test_wrapping_at_whitespace_word_3 :
  scenario true 4 [10%N] [m_set_wrap wrap.word; write (chars "abcdefghijk lmno pqrstuv"); endc]
  = Ok (Some (chars "| abcdefghij |" ++ [NL] ++ chars "| k lmno     |" ++ [NL]
              ++ chars "| pqrstuv    |" ++ [NL])).
Proof. vm_compute. reflexivity. Qed.

Lemma test_truncate_left_one_line_character :
  scenario true 4 [10%N] [m_set_truncate truncate.left; write (chars "abcdef ghijkl"); endc]
  = Ok (Some (chars "| …ef ghijkl |" ++ [NL])).
Proof. vm_compute. reflexivity. Qed.

Lemma test_truncate_right_one_line_word :
  scenario true 4 [10%N]
    [m_set_wrap wrap.word; m_set_truncate truncate.right; write (chars "abcdef ghijkl"); endc]
  = Ok (Some (chars "| abcdef…    |" ++ [NL])).
Proof. vm_compute. reflexivity. Qed.

Lemma test_justify :
  scenario true 4 [10%N; 10%N; 10%N]
    [m_set_justify justify.right; write (chars "1234"); endc;
     m_set_justify justify.center; write (chars "1234"); endc;
     m_set_justify justify.left; write (chars "1234"); endc]
  = Ok (Some (chars "|       1234 |    1234    | 1234       |" ++ [NL])).
Proof. vm_compute. reflexivity. Qed.

Lemma test_zero_width_4 :
  scenario true 4 [10%N; 10%N]
    [m_set_width 0; write (chars "hello"); endc;
     m_set_width 0; write (chars "world"); endc]
  = Ok (Some (chars "| hello | world |" ++ [NL])).
Proof. vm_compute. reflexivity. Qed.

Lemma test_style_double_box :
  scenario true 6 [0%N; 0%N] [m_set_style (double_box U8); m_top_line]
  = Ok (Some (chars "╔══╦══╗" ++ [NL])).
Proof. vm_compute. reflexivity. Qed.

Lemma test_nested_1 :
  nested_scenario true 4
  = Ok (Some (chars "| one                  | | 12345 | abcd  |    |" ++ [NL]
              ++ chars "|                      | | 678   |       |    |" ++ [NL])).
Proof. vm_compute. reflexivity. Qed.

(** * The statements of the specification *)

(** C1: on a one-column tabulator of width 10 with [wrap = word], the ascii
    style and the default padding, the thirteen characters "abcdef ghijkl"
    followed by one column advance reach the wrapped sink as exactly the two
    lines "| abcdef     |" and "| ghijkl     |", each ended by a newline;
    two units of fuel, or more, let the drain finish. *)
Theorem word_wrap_two_lines (debug : bool) (fuel : nat) :
  length (chars "abcdef ghijkl") = 13%nat
  /\ scenario debug (2 + fuel) [10%N]
       [m_set_wrap wrap.word; write (chars "abcdef ghijkl"); endc]
     = Ok (Some (chars "| abcdef     |" ++ [NL] ++ chars "| ghijkl     |" ++ [NL])).
Proof.
  split; [reflexivity|].
  apply scenario_from; [destruct debug; vm_compute; reflexivity | discriminate].
Qed.

(** C2: with two zero-width cells, the default padding and the ascii style,
    each of [top_line], [horiz_line] and [bottom_line] puts exactly "+--+--+"
    and a newline, and a newline character followed by two column advances
    puts exactly the empty row "|  |  |" and a newline. *)
Theorem ascii_rules_and_empty_row (debug : bool) (fuel : nat) :
  scenario debug (2 + fuel) [0%N; 0%N] [m_top_line]
    = Ok (Some (chars "+--+--+" ++ [NL]))
  /\ scenario debug (2 + fuel) [0%N; 0%N] [m_horiz_line]
    = Ok (Some (chars "+--+--+" ++ [NL]))
  /\ scenario debug (2 + fuel) [0%N; 0%N] [m_bottom_line]
    = Ok (Some (chars "+--+--+" ++ [NL]))
  /\ scenario debug (2 + fuel) [0%N; 0%N] [put NL; endc; endc]
    = Ok (Some (chars "|  |  |" ++ [NL])).
Proof.
  repeat split;
    (apply scenario_from; [destruct debug; vm_compute; reflexivity | discriminate]).
Qed.

(** C4: on the encoding of any sequence of Unicode scalar values, in the
    encoding of the character type, [utflen] is the number of code points:
    a multi-unit sequence counts once.  The count is the number of units
    after which the rolling sum of [utf_char_score] is zero, and for 32-bit
    units it is the number of units of any sequence. *)
Theorem utflen_counts_code_points (sz : unit_size) (cps : list Z) :
  Forall scalar_value cps ->
  utflen sz (SLI sz cps) = N.of_nat (length cps)
  /\ utflen_loop sz 0 0 (SLI sz cps)
     = N.of_nat (length (filter (fun r : Z => r = 0)
                                (rolling_sums sz 0 (SLI sz cps))))
  /\ (forall s, utflen U32 s = N.of_nat (length s)).
Proof.
  intros Hcps. split; [|split].
  - unfold SLI. rewrite utflen_well_formed by (apply SLI_chunks; exact Hcps).
    rewrite length_map. reflexivity.
  - rewrite utflen_loop_rolling. lia.
  - reflexivity.
Qed.

Lemma utflen_counts_code_points_witness :
  utflen U8 [0x24; 0xE2; 0x82; 0xAC] = 2%N.
Proof.
  apply (utflen_counts_code_points U8 [0x24; 0x20AC]).
  repeat constructor; unfold scalar_value; lia.
Defined.

(** C5 (a character that is not [eof()] is dropped): [overflow] tests
    the integer [Traits::not_eof(ch)] as a truth value, so the character
    NUL, whose [int_type] value is 0 and is not [eof()], is not appended: the
    tabulator is left as it was, whatever its state. *)
Theorem overflow_drops_nul (t : basic_tabulator) :
  0 <> eof U8 /\ overflow U8 0 t = Ok t.
Proof. split; [discriminate | reflexivity]. Qed.

(** Every other character that is not [eof()] is appended to the active
    cell, and the active column stays. *)
Lemma overflow_appends (ch : Z) (t : basic_tabulator) (c : cell_info) :
  ch <> eof U8 -> ch <> 0 -> _cells t !! _column t = Some c ->
  exists t', overflow U8 ch t = Ok t'
    /\ _cells t' !! _column t = Some (putc (to_char_type U8 ch) c)
    /\ _column t' = _column t.
Proof.
  intros Heof Hnul Hc. unfold overflow, not_eof, cell_at.
  replace (ch =? eof U8) with false by (symmetry; apply Z.eqb_neq; exact Heof).
  replace (ch =? 0) with false by (symmetry; apply Z.eqb_neq; exact Hnul).
  cbn [negb]. rewrite Hc. eexists. split; [reflexivity|]. split; [|reflexivity].
  cbn. apply list_lookup_insert_eq. eapply lookup_lt_Some. exact Hc.
Qed.

(** C8 (the setters check the state they are about to replace): in either
    build, [set_width(1)] on a fresh width-10 cell with the default one-point
    ellipsis passes its assertion, which reads the old width, and leaves
    width 1 with the invariant [_width == 0 || _width > utflen(_ellipsis)]
    broken; [set_ellipsis] with twelve points does the same through the old
    ellipsis. *)
Theorem setters_check_old_state (debug : bool) :
  cell_info_default U8 debug 10 = Ok (default_cell 10)
  /\ width_ok U8 (default_cell 10) = true
  /\ (exists c, cell_set_width U8 debug 1 (default_cell 10) = Ok c
        /\ _width c = 1%N /\ width_ok U8 c = false)
  /\ (exists c, cell_set_ellipsis U8 debug (chars "............") (default_cell 10) = Ok c
        /\ width_ok U8 c = false).
Proof.
  destruct debug; (split; [reflexivity|]); (split; [reflexivity|]);
    split; eexists; (split; [reflexivity|]); try split; reflexivity.
Qed.

(** C9 (the front of an empty buffer is read): a left-justified width-10 cell
    holding "abc", drained without [write_full_line] as [sync] does, writes
    the three characters, empties its buffer and then reads [_buf.front()];
    [os << "abc" << std::flush] on a one-column tabulator gets there. *)
Theorem front_of_empty_buffer_is_read (debug : bool) (fuel : nat) :
  write_line U8 (with_buf (chars "abc") (default_cell 10)) false
    = Fault FrontOfEmpty
  /\ scenario debug (1 + fuel) [10%N] [write (chars "abc"); flush_os]
    = Fault FrontOfEmpty.
Proof.
  split; [reflexivity|].
  apply scenario_from; [destruct debug; vm_compute; reflexivity | discriminate].
Qed.

(** C10 (one constructor leaves the latch unset): the r-value constructor
    sets [_line_start]; the l-value constructor has no initialiser for it, so
    the latch is whatever the storage held.  When that is [false] the first
    rendered line comes without the left border. *)
Theorem lvalue_ctor_leaves_line_start (p : sb_ptr) (cells : list cell_info)
    (indeterminate : bool) (w : world) (debug : bool) (fuel : nat) :
  (exists t, sbufs (tabulator_ctor_rvalue U8 p cells w) !! p = Some (Tabulator t)
     /\ _line_start t = true)
  /\ (exists t, sbufs (tabulator_ctor_lvalue U8 p cells indeterminate w) !! p
                = Some (Tabulator t)
     /\ _line_start t = indeterminate)
  /\ scenario_lvalue debug (1 + fuel) false [write (chars "abc"); endc]
     = Ok (Some (chars " abc        |" ++ [NL])).
Proof.
  split; [|split].
  - eexists. split; [apply lookup_insert_eq | reflexivity].
  - eexists. split; [apply lookup_insert_eq | reflexivity].
  - assert (E : scenario_lvalue debug 1 false [write (chars "abc"); endc]
                = Ok (Some (chars " abc        |" ++ [NL])))
      by (destruct debug; vm_compute; reflexivity).
    rewrite <- E.
    apply (scenario_lvalue_fuel_mono debug false _ 1%nat (1 + fuel)%nat); [lia|].
    rewrite E. discriminate.
Qed.

(** C3, as stated, fails: the width-10 right-truncating cell that holds the
    ISO 8859-1 bytes of "café" closes its row with the four bytes and seven
    spaces between the paddings, which [utflen] counts as 3 code points, not
    10: no line with 10 code points of content is emitted. *)
Lemma truncating_row_counterexample :
  _truncate latin1_cell = truncate.right /\ _width latin1_cell = 10%N
  /\ ~ exists c' content,
         write_line U8 latin1_cell true
         = Ok (c', fst (_pad latin1_cell) ++ content ++ snd (_pad latin1_cell), true)
         /\ utflen U8 content = _width latin1_cell.
Proof.
  split; [reflexivity|]. split; [reflexivity|].
  intros (c' & content & E & Hlen).
  assert (Hrun : write_line U8 latin1_cell true
                 = Ok (with_row_state [] 0 true latin1_cell,
                       [SPACE] ++ ([99; 97; 102; 233] ++ draw_fill 7) ++ [SPACE],
                       true)) by reflexivity.
  rewrite Hrun in E. injection E as _ E. cbn [latin1_cell _pad fst snd] in E.
  change (([99; 97; 102; 233] ++ draw_fill 7) ++ [SPACE] = content ++ [SPACE]) in E.
  apply app_inj_tail in E as [<- _].
  vm_compute in Hlen. discriminate.
Qed.

(** C3, amended: a cell that truncates closes its row in one call and on
    one line.  The cell has a nonzero width above the code-point length of
    its ellipsis and stands at the start of a cell line; its buffer and its
    ellipsis are whole code points and the ellipsis holds no newline.  It
    wraps by character, or its buffer holds no more than the width, or it
    wraps by word and the buffer has a whitespace the cut can be made at.
    The buffer holds no newline, or more code points than the width (then it
    is cut at the newline at the latest).  Then [write_line] with
    [write_full_line] returns [true], leaves the buffer empty, and puts the
    left padding, a content of exactly [_width] code points without a
    newline, and the right padding. *)
Theorem truncating_row_has_width (sz : unit_size) (c : cell_info) :
  _truncate c <> truncate.none ->
  _width c <> 0%N ->
  width_ok sz c = true ->
  _written c = 0%N ->
  _cell_start c = true ->
  well_formed sz (_buf c) ->
  well_formed sz (_ellipsis c) ->
  _wrap c = wrap.character \/ (utflen sz (_buf c) <= _width c)%N
  \/ break_within sz (truncate.is_right (_truncate c))
       (_width c - utflen sz (_ellipsis c)) (_buf c) ->
  (NL ∉ _buf c) \/ (_width c < utflen sz (_buf c))%N ->
  (NL ∉ _ellipsis c) ->
  exists c' content,
    write_line sz c true
    = Ok (c', fst (_pad c) ++ content ++ snd (_pad c), true)
    /\ utflen sz content = _width c
    /\ (NL ∉ content)
    /\ _buf c' = [].
Proof.
  intros Htr Hw Hok Hwr Hst Hbuf Hell Hwrap Hnl Hnle.
  assert (Hpos : (0 < _width c)%N) by lia.
  assert (Hlt : (utflen sz (_ellipsis c) < _width c)%N).
  { unfold width_ok in Hok. apply orb_true_iff in Hok as [Hz|Hlt].
    - apply N.eqb_eq in Hz. contradiction.
    - apply N.ltb_lt. exact Hlt. }
  destruct (truncate_buf_fits sz c Htr Hpos Hlt Hwr Hbuf Hell Hwrap Hnl Hnle)
    as (b & Htb & Hwf & Hfit & Hnob).
  destruct (write_line_full_fits sz c (with_buf b c)) as (lf & rf & E & Hlen);
    try assumption.
  exists (with_row_state [] 0 true (with_buf b c)),
         (draw_fill lf ++ b ++ draw_fill rf).
  split; [exact E|]. split; [exact Hlen|]. split; [|reflexivity].
  intros Hin. apply elem_of_app in Hin as [Hin|Hin];
    [exact (not_elem_of_fill lf Hin)|].
  apply elem_of_app in Hin as [Hin|Hin];
    [exact (Hnob Hin) | exact (not_elem_of_fill rf Hin)].
Qed.

Lemma truncating_row_has_width_witness :
  exists c' content,
    write_line U8 two_line_cell true
    = Ok (c', [SPACE] ++ content ++ [SPACE], true)
    /\ utflen U8 content = 10%N
    /\ (NL ∉ content)
    /\ _buf c' = [].
Proof.
  apply (truncating_row_has_width U8 two_line_cell).
  - discriminate.
  - discriminate.
  - reflexivity.
  - reflexivity.
  - reflexivity.
  - apply (SLI_well_formed U8 (chars "123456 ghijkl" ++ [NL] ++ chars "mnopqr stuvwx")).
    cbn. repeat (apply List.Forall_cons; [unfold scalar_value, NL; lia|]).
    apply List.Forall_nil.
  - apply (SLI_well_formed U8 [0x2026]).
    repeat constructor; unfold scalar_value; lia.
  - right. right.
    exists (chars "123456"), SPACE, (chars "ghijkl" ++ [NL] ++ chars "mnopqr stuvwx").
    split; [reflexivity|]. split; [reflexivity|]. vm_compute. discriminate.
  - right. vm_compute. reflexivity.
  - intros H. apply list_elem_of_In in H. cbn in H. unfold NL in H. lia.
Defined.

(** Where the hypotheses of the amended statement end: with word wrap a
    truncated word without whitespace makes [write_line] dereference [end()];
    a cell caught in the middle of a cell line emits no left padding; and a
    buffer that fits is not cut, so a newline it holds is put as it is and
    the row takes two lines. *)
Lemma truncating_short_buffer_keeps_newline :
  exists c', write_line U8 short_two_line_cell true
             = Ok (c', [SPACE] ++ (chars "ab" ++ [NL] ++ chars "cd" ++ draw_fill 5)
                       ++ [SPACE], true).
Proof. eexists. vm_compute. reflexivity. Qed.

Lemma truncating_word_wrap_reads_end :
  write_line U8 unbroken_cell true = Fault DerefEnd.
Proof. reflexivity. Qed.

Lemma truncating_started_cell_omits_padding :
  exists c', write_line U8 started_cell true
             = Ok (c', chars "abcdef gh…" ++ [SPACE], true).
Proof. eexists. vm_compute. reflexivity. Qed.

(** C6: a tabulator built on the stream by either constructor, used for any
    run of insertions that does not fault, and then destroyed, leaves the
    stream's [rdbuf()] at the value it had immediately before the
    construction. *)
Theorem ctor_dtor_restores_rdbuf (sz : unit_size) (debug : bool) (fuel : nat)
    (p : sb_ptr) (cells : list cell_info) (indeterminate : bool)
    (xs : list stream_op) (w w0 w' : world) :
  w0 = tabulator_ctor_rvalue sz p cells w
  \/ w0 = tabulator_ctor_lvalue sz p cells indeterminate w ->
  insert_all sz debug fuel xs w0 = Ok w' ->
  exists w'', tabulator_dtor p w' = Ok w'' /\ os_rdbuf w'' = os_rdbuf w.
Proof.
  intros Hctor Hrun.
  apply insert_all_links in Hrun as [Hlinks _].
  apply dtor_restores_link. rewrite Hlinks. unfold links.
  destruct Hctor as [-> | ->]; cbn [sbufs tabulator_ctor_rvalue tabulator_ctor_lvalue];
    rewrite lookup_fmap, lookup_insert_eq; reflexivity.
Qed.

Lemma ctor_dtor_restores_rdbuf_witness :
  exists w'', tabulator_dtor 1 wrapped_world = Ok w''
    /\ os_rdbuf w'' = os_rdbuf ostringstream.
Proof.
  apply (ctor_dtor_restores_rdbuf U8 true 2 1 [default_cell 10] false
           [m_set_wrap wrap.word; write (chars "abcdef ghijkl"); endc]
           ostringstream one_column wrapped_world).
  - left. reflexivity.
  - vm_compute. reflexivity.
Defined.

(** C7, as stated, fails: the one-column tabulator that holds "abc" in its
    cell is destroyed without a character reaching the wrapped sink. *)
Lemma dtor_does_not_drain_counterexample :
  insert_all U8 true 1 [write (chars "abc")] one_column = Ok pending_world
  /\ (exists t, sbufs pending_world !! 1%nat = Some (Tabulator t)
        /\ any_from 0 (_cells t) = true /\ _real_sb t = O)
  /\ exists w', tabulator_dtor 1 pending_world = Ok w'
        /\ received 0 w' = Some [].
Proof.
  split; [vm_compute; reflexivity|]. split.
  - eexists. split; [vm_compute; reflexivity|]. split; reflexivity.
  - eexists. split; [vm_compute; reflexivity|]. vm_compute. reflexivity.
Qed.

(** C7, amended: the destructor puts nothing and drains nothing.  It gives
    the stream back the saved streambuf and the tabulator is gone with
    whatever its cells held; every other streambuf, plain sink or tabulator,
    is exactly as it was, so nothing has been put to the wrapped streambuf,
    whichever kind it is.  A character inserted afterwards goes straight to
    the restored sink, after what that sink had received. *)
Theorem dtor_restores_without_draining (sz : unit_size) (p : sb_ptr)
    (t : basic_tabulator) (w : world) :
  sbufs w !! p = Some (Tabulator t) ->
  exists w', tabulator_dtor p w = Ok w'
    /\ os_rdbuf w' = _real_sb t
    /\ sbufs w' = delete p (sbufs w)
    /\ sbufs w' !! p = None
    /\ (forall q, q <> p -> sbufs w' !! q = sbufs w !! q)
    /\ (forall q, received q w' = received q w)
    /\ (forall s c debug fuel, received (_real_sb t) w = Some s ->
          exists w'', insert_op sz debug fuel (put c) w' = Ok w''
            /\ received (_real_sb t) w'' = Some (s ++ [c])).
Proof.
  intros Hp. unfold tabulator_dtor. rewrite Hp. eexists. split; [reflexivity|].
  cbn [os_rdbuf sbufs]. split; [reflexivity|]. split; [reflexivity|].
  split; [apply lookup_delete_eq|].
  split; [intros q Hq; apply lookup_delete_ne; congruence|]. split.
  - intros q. unfold received. cbn [sbufs].
    destruct (decide (p = q)) as [<-|Hne].
    + rewrite lookup_delete_eq, Hp. reflexivity.
    + rewrite lookup_delete_ne by exact Hne. reflexivity.
  - intros s c debug fuel Hs. unfold received in Hs.
    destruct (sbufs w !! _real_sb t) as [[content|t0]|] eqn:Hr; try discriminate.
    injection Hs as ->.
    assert (Hne : p <> _real_sb t) by (intros E; rewrite <- E, Hp in Hr; discriminate).
    cbn [insert_op os_rdbuf sbufs]. unfold sputn.
    rewrite lookup_delete_ne, Hr by exact Hne. cbn [mbind result_bind].
    eexists. split; [reflexivity|].
    unfold received. cbn [sbufs]. rewrite lookup_insert_eq. reflexivity.
Qed.

Lemma dtor_restores_without_draining_witness :
  exists w', tabulator_dtor 1 pending_world = Ok w'
    /\ os_rdbuf w' = O
    /\ sbufs w' = delete 1%nat (sbufs pending_world)
    /\ sbufs w' !! 1%nat = None
    /\ (forall q, q <> 1%nat -> sbufs w' !! q = sbufs pending_world !! q)
    /\ (forall q, received q w' = received q pending_world)
    /\ (forall s c debug fuel, received O pending_world = Some s ->
          exists w'', insert_op U8 debug fuel (put c) w' = Ok w''
            /\ received O w'' = Some (s ++ [c])).
Proof.
  apply (dtor_restores_without_draining U8 1
           (mk_tabulator [with_buf (chars "abc") (default_cell 10)] O O true O
                         (ascii U8))
           pending_world).
  vm_compute. reflexivity.
Defined.

(** * Further properties of the code *)

(** ** utf_utils.h *)

Lemma utflen_loop_le sz s : forall cbr c,
  (utflen_loop sz cbr c s <= c + N.of_nat (length s))%N.
Proof.
  induction s as [|u s IH]; intros cbr c; cbn [utflen_loop length]; [lia|].
  specialize (IH (cbr + utf_char_score sz u)
                 (if cbr + utf_char_score sz u =? 0 then N.succ c else c)).
  destruct (_ =? 0); lia.
Qed.

(** X1: whatever the units are, [utflen] never counts more code points than
    there are units. *)
Theorem utflen_le_length (sz : unit_size) (s : list Z) :
  (utflen sz s <= N.of_nat (length s))%N.
Proof. rewrite utflen_as_loop. apply (utflen_loop_le sz s 0 0%N). Qed.

Lemma well_formed_reverse_chunks sz chunks :
  Forall (is_cp sz) chunks ->
  Forall (closes sz 0) (reverse (map reverse chunks)).
Proof.
  intros H. apply Forall_reverse. induction H as [|ch chunks Hch _ IH]; cbn [map].
  - constructor.
  - constructor; [apply is_cp_closes_reverse; exact Hch | exact IH].
Qed.

(** X2: [utflen] run over reverse iterators, as the left truncation does,
    counts the same on a sequence of whole code points as run forwards. *)
Theorem utflen_reverse (sz : unit_size) (s : list Z) :
  well_formed sz s -> utflen sz (reverse s) = utflen sz s.
Proof.
  intros (chunks & Hcp & ->).
  rewrite reverse_concat, utflen_chunks by (apply well_formed_reverse_chunks; exact Hcp).
  rewrite utflen_well_formed by exact Hcp.
  rewrite length_reverse, length_map. reflexivity.
Qed.

Lemma utflen_reverse_witness :
  utflen U8 (reverse [0x24; 0xE2; 0x82; 0xAC]) = utflen U8 [0x24; 0xE2; 0x82; 0xAC].
Proof.
  apply (utflen_reverse U8 [0x24; 0xE2; 0x82; 0xAC]).
  apply (SLI_well_formed U8 [0x24; 0x20AC]).
  repeat constructor; unfold scalar_value; lia.
Defined.

(** X3: for the 8-bit character type [utf_char_score] gives the same score
    to a byte read as a signed [char] (its value minus 256) and read as an
    unsigned one. *)
Theorem utf_char_score_signedness (u : Z) :
  128 <= u < 256 -> utf_char_score U8 (u - 256) = utf_char_score U8 u.
Proof. intros H. apply score8_signed. lia. Qed.

Lemma utf_char_score_signedness_witness :
  utf_char_score U8 (226 - 256) = utf_char_score U8 226.
Proof. apply (utf_char_score_signedness 226). lia. Defined.

(** ** cell_info: the searches *)

Lemma find_line_end_loop_bound sz l : forall cbr w it c,
  (it <= find_line_end_loop sz cbr w l it <= it + length l)%nat
  /\ (utflen_loop sz cbr c (take (find_line_end_loop sz cbr w l it - it) l)
      <= c + w)%N.
Proof.
  induction l as [|ch l IH]; intros cbr w it c; cbn [find_line_end_loop length].
  - rewrite Nat.sub_diag. cbn. split; lia.
  - destruct (N.eqb_spec w 0) as [->|Hw].
    { rewrite Nat.sub_diag. cbn. split; lia. }
    destruct (Z.eqb_spec (cbr + utf_char_score sz ch) 0) as [E|E].
    + destruct (ch =? NL).
      { rewrite Nat.sub_diag. cbn. split; lia. }
      destruct (IH (cbr + utf_char_score sz ch) (N.pred w) (S it) (N.succ c))
        as [Hr Hu].
      split; [lia|].
      set (e := find_line_end_loop sz _ _ l (S it)) in *.
      replace (e - it)%nat with (S (e - S it)) by lia.
      cbn [take utflen_loop]. rewrite E. cbn [Z.eqb]. rewrite <- E. lia.
    + destruct (IH (cbr + utf_char_score sz ch) w (S it) c) as [Hr Hu].
      split; [lia|].
      set (e := find_line_end_loop sz _ _ l (S it)) in *.
      replace (e - it)%nat with (S (e - S it)) by lia.
      cbn [take utflen_loop].
      replace (cbr + utf_char_score sz ch =? 0) with false
        by (symmetry; apply Z.eqb_neq; exact E).
      exact Hu.
Qed.

(** The position the forward search returns. *)
Lemma find_line_end_fits (sz : unit_size) (l : list Z) (width : N) :
  (find_line_end sz l width <= length l)%nat
  /\ (utflen sz (take (find_line_end sz l width) l) <= width)%N.
Proof.
  unfold find_line_end.
  destruct (find_line_end_loop_bound sz l 0 width O 0%N) as [Hr Hu].
  rewrite Nat.sub_0_r in Hu. rewrite utflen_as_loop. split; lia.
Qed.

(** X4: whatever the units are, [find_line_end] returns a position inside
    the range, and the units before it hold at most [width] code points as
    [utflen] counts them. *)
Theorem find_line_end_within_width (sz : unit_size) (l : list Z) (width : N) :
  (find_line_end sz l width <= length l)%nat
  /\ (utflen sz (take (find_line_end sz l width) l) <= width)%N.
Proof. apply find_line_end_fits. Qed.

(** X5: on a sequence of whole code points the position [find_line_end]
    returns is a code point boundary: the units before it are whole code
    points, at most [width] of them, and the units from it on are whole code
    points too.  This is the line search alone; with word wrap
    [find_output_end] can move the end one unit further. *)
Theorem find_line_end_on_boundary (sz : unit_size) (s : list Z) (width : N) :
  well_formed sz s ->
  well_formed sz (take (find_line_end sz s width) s)
  /\ well_formed sz (drop (find_line_end sz s width) s)
  /\ (utflen sz (take (find_line_end sz s width) s) <= width)%N.
Proof.
  intros Hwf. destruct (find_line_end_take sz s width Hwf) as [Htake Hlen].
  split; [exact Htake|]. split; [|exact Hlen].
  destruct Hwf as (chunks & Hcp & ->).
  assert (Hu : Forall (unit_chunk sz) chunks).
  { eapply Forall_impl; [exact Hcp|]. intros ch. apply is_cp_unit_chunk. }
  destruct (find_line_end_chunks sz chunks width O Hu) as (k & _ & _ & E).
  unfold find_line_end. rewrite E. cbn [Nat.add].
  rewrite (concat_take_drop chunks k) at 1. rewrite drop_app_length.
  exists (drop k chunks). split; [apply Forall_drop; exact Hcp | reflexivity].
Qed.

Lemma find_line_end_on_boundary_witness :
  well_formed U8 (take (find_line_end U8 dollar_euro_dollar 2) dollar_euro_dollar)
  /\ well_formed U8 (drop (find_line_end U8 dollar_euro_dollar 2) dollar_euro_dollar)
  /\ (utflen U8 (take (find_line_end U8 dollar_euro_dollar 2) dollar_euro_dollar)
      <= 2)%N.
Proof.
  apply (find_line_end_on_boundary U8 dollar_euro_dollar 2).
  apply (SLI_well_formed U8 [0x24; 0x20AC; 0x24]).
  repeat constructor; unfold scalar_value; lia.
Defined.

(** With word wrap and no whitespace in reach the end of the line is one
    unit past that position: a width-3 cell holding "abcédef" ends its first
    line with the lead byte of the "é". *)
Lemma word_wrap_line_ends_inside_character :
  exists c', write_line U8
               (cell_set_wrap wrap.word
                  (with_buf (chars "abc" ++ [0xC3; 0xA9] ++ chars "def")
                            (default_cell 3)))
               true
             = Ok (c', [SPACE] ++ (chars "abc" ++ [0xC3]) ++ [SPACE], true)
  /\ _buf c' = [0xA9] ++ chars "def".
Proof. eexists. split; vm_compute; reflexivity. Qed.

(** X6: over the first [e] units of a range, [find_last_word] returns [e]
    when none of them is whitespace, and otherwise the position of the last
    whitespace among them. *)
Theorem find_last_word_position (l : list Z) (e : nat) :
  (e <= length l)%nat ->
  (Forall (fun u => isspace u = false) (take e l) /\ find_last_word l e = e)
  \/ exists a x b, take e l = a ++ x :: b /\ isspace x = true
       /\ Forall (fun u => isspace u = false) b
       /\ find_last_word l e = length a.
Proof. apply find_last_word_spec. Qed.

Lemma find_last_word_position_witness :
  (Forall (fun u => isspace u = false) (take 11 (chars "abcdef ghijkl"))
   /\ find_last_word (chars "abcdef ghijkl") 11 = 11%nat)
  \/ exists a x b, take 11 (chars "abcdef ghijkl") = a ++ x :: b
       /\ isspace x = true
       /\ Forall (fun u => isspace u = false) b
       /\ find_last_word (chars "abcdef ghijkl") 11 = length a.
Proof.
  apply (find_last_word_position (chars "abcdef ghijkl") 11). cbn. lia.
Defined.

(** ** cell_info: write_line *)

Lemma walk_back_le sz buf width : forall e sum ow e2 ow2,
  walk_back sz buf width sum e ow = Ok (e2, ow2) ->
  (e2 <= e)%nat /\ ((e2 < e)%nat -> (width < ow)%N).
Proof.
  induction e as [|e IH]; intros sum ow e2 ow2 H; cbn [walk_back] in H.
  - destruct (N.ltb_spec width ow).
    + destruct (buf !! O); discriminate.
    + injection H as <- <-. split; lia.
  - destruct (N.ltb_spec width ow).
    + destruct (buf !! S e); [|discriminate].
      apply IH in H as [Hle _]. split; [lia | intros _; assumption].
    + injection H as <- <-. split; lia.
Qed.

Lemma truncate_buf_none sz c :
  truncate.is_none (_truncate c) = true -> fst (truncate_buf sz c) = c.
Proof.
  intros H. unfold truncate_buf. rewrite H.
  destruct (_width c =? 0)%N; reflexivity.
Qed.

Lemma truncate_buf_config sz c :
  fst (truncate_buf sz c) = with_buf (_buf (fst (truncate_buf sz c))) c.
Proof.
  unfold truncate_buf.
  destruct (_width c =? 0)%N; [symmetry; apply with_buf_id|].
  destruct (truncate.is_none (_truncate c)); [symmetry; apply with_buf_id|].
  destruct (_width c <? utflen sz (_buf c))%N; [reflexivity|].
  symmetry; apply with_buf_id.
Qed.

(** What a call of [write_line] that returns has done: nothing, or one pass
    through [truncate_buf], the walk back, the drain and the whitespace
    drop. *)
Lemma write_line_inv sz c wfl c' out b :
  write_line sz c wfl = Ok (c', out, b) ->
  (c' = c /\ out = [] /\ b = false /\ wfl = false)
  \/ exists c1 e e2 ow lfill rfill,
       truncate_buf sz c = (c1, e) /\ (e2 <= e)%nat
       /\ ((e2 < e)%nat ->
           (0 < _width c1 < utflen sz (take e (_buf c1)) + _written c1)%N)
       /\ (wfl = true -> b = true)
       /\ out = (if _cell_start c1 then fst (_pad c1) ++ draw_fill lfill else [])
                ++ take e2 (_buf c1)
                ++ (if b then draw_fill rfill ++ snd (_pad c1) else [])
       /\ c' = with_row_state
                 (if wrap.is_word (_wrap c1)
                  then drop_spaces (drop_space (drop e2 (_buf c1)))
                  else drop_space (drop e2 (_buf c1)))
                 (if b then 0%N else ow) b c1.
Proof.
  unfold write_line. intros H.
  destruct (wfl || truncate.is_none (_truncate c)) eqn:Hgo.
  2:{ injection H as <- <- <-. left.
      destruct wfl; [discriminate|]. repeat split. }
  destruct (truncate_buf sz c) as [c1 e] eqn:Htb.
  destruct (negb wfl && _ && _) eqn:Hwait.
  { injection H as <- <- <-. left.
    destruct wfl; [discriminate|]. cbn in Hgo.
    pose proof (truncate_buf_none sz c Hgo) as E. rewrite Htb in E. cbn in E.
    subst c1. repeat split. }
  apply bind_Ok in H as ([[[[e2 ow] wf] lfill] rfill] & Hfit & H).
  destruct (_pad c1) as [lpad rpad] eqn:Hpad.
  apply bind_Ok in H as (wf2 & Hwf2 & H).
  assert (He2 : (e2 <= e)%nat /\ ((e2 < e)%nat ->
            (0 < _width c1 < utflen sz (take e (_buf c1)) + _written c1)%N)
            /\ (wfl = true -> wf = true)).
  { destruct (N.ltb_spec 0 (_width c1)) as [Hpos|Hzero].
    - apply bind_Ok in Hfit as ([e3 ow3] & Hwb & Hfit).
      apply walk_back_le in Hwb as [Hle Hlt].
      destruct (_justify c1); injection Hfit as <- <- <- <- <-;
        (split; [exact Hle|]);
        (split; [intros Hlt'; split; [exact Hpos | exact (Hlt Hlt')]|]);
        intros ->; reflexivity.
    - injection Hfit as <- <- <- <- <-. split; [lia|]. split; [lia|].
      intros ->; reflexivity. }
  destruct He2 as (Hle & Hlt & Hforced).
  right. exists c1, e, e2, ow, lfill, rfill.
  split; [reflexivity|]. split; [exact Hle|]. split; [exact Hlt|].
  rewrite Hpad.
  destruct (wf2 || _) eqn:Hfull; injection H as <- <- <-; cbn [fst snd].
  - split; [reflexivity|]. split; reflexivity.
  - split.
    { intros Hw. rewrite (Hforced Hw) in Hwf2. injection Hwf2 as <-.
      discriminate Hfull. }
    split; [rewrite app_nil_r|]; reflexivity.
Qed.

(** What a forced call leaves of the cell. *)
Lemma write_line_forced_shape (sz : unit_size) (c c' : cell_info)
    (out : list Z) (b : bool) :
  write_line sz c true = Ok (c', out, b) ->
  b = true /\ _written c' = 0%N /\ _cell_start c' = true
  /\ _width c' = _width c /\ _justify c' = _justify c
  /\ _truncate c' = _truncate c /\ _wrap c' = _wrap c
  /\ _pad c' = _pad c /\ _ellipsis c' = _ellipsis c.
Proof.
  intros H. apply write_line_inv in H
    as [(_ & _ & _ & E)|(c1 & e & e2 & ow & lf & rf & Htb & _ & _ & Hb & _ & ->)];
    [discriminate|].
  rewrite (Hb eq_refl).
  pose proof (truncate_buf_config sz c) as Hc. rewrite Htb in Hc. cbn [fst] in Hc.
  rewrite Hc. repeat split.
Qed.

(** X7: a call of [write_line] with [write_full_line] that returns has
    finished the cell line: it returns [true], [_written] is back at 0 and
    [_cell_start] is set; width, justification, truncation, wrap, padding and
    ellipsis of the cell are as before. *)
Theorem write_line_forced_completes (sz : unit_size) (c c' : cell_info)
    (out : list Z) (b : bool) :
  write_line sz c true = Ok (c', out, b) ->
  b = true /\ _written c' = 0%N /\ _cell_start c' = true
  /\ _width c' = _width c /\ _justify c' = _justify c
  /\ _truncate c' = _truncate c /\ _wrap c' = _wrap c
  /\ _pad c' = _pad c /\ _ellipsis c' = _ellipsis c.
Proof. apply write_line_forced_shape. Qed.

Lemma write_line_forced_completes_witness :
  true = true /\ _written (with_row_state [] 0 true latin1_cell) = 0%N
  /\ _cell_start (with_row_state [] 0 true latin1_cell) = true
  /\ _width (with_row_state [] 0 true latin1_cell) = _width latin1_cell
  /\ _justify (with_row_state [] 0 true latin1_cell) = _justify latin1_cell
  /\ _truncate (with_row_state [] 0 true latin1_cell) = _truncate latin1_cell
  /\ _wrap (with_row_state [] 0 true latin1_cell) = _wrap latin1_cell
  /\ _pad (with_row_state [] 0 true latin1_cell) = _pad latin1_cell
  /\ _ellipsis (with_row_state [] 0 true latin1_cell) = _ellipsis latin1_cell.
Proof.
  apply (write_line_forced_completes U8 latin1_cell _
           ([SPACE] ++ ([99; 97; 102; 233] ++ draw_fill 7) ++ [SPACE])).
  reflexivity.
Defined.

Lemma drop_space_split d :
  exists ws, d = ws ++ drop_space d /\ Forall (fun u => isspace u = true) ws.
Proof.
  destruct d as [|u d]; [exists []; split; [reflexivity | constructor]|].
  cbn [drop_space]. destruct (isspace u) eqn:Hu.
  - exists [u]. split; [reflexivity | repeat constructor; exact Hu].
  - exists []. split; [reflexivity | constructor].
Qed.

Lemma drop_spaces_split d :
  exists ws, d = ws ++ drop_spaces d /\ Forall (fun u => isspace u = true) ws.
Proof.
  induction d as [|u d IH]; [exists []; split; [reflexivity | constructor]|].
  cbn [drop_spaces]. destruct (isspace u) eqn:Hu.
  - destruct IH as (ws & E & Hws). exists (u :: ws).
    split; [cbn; f_equal; exact E | constructor; assumption].
  - exists []. split; [reflexivity | constructor].
Qed.

(** X8: a cell that does not truncate loses nothing but whitespace at a line
    break: after any [write_line] that returns, the buffer it had is the text
    it has put, then whitespace it dropped, then the buffer it keeps, in that
    order; what it puts besides the text is padding and fill. *)
Theorem write_line_keeps_content (sz : unit_size) (c c' : cell_info)
    (wfl : bool) (out : list Z) (b : bool) :
  _truncate c = truncate.none ->
  write_line sz c wfl = Ok (c', out, b) ->
  (c' = c /\ out = [] /\ b = false)
  \/ exists text ws lfill rfill,
       _buf c = text ++ ws ++ _buf c'
       /\ Forall (fun u => isspace u = true) ws
       /\ out = (if _cell_start c then fst (_pad c) ++ draw_fill lfill else [])
                ++ text
                ++ (if b then draw_fill rfill ++ snd (_pad c) else []).
Proof.
  intros Htr H. apply write_line_inv in H
    as [(-> & -> & -> & _)|(c1 & e & e2 & ow & lf & rf & Htb & _ & _ & _ & -> & ->)].
  { left. repeat split. }
  right.
  pose proof (truncate_buf_none sz c) as Hc. rewrite Htr, Htb in Hc.
  cbn in Hc. specialize (Hc eq_refl). subst c1.
  destruct (drop_space_split (drop e2 (_buf c))) as (ws1 & E1 & Hws1).
  destruct (drop_spaces_split (drop_space (drop e2 (_buf c)))) as (ws2 & E2 & Hws2).
  destruct (wrap.is_word (_wrap c)).
  - exists (take e2 (_buf c)), (ws1 ++ ws2), lf, rf. cbn [_buf with_row_state].
    split; [|split; [apply Forall_app; split; assumption | reflexivity]].
    rewrite <- app_assoc, <- E2, <- E1, take_drop. reflexivity.
  - exists (take e2 (_buf c)), ws1, lf, rf. cbn [_buf with_row_state].
    split; [|split; [assumption | reflexivity]].
    rewrite <- E1, take_drop. reflexivity.
Qed.

Lemma write_line_keeps_content_witness :
  (with_row_state (chars "jkl") 0 true (with_buf (chars "abcdef ghijkl") (default_cell 10))
     = with_buf (chars "abcdef ghijkl") (default_cell 10)
   /\ chars " abcdef ghi " = [] /\ true = false)
  \/ exists text ws lfill rfill,
       chars "abcdef ghijkl" = text ++ ws ++ chars "jkl"
       /\ Forall (fun u => isspace u = true) ws
       /\ chars " abcdef ghi "
          = (if true then [SPACE] ++ draw_fill lfill else [])
            ++ text ++ (if true then draw_fill rfill ++ [SPACE] else []).
Proof.
  apply (write_line_keeps_content U8
           (with_buf (chars "abcdef ghijkl") (default_cell 10))
           (with_row_state (chars "jkl") 0 true
              (with_buf (chars "abcdef ghijkl") (default_cell 10)))
           true (chars " abcdef ghi ") true).
  - reflexivity.
  - reflexivity.
Defined.

(** A forced line that needs no walk back: the text up to the position
    [truncate_buf] returns, between the paddings and the fill. *)
Lemma write_line_full_no_walk sz c c1 e :
  truncate_buf sz c = (c1, e) ->
  _width c1 = 0%N \/ (utflen sz (take e (_buf c1)) + _written c1 <= _width c1)%N ->
  exists lfill rfill,
    write_line sz c true
    = Ok (with_row_state
            (if wrap.is_word (_wrap c1)
             then drop_spaces (drop_space (drop e (_buf c1)))
             else drop_space (drop e (_buf c1)))
            0 true c1,
          (if _cell_start c1 then fst (_pad c1) ++ draw_fill lfill else [])
          ++ take e (_buf c1) ++ draw_fill rfill ++ snd (_pad c1), true)
    /\ ((_width c1 = 0%N /\ lfill = 0%N /\ rfill = 0%N)
        \/ (lfill + (utflen sz (take e (_buf c1)) + _written c1) + rfill
            = _width c1)%N).
Proof.
  intros Htb Hfit. unfold write_line. cbn [orb]. rewrite Htb. cbn [negb andb].
  destruct (N.ltb_spec 0 (_width c1)) as [Hpos|Hzero].
  - destruct Hfit as [Hz|Hfit]; [lia|].
    rewrite walk_back_fits by exact Hfit. cbn [mbind result_bind orb].
    destruct (fills_add_up (_justify c1)
                (size_sub (_width c1) (utflen sz (take e (_buf c1)) + _written c1)))
      as (lfill & rfill & -> & Hsum).
    rewrite size_sub_le in Hsum by exact Hfit.
    cbn [mbind result_bind orb]. destruct (_pad c1) as [lpad rpad].
    exists lfill, rfill. split; [reflexivity | right; lia].
  - cbn [mbind result_bind orb]. destruct (_pad c1) as [lpad rpad].
    exists 0%N, 0%N. split; [reflexivity | left; repeat split; lia].
Qed.

Lemma size_sub_0 a : size_sub a 0 = a.
Proof. rewrite size_sub_le by lia. lia. Qed.

Lemma truncate_buf_wrapping sz c :
  _truncate c = truncate.none -> _wrap c = wrap.character -> _width c <> 0%N ->
  truncate_buf sz c
  = (c, find_line_end sz (_buf c) (size_sub (_width c) (_written c))).
Proof.
  intros Htr Hwrap Hw. unfold truncate_buf, find_output_end.
  replace (_width c =? 0)%N with false by (symmetry; apply N.eqb_neq; exact Hw).
  rewrite Htr, Hwrap. reflexivity.
Qed.

(** X9: a cell that wraps by character and does not truncate, of nonzero
    width, at the start of a cell line and holding whole code points, closes
    a forced line with the left padding, a content of exactly [_width] code
    points and the right padding. *)
Theorem wrapping_row_has_width (sz : unit_size) (c : cell_info) :
  _truncate c = truncate.none ->
  _wrap c = wrap.character ->
  _width c <> 0%N ->
  _written c = 0%N ->
  _cell_start c = true ->
  well_formed sz (_buf c) ->
  exists c' content,
    write_line sz c true
    = Ok (c', fst (_pad c) ++ content ++ snd (_pad c), true)
    /\ utflen sz content = _width c.
Proof.
  intros Htr Hwrap Hw Hwr Hst Hwf.
  pose proof (truncate_buf_wrapping sz c Htr Hwrap Hw) as Htb.
  rewrite Hwr, size_sub_0 in Htb.
  destruct (find_line_end_take sz (_buf c) (_width c) Hwf) as [Hpre Hlen].
  destruct (write_line_full_no_walk sz c c _ Htb) as (lf & rf & E & Hsum).
  { right. rewrite Hwr. lia. }
  rewrite Hst in E. destruct Hsum as [(Hz & _)|Hsum]; [contradiction|].
  eexists. exists (draw_fill lf ++ take (find_line_end sz (_buf c) (_width c)) (_buf c)
                   ++ draw_fill rf).
  split; [rewrite E, <- !app_assoc; reflexivity|].
  rewrite utflen_app by apply well_formed_fill.
  rewrite utflen_app by exact Hpre. rewrite !utflen_fill. lia.
Qed.

Lemma wrapping_row_has_width_witness :
  exists c' content,
    write_line U8 (with_buf (chars "abcdef ghijkl") (default_cell 10)) true
    = Ok (c', [SPACE] ++ content ++ [SPACE], true)
    /\ utflen U8 content = 10%N.
Proof.
  apply (wrapping_row_has_width U8 (with_buf (chars "abcdef ghijkl") (default_cell 10))).
  - reflexivity.
  - reflexivity.
  - discriminate.
  - reflexivity.
  - reflexivity.
  - apply (SLI_well_formed U8 (chars "abcdef ghijkl")).
    repeat constructor; unfold scalar_value; cbn; lia.
Defined.

(** X10: a cell that wraps by character and does not truncate never runs
    into undefined behaviour on a forced line, whatever units it holds, as
    long as [_written] has not passed a nonzero [_width]. *)
Theorem write_line_forced_is_defined (sz : unit_size) (c : cell_info) :
  _truncate c = truncate.none ->
  _wrap c = wrap.character ->
  _width c = 0%N \/ (_written c <= _width c)%N ->
  exists c' out, write_line sz c true = Ok (c', out, true).
Proof.
  intros Htr Hwrap Hw.
  destruct (truncate_buf sz c) as [c1 e] eqn:Htb.
  destruct (write_line_full_no_walk sz c c1 e Htb) as (lf & rf & E & _).
  - destruct (N.eq_dec (_width c) 0%N) as [Hz|Hnz].
    + left. pose proof (truncate_buf_config sz c) as Hc. rewrite Htb in Hc.
      cbn [fst] in Hc. rewrite Hc. exact Hz.
    + right. destruct Hw as [Hz|Hle]; [contradiction|].
      rewrite truncate_buf_wrapping in Htb by assumption.
      injection Htb as <- <-.
      pose proof (find_line_end_fits sz (_buf c)
                    (size_sub (_width c) (_written c))) as [_ Hlen].
      rewrite size_sub_le in * by exact Hle. lia.
  - eexists. eexists. exact E.
Qed.

Lemma write_line_forced_is_defined_witness :
  exists c' out, write_line U8 (with_buf [233; 233; 128] (default_cell 10)) true
                 = Ok (c', out, true).
Proof.
  apply (write_line_forced_is_defined U8 (with_buf [233; 233; 128] (default_cell 10))).
  - reflexivity.
  - reflexivity.
  - right. cbn. lia.
Defined.

Lemma find_if_NL_split l :
  ((NL ∉ l) /\ find_if (fun ch => ch =? NL) l = length l)
  \/ exists text rest, l = text ++ NL :: rest /\ (NL ∉ text)
       /\ find_if (fun ch => ch =? NL) l = length text.
Proof.
  destruct (find_if_split (fun ch => ch =? NL) l)
    as [[Hall E]|(a & x & b & -> & Ha & Hx & E)].
  - left. split; [|exact E]. intros Hin. rewrite List.Forall_forall in Hall.
    apply list_elem_of_In, Hall in Hin. cbn in Hin. discriminate.
  - right. apply Z.eqb_eq in Hx. subst x. exists a, b.
    split; [reflexivity|]. split; [|exact E].
    intros Hin. rewrite List.Forall_forall in Ha.
    apply list_elem_of_In, Ha in Hin. cbn in Hin. discriminate.
Qed.

(** X11: a zero-width cell neither wraps, truncates nor fills, whatever its
    policies: a forced line is the padding around the text before the first
    newline, or around the whole buffer when there is none; the newline is
    consumed, and with word wrap the whitespace after it. *)
Theorem zero_width_line (sz : unit_size) (c : cell_info) :
  _width c = 0%N ->
  exists c' text,
    write_line sz c true
    = Ok (c', (if _cell_start c then fst (_pad c) else []) ++ text ++ snd (_pad c),
          true)
    /\ (NL ∉ text)
    /\ ((_buf c = text /\ _buf c' = [])
        \/ exists rest, _buf c = text ++ NL :: rest
             /\ _buf c' = if wrap.is_word (_wrap c) then drop_spaces rest else rest).
Proof.
  intros Hw.
  assert (Htb : truncate_buf sz c = (c, find_if (fun ch => ch =? NL) (_buf c))).
  { unfold truncate_buf. rewrite Hw. reflexivity. }
  destruct (write_line_full_no_walk sz c c _ Htb) as (lf & rf & E & Hsum);
    [left; exact Hw|].
  assert (lf = 0%N /\ rf = 0%N) as [-> ->]
    by (destruct Hsum as [(_ & -> & ->)|Hsum];
        [split; reflexivity | rewrite Hw in Hsum; lia]).
  cbn [draw_fill N.to_nat replicate] in E. rewrite app_nil_r in E.
  eexists. exists (take (find_if (fun ch => ch =? NL) (_buf c)) (_buf c)).
  split; [rewrite E; cbn [app]; reflexivity|].
  cbn [_buf with_row_state].
  destruct (find_if_NL_split (_buf c)) as [[Hnl Ef]|(text & rest & Eb & Hnl & Ef)].
  - rewrite Ef, take_ge, drop_all by lia. split; [exact Hnl|]. left.
    split; [reflexivity|]. destruct (wrap.is_word (_wrap c)); reflexivity.
  - rewrite Ef, Eb, take_app_length, drop_app_length. split; [exact Hnl|].
    right. exists rest. split; [reflexivity|]. reflexivity.
Qed.

Lemma zero_width_line_witness :
  exists c' text,
    write_line U8 (with_buf (chars "hello") (default_cell 0)) true
    = Ok (c', (if true then [SPACE] else []) ++ text ++ [SPACE], true)
    /\ (NL ∉ text)
    /\ ((chars "hello" = text /\ _buf c' = [])
        \/ exists rest, chars "hello" = text ++ NL :: rest
             /\ _buf c' = if false then drop_spaces rest else rest).
Proof.
  apply (zero_width_line U8 (with_buf (chars "hello") (default_cell 0))).
  reflexivity.
Defined.

(** ** The drain *)

Lemma walk_back_settled sz buf width : forall e sum ow,
  settled (walk_back sz buf width sum e ow).
Proof.
  induction e as [|e IH]; intros sum ow; cbn [walk_back];
    destruct (width <? ow)%N; try discriminate;
    destruct (buf !! _); try discriminate. apply IH.
Qed.

Lemma write_line_settled sz c wfl : settled (write_line sz c wfl).
Proof.
  unfold write_line, settled.
  destruct (wfl || _); [|discriminate].
  destruct (truncate_buf sz c) as [c1 e].
  destruct (negb wfl && _ && _); [discriminate|].
  destruct (0 <? _width c1)%N.
  - pose proof (walk_back_settled sz (_buf c1) (_width c1) e 0
                  (utflen sz (take e (_buf c1)) + _written c1)) as Hwb.
    destruct (walk_back _ _ _ _ _ _) as [[e2 ow2]|f];
      [|cbn; intros [= ->]; apply Hwb; reflexivity].
    cbn [mbind result_bind]. destruct (_justify c1); cbn [mbind result_bind];
      destruct (_pad c1); destruct (wfl || _); cbn [mbind result_bind];
      repeat (cbn; match goal with
                   | |- context [match ?x with _ => _ end] => destruct x
                   end); cbn; discriminate.
  - cbn [mbind result_bind]. destruct (_pad c1); destruct wfl; cbn [mbind result_bind];
      repeat (cbn; match goal with
                   | |- context [match ?x with _ => _ end] => destruct x
                   end); cbn; discriminate.
Qed.

Lemma flush_step_settled sz debug all_cells t :
  settled (flush_step sz debug all_cells t).
Proof.
  unfold flush_step, settled, check_columns, check, assert, cell_at.
  destruct debug; cbn [mbind result_bind];
    repeat match goal with
           | |- context [if ?b then Ok tt else _] => destruct b; cbn [mbind result_bind]
           end; try discriminate;
    (destruct (_cells t !! _sync_column t) as [c|]; cbn [mbind result_bind];
     [|discriminate]);
    pose proof (write_line_settled sz c
                  (all_cells || (negb (_sync_column t =? _column t)%nat
                                 || any_from (S (_sync_column t)) (_cells t)))) as Hs;
    (destruct (write_line _ _ _) as [[[c' out] full]|f];
     [|cbn; intros [= ->]; apply Hs; reflexivity]);
    cbn [mbind result_bind]; destruct full; discriminate.
Qed.

Lemma length_drop_space d : (length (drop_space d) <= length d)%nat.
Proof. destruct d as [|u d]; cbn; [lia|]. destruct (isspace u); cbn; lia. Qed.

Lemma find_line_end_zero sz u l w :
  find_line_end sz (u :: l) w = O -> w = 0%N \/ u = NL.
Proof.
  unfold find_line_end. cbn [find_line_end_loop].
  destruct (N.eqb_spec w 0); [left; assumption|]. intros H. right.
  destruct (_ =? 0).
  - destruct (Z.eqb_spec u NL); [assumption|].
    pose proof (find_line_end_loop_bound sz l (0 + utf_char_score sz u)
                  (N.pred w) 1 0%N) as [Hr _]. lia.
  - pose proof (find_line_end_loop_bound sz l (0 + utf_char_score sz u)
                  w 1 0%N) as [Hr _]. lia.
Qed.

(** A forced line of a plain cell leaves it plain and no larger, and smaller
    when it held something. *)
Lemma write_line_progress sz c c' out b :
  plain_cell c -> write_line sz c true = Ok (c', out, b) ->
  plain_cell c'
  /\ (cell_measure c' <= cell_measure c)%nat
  /\ (empty c = false -> (cell_measure c' < cell_measure c)%nat).
Proof.
  intros [Htr Hwrap] H.
  pose proof (write_line_forced_shape sz c c' out b H)
    as (_ & _ & _ & _ & _ & Htr' & Hwrap' & _).
  split; [split; congruence|].
  apply write_line_inv in H
    as [(_ & _ & _ & E)|(c1 & e & e2 & ow & lf & rf & Htb & Hle & Hlt & Hb & _ & ->)];
    [discriminate|].
  rewrite (Hb eq_refl).
  pose proof (truncate_buf_none sz c) as Hc. rewrite Htr, Htb in Hc.
  specialize (Hc eq_refl). cbn [fst] in Hc. subst c1.
  rewrite Hwrap. cbn [wrap.is_word]. unfold cell_measure, empty.
  cbn [_buf _written with_row_state N.eqb].
  pose proof (length_drop_space (drop e2 (_buf c))) as Hds.
  rewrite length_drop in Hds.
  split; [destruct (_written c =? 0)%N; lia|].
  intros Hne. destruct (_buf c) as [|u l] eqn:Hbuf; [discriminate|].
  destruct e2 as [|e2].
  2:{ cbn [length] in *. destruct (_written c =? 0)%N; lia. }
  cbn [drop drop_space]. destruct (isspace u) eqn:Hu.
  { cbn [length]. destruct (_written c =? 0)%N; lia. }
  destruct (N.eqb_spec (_written c) 0) as [Hwr|Hwr]; [exfalso|cbn [length]; lia].
  destruct (N.eq_dec (_width c) 0%N) as [Hz|Hnz].
  - assert (e = O) as ->.
    { destruct e; [reflexivity|]. destruct Hlt as [Hpos _]; lia. }
    unfold truncate_buf in Htb. rewrite Hz, Hbuf in Htb. cbn [N.eqb find_if] in Htb.
    destruct (Z.eqb_spec u NL) as [->|]; [|discriminate].
    rewrite isspace_NL in Hu. discriminate.
  - rewrite truncate_buf_wrapping in Htb by assumption.
    rewrite Hwr, size_sub_0, Hbuf in Htb. injection Htb as <-.
    pose proof (find_line_end_fits sz (u :: l) (_width c)) as [_ Hlen].
    destruct (find_line_end sz (u :: l) (_width c)) as [|e] eqn:He.
    + apply find_line_end_zero in He as [?| ->]; [contradiction|].
      rewrite isspace_NL in Hu. discriminate.
    + destruct Hlt as [_ Hlt]; [lia|]. rewrite ?Hbuf, ?Hwr in Hlt. lia.
Qed.

Lemma flush_step_forced sz debug t r :
  flush_step sz debug true t = Ok r ->
  exists c c' out,
    _cells t !! _sync_column t = Some c
    /\ write_line sz c true = Ok (c', out, true)
    /\ _cells (fst r) = <[_sync_column t := c']> (_cells t)
    /\ _column (fst r) = _column t
    /\ _sync_column (fst r)
       = (if (S (_sync_column t) =? length (_cells t))%nat
          then O else S (_sync_column t)).
Proof.
  unfold flush_step. cbn [orb]. intros H.
  apply bind_Ok in H as (u & _ & H). apply bind_Ok in H as (c & Hc & H).
  apply bind_Ok in H as ([[c' out] full] & Hwl & H).
  unfold cell_at in Hc. destruct (_cells t !! _sync_column t) as [c0|] eqn:E;
    [|discriminate]. injection Hc as ->.
  pose proof (write_line_forced_shape sz c c' out full Hwl) as (-> & _).
  injection H as <-. exists c, c', out. cbn [fst _cells _column _sync_column].
  rewrite length_insert. repeat split; assumption.
Qed.

Lemma cells_measure_insert cs i c c' :
  cs !! i = Some c ->
  (cells_measure (<[i := c']> cs) + cell_measure c
   = cells_measure cs + cell_measure c')%nat.
Proof.
  intros Hi. pose proof (lookup_lt_Some _ _ _ Hi) as Hlt.
  rewrite insert_take_drop by exact Hlt.
  rewrite <- (take_drop_middle cs i c Hi) at 3.
  unfold cells_measure. rewrite !sum_list_with_app. cbn [sum_list_with]. lia.
Qed.

Lemma any_from_cons i cs c :
  cs !! i = Some c ->
  any_from i cs = negb (empty c) || any_from (S i) cs.
Proof.
  intros Hi. unfold any_from. rewrite (drop_S _ _ _ Hi). reflexivity.
Qed.

Lemma any_from_insert_lt i j cs c :
  (i < j)%nat -> any_from j (<[i := c]> cs) = any_from j cs.
Proof. intros H. unfold any_from. rewrite drop_insert_lt by exact H. reflexivity. Qed.

Lemma Forall_plain_insert cs i c :
  Forall plain_cell cs -> plain_cell c -> Forall plain_cell (<[i := c]> cs).
Proof. intros. apply Forall_insert; assumption. Qed.

Section Termination.

Variable sz : unit_size.
Variable debug : bool.

Lemma halts_done t : more true t = false -> halts sz debug t.
Proof. intros H. exists O. cbn [flush_loop]. rewrite H. discriminate. Qed.

Lemma halts_step t :
  more true t = true ->
  (forall r, flush_step sz debug true t = Ok r -> halts sz debug (fst r)) ->
  halts sz debug t.
Proof.
  intros Hmore Hnext.
  destruct (flush_step sz debug true t) as [r|f] eqn:E.
  - destruct (Hnext r eq_refl) as [fuel Hfuel]. exists (S fuel).
    cbn [flush_loop]. rewrite Hmore, E. cbn [mbind result_bind].
    destruct (flush_loop sz debug fuel true (fst r)) as [r'|f'];
      cbn [mbind result_bind]; [discriminate | exact Hfuel].
  - exists 1%nat. cbn [flush_loop]. rewrite Hmore, E. cbn [mbind result_bind].
    pose proof (flush_step_settled sz debug true t) as Hs. rewrite E in Hs.
    exact Hs.
Qed.

(** From any column to the end of the row: the cells do not grow, and the row
    ends below [bound] if a cell that is still to come holds something. *)
Lemma halts_row_tail : forall k t bound,
  Forall plain_cell (_cells t) ->
  (length (_cells t) - _sync_column t = k)%nat ->
  (cells_measure (_cells t) < bound)%nat
  \/ ((cells_measure (_cells t) <= bound)%nat
      /\ any_from (_sync_column t) (_cells t) = true) ->
  (forall t', Forall plain_cell (_cells t') -> _sync_column t' = O ->
              (cells_measure (_cells t') < bound)%nat -> halts sz debug t') ->
  halts sz debug t.
Proof.
  induction k as [|k IH]; intros t bound Hplain Hk Hbound Hcont;
    (destruct (more true t) eqn:Hmore; [|apply halts_done; exact Hmore]);
    apply halts_step; [exact Hmore| |exact Hmore|]; intros r Hr;
    apply flush_step_forced in Hr as (c & c' & out & Hc & Hwl & Hcells & _ & Hsync);
    pose proof (lookup_lt_Some _ _ _ Hc) as Hlt; [lia|].
  assert (Hpc : plain_cell c).
  { rewrite List.Forall_forall in Hplain. apply Hplain.
    apply list_elem_of_In. eapply list_elem_of_lookup_2. exact Hc. }
  destruct (write_line_progress sz c c' out true Hpc Hwl) as (Hpc' & Hle & Hstrict).
  pose proof (cells_measure_insert (_cells t) (_sync_column t) c c' Hc) as Hm.
  rewrite <- Hcells in Hm.
  assert (Hplain' : Forall plain_cell (_cells (fst r))).
  { rewrite Hcells. apply Forall_plain_insert; assumption. }
  rewrite (any_from_cons _ _ _ Hc) in Hbound.
  assert (Hcase : (cells_measure (_cells (fst r)) < bound)%nat
                  \/ ((cells_measure (_cells (fst r)) <= bound)%nat
                      /\ empty c = true
                      /\ any_from (S (_sync_column t)) (_cells t) = true)).
  { destruct Hbound as [Hb|[Hb Hany]]; [left; lia|].
    destruct (empty c) eqn:He.
    - right. cbn [negb orb] in Hany. repeat split; [lia | exact Hany].
    - left. specialize (Hstrict eq_refl). lia. }
  destruct (Nat.eqb_spec (S (_sync_column t)) (length (_cells t))) as [Hlast|Hmid].
  - apply Hcont; [exact Hplain' | exact Hsync|].
    destruct Hcase as [Hb|(_ & _ & Hany)]; [exact Hb|].
    unfold any_from in Hany. rewrite drop_ge in Hany by lia. discriminate.
  - apply (IH (fst r) bound); [exact Hplain'| | |exact Hcont].
    + rewrite Hcells, length_insert, Hsync. lia.
    + destruct Hcase as [Hb|(Hb & _ & Hany)]; [left; exact Hb|].
      right. split; [exact Hb|].
      rewrite Hsync, Hcells. rewrite any_from_insert_lt by lia. exact Hany.
Qed.

Lemma halts_from_row_start : forall bound t,
  Forall plain_cell (_cells t) -> _sync_column t = O ->
  (cells_measure (_cells t) < bound)%nat -> halts sz debug t.
Proof.
  induction bound as [|bound IH]; intros t Hplain Hsync Hb; [lia|].
  destruct (more true t) eqn:Hmore; [|apply halts_done; exact Hmore].
  apply (halts_row_tail (length (_cells t) - _sync_column t) t
           (cells_measure (_cells t)) Hplain eq_refl).
  - right. split; [lia|]. unfold more in Hmore. rewrite Hsync in Hmore |- *.
    cbn in Hmore. exact Hmore.
  - intros t' Hplain' Hsync' Hlt. apply IH; [assumption | assumption | lia].
Qed.

Lemma halts_plain t : Forall plain_cell (_cells t) -> halts sz debug t.
Proof.
  intros Hplain.
  apply (halts_row_tail (length (_cells t) - _sync_column t) t
           (S (cells_measure (_cells t))) Hplain eq_refl).
  - left. lia.
  - intros t' Hplain' Hsync' Hlt.
    apply (halts_from_row_start (S (cells_measure (_cells t)))); assumption.
Qed.

(** X12: on a tabulator whose cells all wrap by character and do not
    truncate (as the constructor leaves them), the forced drain finishes
    whatever the cells hold, and so does [next_column]: some amount of fuel
    settles each of them. *)
Theorem forced_drain_terminates (t : basic_tabulator) :
  Forall plain_cell (_cells t) ->
  (exists fuel, settled (flush sz debug fuel true t))
  /\ (exists fuel, settled (next_column sz debug fuel t)).
Proof.
  intros Hplain.
  assert (Hflush : forall t0, Forall plain_cell (_cells t0) ->
            exists fuel, settled (flush sz debug fuel true t0)).
  { intros t0 Hp. destruct (halts_plain t0 Hp) as [fuel Hfuel]. exists fuel.
    unfold flush. destruct (check_columns debug t0) as [u|f] eqn:E;
      cbn [mbind result_bind]; [exact Hfuel|].
    unfold check_columns, check, assert in E. intros [= ->].
    destruct debug; cbn [mbind result_bind] in E;
      repeat match type of E with
             | context [if ?b then _ else _] => destruct b; cbn [mbind result_bind] in E
             end; discriminate. }
  split; [apply Hflush; exact Hplain|].
  destruct (Hflush (with_column O t) Hplain) as [fuel Hfuel]. exists fuel.
  unfold next_column.
  destruct (check_columns debug t) as [u|f] eqn:E; cbn [mbind result_bind].
  2:{ unfold check_columns, check, assert in E. intros [= ->].
      destruct debug; cbn [mbind result_bind] in E;
        repeat match type of E with
               | context [if ?b then _ else _] => destruct b; cbn [mbind result_bind] in E
               end; discriminate. }
  destruct (S (_column t) =? length (_cells t))%nat.
  - destruct (flush sz debug fuel true (with_column O t)) as [r|f] eqn:Ef;
      cbn [mbind result_bind]; [|exact Hfuel].
    destruct (check_columns debug (fst r)) as [u'|f'] eqn:E';
      cbn [mbind result_bind]; [discriminate|].
    unfold check_columns, check, assert in E'. intros [= ->].
    destruct debug; cbn [mbind result_bind] in E';
      repeat match type of E' with
             | context [if ?b then _ else _] => destruct b; cbn [mbind result_bind] in E'
             end; discriminate.
  - cbn [mbind result_bind].
    destruct (check_columns debug (fst (with_column (S (_column t)) t, @nil Z)))
      as [u'|f'] eqn:E'; cbn [mbind result_bind]; [discriminate|].
    unfold check_columns, check, assert in E'. intros [= ->].
    destruct debug; cbn [mbind result_bind] in E';
      repeat match type of E' with
             | context [if ?b then _ else _] => destruct b; cbn [mbind result_bind] in E'
             end; discriminate.
Qed.

End Termination.

Lemma forced_drain_terminates_witness :
  (exists fuel, settled (flush U8 true fuel true
                           (mk_tabulator [with_buf (chars "abcdef ghijkl") (default_cell 10)]
                                         O O true O (ascii U8))))
  /\ (exists fuel, settled (next_column U8 true fuel
                           (mk_tabulator [with_buf (chars "abcdef ghijkl") (default_cell 10)]
                                         O O true O (ascii U8)))).
Proof.
  apply (forced_drain_terminates U8 true
           (mk_tabulator [with_buf (chars "abcdef ghijkl") (default_cell 10)]
                         O O true O (ascii U8))).
  repeat constructor.
Defined.

(** A step that gives back the state it started from is repeated for ever. *)
Lemma flush_loop_stuck sz debug all_cells t out :
  more all_cells t = true ->
  flush_step sz debug all_cells t = Ok (t, out) ->
  forall fuel, flush_loop sz debug fuel all_cells t = Fault OutOfFuel.
Proof.
  intros Hmore Hstep. induction fuel as [|fuel IH]; cbn [flush_loop];
    rewrite Hmore; [reflexivity|].
  rewrite Hstep. cbn [mbind result_bind fst]. rewrite IH. reflexivity.
Qed.

Lemma check_columns_in_range debug t : in_range t -> check_columns debug t = Ok tt.
Proof.
  intros [Hc Hs]. unfold check_columns, check, assert. destruct debug; [|reflexivity].
  replace (_sync_column t <? length (_cells t))%nat with true
    by (symmetry; apply Nat.ltb_lt; exact Hs).
  cbn [mbind result_bind].
  replace (_column t <? length (_cells t))%nat with true
    by (symmetry; apply Nat.ltb_lt; exact Hc).
  reflexivity.
Qed.

(** X13: [sync()], which [std::flush] calls, never returns when the cell it
    has to drain truncates and holds something while no later cell does and
    the writer is still in that column: [write_line] waits for the row to be
    closed, and the loop of the unforced drain asks it again. *)
Theorem unforced_drain_of_truncating_cell_hangs (sz : unit_size) (debug : bool)
    (t : basic_tabulator) (c : cell_info) (fuel : nat) :
  in_range t ->
  _sync_column t = _column t ->
  _cells t !! _sync_column t = Some c ->
  _truncate c <> truncate.none ->
  empty c = false ->
  any_from (S (_sync_column t)) (_cells t) = false ->
  sync sz debug fuel t = Fault OutOfFuel.
Proof.
  destruct t as [cells col sy ls real st].
  cbn [_cells _column _sync_column]. intros Hrange -> Hc Htr Hne Hlater.
  unfold sync, flush.
  rewrite check_columns_in_range by exact Hrange. cbn [mbind result_bind].
  assert (Hwl : write_line sz c false = Ok (c, [], false)).
  { unfold write_line. cbn [orb].
    destruct (_truncate c); [congruence | reflexivity | reflexivity]. }
  assert (Hstep : forall b,
    flush_step sz debug false (mk_tabulator cells col col b real st)
    = Ok (mk_tabulator cells col col false real st,
          (if b then _left (_cell st) else []) ++ [])).
  { intros b. unfold flush_step.
    cbn [_cells _column _sync_column _line_start _real_sb _style orb].
    rewrite Nat.eqb_refl, Hlater. cbn [negb orb].
    rewrite check_columns_in_range by exact Hrange. cbn [mbind result_bind].
    unfold cell_at. cbn [_cells _sync_column]. rewrite Hc. cbn [mbind result_bind].
    rewrite Hwl. cbn [mbind result_bind].
    rewrite (list_insert_id _ _ _ Hc). reflexivity. }
  assert (Hmore : forall b,
    more false (mk_tabulator cells col col b real st) = true).
  { intros b. unfold more. cbn [_cells _column _sync_column negb andb orb].
    rewrite Nat.ltb_irrefl. cbn [orb].
    rewrite (any_from_cons _ _ _ Hc), Hne. reflexivity. }
  destruct fuel as [|fuel]; cbn [flush_loop]; rewrite Hmore; [reflexivity|].
  rewrite Hstep. cbn [mbind result_bind fst].
  rewrite (flush_loop_stuck sz debug false _ ([] ++ []) (Hmore false) (Hstep false)).
  reflexivity.
Qed.

Lemma unforced_drain_of_truncating_cell_hangs_witness :
  sync U8 true 1000
       (mk_tabulator [with_buf (chars "abc") long_cell] O O true O (ascii U8))
  = Fault OutOfFuel.
Proof.
  apply (unforced_drain_of_truncating_cell_hangs U8 true _
           (with_buf (chars "abc") long_cell)).
  - split; cbn; lia.
  - reflexivity.
  - reflexivity.
  - discriminate.
  - reflexivity.
  - reflexivity.
Defined.

(** ** The indices stay in range *)

Lemma walk_back_fault sz buf width : forall e sum ow f,
  walk_back sz buf width sum e ow = Fault f -> buffer_fault f.
Proof.
  induction e as [|e IH]; intros sum ow f; cbn [walk_back];
    destruct (width <? ow)%N; try discriminate;
    destruct (buf !! _); try (intros [= <-]; unfold buffer_fault; tauto).
  apply IH.
Qed.

Lemma write_line_fault sz c wfl f :
  write_line sz c wfl = Fault f -> buffer_fault f.
Proof.
  unfold write_line.
  destruct (wfl || _); [|discriminate].
  destruct (truncate_buf sz c) as [c1 e].
  destruct (negb wfl && _ && _); [discriminate|].
  destruct (0 <? _width c1)%N.
  - destruct (walk_back _ _ _ _ _ _) as [[e2 ow2]|f'] eqn:Hwb.
    2:{ cbn. intros [= <-]. eapply walk_back_fault. exact Hwb. }
    cbn [mbind result_bind]. destruct (_justify c1); cbn [mbind result_bind];
      destruct (_pad c1); destruct (wfl || _); cbn [mbind result_bind];
      repeat (cbn; match goal with
                   | |- context [match ?x with _ => _ end] => destruct x
                   end); cbn; try discriminate;
      intros [= <-]; unfold buffer_fault; tauto.
  - cbn [mbind result_bind]. destruct (_pad c1); destruct wfl; cbn [mbind result_bind];
      repeat (cbn; match goal with
                   | |- context [match ?x with _ => _ end] => destruct x
                   end); cbn; try discriminate;
      intros [= <-]; unfold buffer_fault; tauto.
Qed.

Lemma flush_step_keeps_range sz debug all_cells t :
  in_range t ->
  match flush_step sz debug all_cells t with
  | Ok (t', _) => length (_cells t') = length (_cells t) /\ in_range t'
                  /\ _column t' = _column t
  | Fault f => buffer_fault f
  end.
Proof.
  intros Hrange. pose proof Hrange as [Hc Hs]. unfold flush_step.
  rewrite check_columns_in_range by exact Hrange. cbn [mbind result_bind].
  unfold cell_at.
  destruct (lookup_lt_is_Some_2 (_cells t) (_sync_column t) Hs) as [c ->].
  cbn [mbind result_bind].
  destruct (write_line sz c _) as [[[c' out] full]|f] eqn:Hwl.
  2:{ cbn. eapply write_line_fault. exact Hwl. }
  cbn [mbind result_bind]. rewrite length_insert.
  destruct full; cbn [_cells _column _sync_column]; rewrite length_insert;
    (split; [reflexivity|]); (split; [|reflexivity]); unfold in_range;
    cbn [_cells _column _sync_column]; rewrite length_insert; [|split; assumption].
  destruct (Nat.eqb_spec (S (_sync_column t)) (length (_cells t))); split; lia.
Qed.

Lemma flush_loop_keeps_range sz debug all_cells fuel : forall t,
  in_range t ->
  keeps_range t (flush_loop sz debug fuel all_cells t)
  /\ (forall r, flush_loop sz debug fuel all_cells t = Ok r ->
        _column (fst r) = _column t).
Proof.
  induction fuel as [|fuel IH]; intros t Hrange; cbn [flush_loop];
    destruct (more all_cells t).
  - split; [right; reflexivity | discriminate].
  - split; [split; [reflexivity | exact Hrange] | intros r [= <-]; reflexivity].
  - pose proof (flush_step_keeps_range sz debug all_cells t Hrange) as Hstep.
    destruct (flush_step sz debug all_cells t) as [[t1 out1]|f];
      [|split; [left; exact Hstep | discriminate]].
    destruct Hstep as (Hlen & Hr1 & Hcol). cbn [mbind result_bind fst snd].
    destruct (IH t1 Hr1) as [Hk Hc].
    destruct (flush_loop sz debug fuel all_cells t1) as [[t2 out2]|f];
      cbn [mbind result_bind fst snd] in *.
    + destruct Hk as [Hlen2 Hr2]. split; [split; [congruence | exact Hr2]|].
      intros r [= <-]. specialize (Hc _ eq_refl). cbn [fst] in *. congruence.
    + split; [exact Hk | discriminate].
  - split; [split; [reflexivity | exact Hrange] | intros r [= <-]; reflexivity].
Qed.

Lemma flush_keeps_range sz debug all_cells fuel t :
  in_range t -> keeps_range t (flush sz debug fuel all_cells t).
Proof.
  intros Hrange. unfold flush. rewrite check_columns_in_range by exact Hrange.
  cbn [mbind result_bind]. apply flush_loop_keeps_range. exact Hrange.
Qed.

Lemma next_column_keeps_range sz debug fuel t :
  in_range t -> keeps_range t (next_column sz debug fuel t).
Proof.
  intros Hrange. pose proof Hrange as [Hc Hs]. unfold next_column.
  rewrite check_columns_in_range by exact Hrange. cbn [mbind result_bind].
  destruct (Nat.eqb_spec (S (_column t)) (length (_cells t))) as [Hlast|Hmid].
  - assert (Hr0 : in_range (with_column O t)) by (split; cbn; lia).
    pose proof (flush_keeps_range sz debug true fuel _ Hr0) as Hk.
    destruct (flush sz debug fuel true (with_column O t)) as [[t1 out1]|f];
      cbn [mbind result_bind fst] in *; [|exact Hk].
    destruct Hk as [Hlen Hr1]. rewrite check_columns_in_range by exact Hr1.
    cbn [mbind result_bind]. split; assumption.
  - assert (Hr1 : in_range (with_column (S (_column t)) t)) by (split; cbn; lia).
    cbn [mbind result_bind fst]. rewrite check_columns_in_range by exact Hr1.
    cbn [mbind result_bind]. split; [reflexivity | exact Hr1].
Qed.

Lemma draw_segment_loop_in_line sz line : forall fuel i score width,
  (i < length line)%nat ->
  forall f, draw_segment_loop sz fuel line i score width = Fault f -> f = OutOfFuel.
Proof.
  induction fuel as [|fuel IH]; intros i score width Hi f; cbn [draw_segment_loop];
    destruct (0 <? width)%N; try discriminate; [intros [= <-]; reflexivity|].
  destruct (lookup_lt_is_Some_2 line i Hi) as [ch ->].
  destruct (draw_segment_loop sz fuel line _ _ _) as [out|f'] eqn:E;
    cbn [mbind result_bind]; [discriminate|].
  intros [= <-]. eapply IH; [|exact E].
  destruct (Nat.eqb_spec (S i) (length line)); lia.
Qed.

Lemma draw_segment_fault sz fuel c left line f :
  draw_segment sz fuel c left line = Fault f -> f = OutOfFuel.
Proof.
  unfold draw_segment. destruct line as [|u line]; [discriminate|].
  destruct (draw_segment_loop sz fuel (u :: line) O 0 _) as [out|f'] eqn:E;
    cbn [mbind result_bind]; [discriminate|].
  intros [= <-]. eapply draw_segment_loop_in_line; [|exact E]. cbn. lia.
Qed.

Lemma draw_segments_fault sz fuel cs tee line f :
  draw_segments sz fuel cs tee line = Fault f -> f = OutOfFuel.
Proof.
  induction cs as [|c cs IH]; cbn [draw_segments]; [discriminate|].
  destruct (draw_segment sz fuel c tee line) as [o|f'] eqn:E;
    cbn [mbind result_bind]; [|intros [= <-]; eapply draw_segment_fault; exact E].
  destruct (draw_segments sz fuel cs tee line) as [os|f'];
    cbn [mbind result_bind]; [discriminate|].
  intros [= <-]. apply IH. reflexivity.
Qed.

Lemma draw_line_keeps_range sz debug fuel rw t :
  in_range t -> keeps_range t (draw_line sz debug fuel rw t).
Proof.
  intros Hrange. pose proof Hrange as [Hc Hs]. unfold draw_line.
  rewrite check_columns_in_range by exact Hrange. cbn [mbind result_bind].
  assert (Hf : keeps_range t (if negb (_column t =? O)%nat
                              then flush sz debug fuel true (with_column O t)
                              else Ok (t, []))).
  { destruct (negb _).
    - assert (Hr0 : in_range (with_column O t)) by (split; cbn; lia).
      apply (flush_keeps_range sz debug true fuel _ Hr0).
    - split; [reflexivity | exact Hrange]. }
  destruct (if negb _ then _ else _) as [[t1 out1]|f];
    cbn [mbind result_bind] in *; [|exact Hf].
  destruct Hf as [Hlen Hr1]. rewrite check_columns_in_range by exact Hr1.
  cbn [mbind result_bind].
  destruct (_cells t1) as [|c cs] eqn:Hcells.
  { destruct Hr1 as [Hc1 _]. rewrite Hcells in Hc1. cbn in Hc1. lia. }
  destruct (draw_segment sz fuel c (_left rw) (_line rw)) as [o|f] eqn:E;
    cbn [mbind result_bind];
    [|right; eapply draw_segment_fault; exact E].
  destruct (draw_segments sz fuel cs (_center rw) (_line rw)) as [os|f] eqn:E';
    cbn [mbind result_bind];
    [|right; eapply draw_segments_fault; exact E'].
  split; [rewrite Hcells; exact Hlen | exact Hr1].
Qed.

(** X14: on a tabulator whose two indices are inside its cell list, the
    drain, [next_column] and the three rules keep the number of cells and
    leave both indices inside the list; they never trip an [assert] and never
    index [_cells] out of range; they can only fail inside a cell buffer (or,
    in the model, for lack of fuel).  [overflow] always succeeds there and
    changes neither index. *)
Theorem indices_stay_in_range (sz : unit_size) (debug : bool) (fuel : nat)
    (t : basic_tabulator) :
  in_range t ->
  (forall all_cells, keeps_range t (flush sz debug fuel all_cells t))
  /\ keeps_range t (next_column sz debug fuel t)
  /\ keeps_range t (top_line sz debug fuel t)
  /\ keeps_range t (horiz_line sz debug fuel t)
  /\ keeps_range t (bottom_line sz debug fuel t)
  /\ (forall ch, exists t', overflow sz ch t = Ok t'
        /\ length (_cells t') = length (_cells t) /\ in_range t'
        /\ _column t' = _column t /\ _sync_column t' = _sync_column t).
Proof.
  intros Hrange.
  split; [intros all_cells; apply flush_keeps_range; exact Hrange|].
  split; [apply next_column_keeps_range; exact Hrange|].
  split; [apply draw_line_keeps_range; exact Hrange|].
  split; [apply draw_line_keeps_range; exact Hrange|].
  split; [apply draw_line_keeps_range; exact Hrange|].
  intros ch. unfold overflow. destruct (negb _).
  - unfold cell_at. destruct Hrange as [Hc Hs].
    destruct (lookup_lt_is_Some_2 (_cells t) (_column t) Hc) as [c ->].
    cbn [mbind result_bind]. eexists. split; [reflexivity|].
    unfold in_range. cbn [_cells _column _sync_column with_cells].
    rewrite length_insert. repeat split; assumption.
  - exists t. repeat split; try reflexivity; apply Hrange.
Qed.

Lemma indices_stay_in_range_witness :
  (forall all_cells,
     keeps_range (mk_tabulator [default_cell 10; default_cell 10] 1 O true O (ascii U8))
       (flush U8 true 5 all_cells
          (mk_tabulator [default_cell 10; default_cell 10] 1 O true O (ascii U8))))
  /\ keeps_range (mk_tabulator [default_cell 10; default_cell 10] 1 O true O (ascii U8))
       (next_column U8 true 5
          (mk_tabulator [default_cell 10; default_cell 10] 1 O true O (ascii U8)))
  /\ keeps_range (mk_tabulator [default_cell 10; default_cell 10] 1 O true O (ascii U8))
       (top_line U8 true 5
          (mk_tabulator [default_cell 10; default_cell 10] 1 O true O (ascii U8)))
  /\ keeps_range (mk_tabulator [default_cell 10; default_cell 10] 1 O true O (ascii U8))
       (horiz_line U8 true 5
          (mk_tabulator [default_cell 10; default_cell 10] 1 O true O (ascii U8)))
  /\ keeps_range (mk_tabulator [default_cell 10; default_cell 10] 1 O true O (ascii U8))
       (bottom_line U8 true 5
          (mk_tabulator [default_cell 10; default_cell 10] 1 O true O (ascii U8)))
  /\ (forall ch, exists t',
        overflow U8 ch (mk_tabulator [default_cell 10; default_cell 10] 1 O true O (ascii U8))
        = Ok t'
        /\ length (_cells t') = 2%nat /\ in_range t'
        /\ _column t' = 1%nat /\ _sync_column t' = O).
Proof.
  apply (indices_stay_in_range U8 true 5
           (mk_tabulator [default_cell 10; default_cell 10] 1 O true O (ascii U8))).
  split; cbn; lia.
Defined.

(** ** What reaches a cell, and what the manipulators do *)

Lemma with_cells_insert_twice t i c1 c2 :
  with_cells (<[i := c2]> (_cells (with_cells (<[i := c1]> (_cells t)) t)))
             (with_cells (<[i := c1]> (_cells t)) t)
  = with_cells (<[i := c2]> (_cells t)) t.
Proof.
  destruct t. unfold with_cells. cbn. rewrite list_insert_insert_eq. reflexivity.
Qed.

Lemma before_eof_all sz s :
  Forall (fun u => to_int_type sz u <> eof sz) s -> before_eof sz s = s.
Proof.
  induction 1 as [|u s Hu _ IH]; [reflexivity|]. cbn [before_eof].
  replace (to_int_type sz u =? eof sz) with false
    by (symmetry; apply Z.eqb_neq; exact Hu).
  rewrite IH. reflexivity.
Qed.

(** Unless a unit has the [int_type] value [eof()], [xsputn] is the run of
    [sputc] calls; for [char] and [char16_t] that is always so. *)
Lemma xsputn_sputc_all sz s : forall t,
  Forall (fun u => to_int_type sz u <> eof sz) s ->
  xsputn sz s t = sputc_all sz s t.
Proof.
  induction s as [|u s IH]; intros t Hs; [reflexivity|].
  apply Forall_cons in Hs as [Hu Hs]. cbn [xsputn sputc_all].
  destruct (overflow sz (to_int_type sz u) t) as [t'|e]; [|reflexivity].
  cbn [mbind result_bind].
  replace (to_int_type sz u =? eof sz) with false
    by (symmetry; apply Z.eqb_neq; exact Hu).
  apply IH. exact Hs.
Qed.

Lemma xsputn_sputc_all_narrow sz s t :
  sz <> U32 -> xsputn sz s t = sputc_all sz s t.
Proof.
  intros Hsz. apply xsputn_sputc_all. apply Forall_forall. intros u _.
  destruct sz; [| |contradiction]; unfold to_int_type, eof.
  - pose proof (Z.mod_pos_bound u 256 ltac:(lia)). lia.
  - destruct (Z.eqb_spec u 0xFFFF); lia.
Qed.

(** X15: [sputn] on a tabulator appends to the cell of the active column, in
    order, the [int_type] value of every unit handed to it up to the first
    whose value is [eof()], except the NULs; it changes nothing else and puts
    nothing to the wrapped streambuf.  For [char] and [char16_t] no unit maps
    to [eof()], so the whole string is taken and exactly the NUL units are
    lost ([char16_t] 0xFFFF is stored as 0xFFFD); for a 32-bit type the unit
    0xFFFFFFFF ends the call and what follows it is not stored. *)
Theorem sputn_appends_all_but_nul (sz : unit_size) (s : list Z)
    (t : basic_tabulator) (c : cell_info) :
  _cells t !! _column t = Some c ->
  xsputn sz s t
  = Ok (with_cells (<[_column t := with_buf (_buf c ++ kept sz s) c]> (_cells t)) t)
  /\ kept U8 s = filter (fun u => u <> 0) ((fun u => u mod 256) <$> s)
  /\ kept U16 s
     = filter (fun u => u <> 0) ((fun u => if u =? 0xFFFF then 0xFFFD else u) <$> s)
  /\ (forall a b, 0xFFFFFFFF ∉ a ->
        kept U32 (a ++ 0xFFFFFFFF :: b) = filter (fun u => u <> 0) a).
Proof.
  intros Hc. split; [|split; [|split]].
  - revert t c Hc. induction s as [|u s IH]; intros t c Hc.
    + cbn [xsputn]. unfold kept. cbn. rewrite app_nil_r, with_buf_id.
      rewrite (list_insert_id _ _ _ Hc). destruct t; reflexivity.
    + cbn [xsputn]. unfold overflow, not_eof, cell_at. rewrite Hc.
      unfold kept. cbn [before_eof].
      destruct (Z.eqb_spec (to_int_type sz u) (eof sz)) as [Heof|Hne].
      * cbn [Z.eqb negb mbind result_bind fmap list_fmap filter list_filter].
        rewrite app_nil_r, with_buf_id, (list_insert_id _ _ _ Hc).
        destruct t; reflexivity.
      * rewrite fmap_cons, filter_cons.
        destruct (decide (to_int_type sz u <> 0)) as [Hnz|Hz].
        -- replace (to_int_type sz u =? 0) with false
             by (symmetry; apply Z.eqb_neq; exact Hnz).
           cbn [negb mbind result_bind].
           set (c1 := putc (to_char_type sz (to_int_type sz u)) c).
           set (t1 := with_cells (<[_column t := c1]> (_cells t)) t).
           assert (Hc1 : _cells t1 !! _column t1 = Some c1).
           { subst t1. cbn. apply list_lookup_insert_eq. eapply lookup_lt_Some.
             exact Hc. }
           pose proof (IH t1 c1 Hc1) as Hrun. unfold kept in Hrun. rewrite Hrun.
           subst t1. cbn [_column with_cells].
           rewrite with_cells_insert_twice. do 3 f_equal.
           subst c1. unfold putc, with_buf. cbn. f_equal. rewrite <- app_assoc.
           f_equal. cbn. f_equal. unfold to_char_type, to_int_type.
           destruct sz; [apply Z.mod_mod; lia | reflexivity | reflexivity].
        -- assert (Hz0 : to_int_type sz u = 0)
             by (destruct (Z.eq_dec (to_int_type sz u) 0); [assumption | contradiction]).
           rewrite Hz0. cbn [Z.eqb negb mbind result_bind].
           pose proof (IH t c Hc) as Hrun. unfold kept in Hrun. exact Hrun.
  - unfold kept. rewrite before_eof_all; [reflexivity|].
    apply Forall_forall. intros u _. unfold to_int_type, eof.
    pose proof (Z.mod_pos_bound u 256 ltac:(lia)). lia.
  - unfold kept. rewrite before_eof_all; [reflexivity|].
    apply Forall_forall. intros u _. unfold to_int_type, eof.
    destruct (Z.eqb_spec u 0xFFFF); lia.
  - intros a b Ha. unfold kept.
    assert (E : before_eof U32 (a ++ 0xFFFFFFFF :: b) = a).
    { induction a as [|u a IH]; [reflexivity|].
      cbn [app before_eof]. unfold to_int_type, eof.
      apply not_elem_of_cons in Ha as [Hu Ha].
      replace (u =? 0xFFFFFFFF) with false by (symmetry; apply Z.eqb_neq; congruence).
      rewrite (IH Ha). reflexivity. }
    rewrite E. f_equal. clear. induction a as [|u a IH]; [reflexivity|].
    rewrite fmap_cons, IH. reflexivity.
Qed.

Lemma sputn_appends_all_but_nul_witness :
  xsputn U8 (chars "ab" ++ [0] ++ chars "c")
    (mk_tabulator [default_cell 10] O O true O (ascii U8))
  = Ok (with_cells
          (<[O := with_buf ([] ++ kept U8 (chars "ab" ++ [0] ++ chars "c"))
                           (default_cell 10)]> [default_cell 10])
          (mk_tabulator [default_cell 10] O O true O (ascii U8)))
  /\ kept U8 (chars "ab" ++ [0] ++ chars "c")
     = filter (fun u => u <> 0) ((fun u => u mod 256) <$> chars "ab" ++ [0] ++ chars "c")
  /\ kept U16 (chars "ab" ++ [0] ++ chars "c")
     = filter (fun u => u <> 0)
         ((fun u => if u =? 0xFFFF then 0xFFFD else u) <$> chars "ab" ++ [0] ++ chars "c")
  /\ (forall a b, 0xFFFFFFFF ∉ a ->
        kept U32 (a ++ 0xFFFFFFFF :: b) = filter (fun u => u <> 0) a).
Proof.
  apply (sputn_appends_all_but_nul U8 (chars "ab" ++ [0] ++ chars "c")
           (mk_tabulator [default_cell 10] O O true O (ascii U8)) (default_cell 10)).
  reflexivity.
Defined.

(** X16: inserted into a stream whose streambuf is not a tabulator, every
    manipulator of the library ([endc], the three rules and the seven
    parameter setters) does nothing at all: the stream and every streambuf
    are as they were. *)
Theorem manipulators_ignore_other_streambufs (sz : unit_size) (debug : bool)
    (fuel : nat) (x : stream_op) (w : world) (content : list Z) :
  sbufs w !! os_rdbuf w = Some (StringBuf content) ->
  is_manipulator x = true ->
  insert_op sz debug fuel x w = Ok w.
Proof.
  intros Hsink Hx.
  destruct x; try discriminate Hx; cbn [insert_op]; unfold manipulate;
    rewrite Hsink; reflexivity.
Qed.

Lemma manipulators_ignore_other_streambufs_witness :
  insert_op U8 true 5 endc ostringstream = Ok ostringstream.
Proof.
  apply (manipulators_ignore_other_streambufs U8 true 5 endc ostringstream []);
    reflexivity.
Defined.

(** X17: the [set_ellipsis] manipulator has no effect on a tabulator either:
    [operator<<] has no branch for a string parameter, so the insertion
    leaves every cell as it was, whereas the member function [set_ellipsis]
    called on the same tabulator stores the ellipsis in the active cell. *)
Theorem set_ellipsis_manipulator_is_ignored (sz : unit_size) (debug : bool)
    (fuel : nat) (e : list Z) (w : world) (t : basic_tabulator)
    (c : cell_info) (o : streambuf) :
  sbufs w !! os_rdbuf w = Some (Tabulator t) ->
  sbufs w !! _real_sb t = Some o ->
  _cells t !! _column t = Some c ->
  width_ok sz c = true ->
  insert_op sz debug fuel (m_set_ellipsis e) w = Ok w
  /\ exists t', set_ellipsis sz debug e t = Ok t'
       /\ _ellipsis <$> _cells t' !! _column t = Some e.
Proof.
  intros Hp Hreal Hc Hok. split.
  - cbn [insert_op]. unfold manipulate, on_tabulator, quiet. rewrite Hp.
    cbn [mbind result_bind fst snd]. rewrite (insert_id _ _ _ Hp).
    unfold forward. rewrite Hreal. destruct o as [content|t2].
    + rewrite app_nil_r, (insert_id _ _ _ Hreal). cbn. destruct w; reflexivity.
    + cbn [sputc_all mbind result_bind]. rewrite (insert_id _ _ _ Hreal).
      cbn. destruct w; reflexivity.
  - unfold set_ellipsis, on_current_cell, cell_at, cell_set_ellipsis, check.
    rewrite Hc. cbn [mbind result_bind]. rewrite Hok.
    assert (Hrun : (_ ← (if debug then assert true else Ok tt);
                    Ok (mk_cell_info (_buf c) (_width c) (_written c) (_cell_start c)
                          (_justify c) (_truncate c) (_wrap c) (_pad c) e))
                   = Ok (mk_cell_info (_buf c) (_width c) (_written c) (_cell_start c)
                          (_justify c) (_truncate c) (_wrap c) (_pad c) e))
      by (destruct debug; reflexivity).
    rewrite Hrun. cbn [mbind result_bind]. eexists. split; [reflexivity|].
    cbn [_cells with_cells]. rewrite list_lookup_insert_eq; [reflexivity|].
    eapply lookup_lt_Some. exact Hc.
Qed.

Lemma set_ellipsis_manipulator_is_ignored_witness :
  insert_op U8 true 5 (m_set_ellipsis (chars "..")) one_column = Ok one_column
  /\ exists t', set_ellipsis U8 true (chars "..")
                  (mk_tabulator [default_cell 10] O O true O (ascii U8)) = Ok t'
       /\ _ellipsis <$> _cells t' !! O = Some (chars "..").
Proof.
  apply (set_ellipsis_manipulator_is_ignored U8 true 5 (chars "..") one_column
           (mk_tabulator [default_cell 10] O O true O (ascii U8))
           (default_cell 10) (StringBuf [])); reflexivity.
Defined.

(** X18: whatever is inserted, text, a flush or a manipulator, and however
    many times, the stream keeps its streambuf, and every live streambuf
    stays live, stays of its kind, and keeps wrapping the streambuf it
    wrapped: insertions neither install nor remove a filter. *)
Theorem insertions_keep_the_filters (sz : unit_size) (debug : bool) (fuel : nat)
    (xs : list stream_op) (w w' : world) :
  insert_all sz debug fuel xs w = Ok w' ->
  os_rdbuf w' = os_rdbuf w
  /\ forall p, link_of <$> sbufs w' !! p = link_of <$> sbufs w !! p.
Proof.
  intros H. apply insert_all_links in H as [Hl Hr]. split; [exact Hr|].
  intros p. unfold links in Hl. rewrite <- !lookup_fmap, Hl. reflexivity.
Qed.

Lemma insertions_keep_the_filters_witness :
  os_rdbuf pending_world = os_rdbuf one_column
  /\ forall p, link_of <$> sbufs pending_world !! p
               = link_of <$> sbufs one_column !! p.
Proof.
  apply (insertions_keep_the_filters U8 true 1 [write (chars "abc")]).
  reflexivity.
Defined.

(** ** The rules *)

Lemma draw_segment_loop_done sz fuel line i score :
  draw_segment_loop sz fuel line i score 0 = Ok [].
Proof. destruct fuel; reflexivity. Qed.

(** The loop puts the units of one character and goes on, at the start of
    the line when that character was its last. *)
Lemma draw_segment_loop_chunk sz line : forall us pre post score width f,
  closes sz score us -> line = pre ++ us ++ post -> (0 < width)%N ->
  draw_segment_loop sz (length us + f) line (length pre) score width
  = out ← draw_segment_loop sz f line
            (match post with [] => O | _ => length pre + length us end)%nat
            0 (N.pred width);
    Ok (us ++ out).
Proof.
  induction us as [|u us IH]; intros pre post score width f Hcl Hline Hw;
    [destruct Hcl|].
  assert (Hlook : line !! length pre = Some u).
  { rewrite Hline. apply list_lookup_middle. reflexivity. }
  assert (Hlen : length line = (length pre + S (length us) + length post)%nat).
  { rewrite Hline, !length_app. cbn [length]. lia. }
  cbn [length Nat.add draw_segment_loop].
  replace (0 <? width)%N with true by (symmetry; apply N.ltb_lt; exact Hw).
  rewrite Hlook. cbn [closes] in Hcl. destruct us as [|u' us'].
  - rewrite Hcl, Z.eqb_refl. cbn [length Nat.add].
    replace (if (S (length pre) =? length line)%nat then O else S (length pre))
      with (match post with [] => O | _ :: _ => (length pre + 1)%nat end).
    2:{ destruct post as [|x post].
        - replace (S (length pre) =? length line)%nat with true; [reflexivity|].
          symmetry. apply Nat.eqb_eq. cbn [length] in Hlen. lia.
        - replace (S (length pre) =? length line)%nat with false; [lia|].
          symmetry. apply Nat.eqb_neq. cbn [length] in Hlen. lia. }
    destruct (draw_segment_loop sz f line _ 0 (N.pred width)); reflexivity.
  - destruct Hcl as [Hnz Hcl].
    replace (score + utf_char_score sz u =? 0) with false
      by (symmetry; apply Z.eqb_neq; exact Hnz).
    replace (S (length pre) =? length line)%nat with false
      by (symmetry; apply Nat.eqb_neq; cbn [length] in Hlen; lia).
    specialize (IH (pre ++ [u]) post (score + utf_char_score sz u) width f Hcl).
    rewrite length_app in IH. change (length [u]) with 1%nat in IH.
    replace (length pre + 1)%nat with (S (length pre)) in IH by lia.
    rewrite IH; [| rewrite Hline, <- app_assoc; reflexivity | exact Hw].
    clear IH. cbn [length].
    replace (S (length pre) + S (length us'))%nat
      with (length pre + S (S (length us')))%nat by lia.
    destruct (draw_segment_loop sz f line _ 0 (N.pred width)); reflexivity.
Qed.

Lemma concat_replicate_comm {A} (l : list A) n :
  l ++ concat (replicate n l) = concat (replicate n l) ++ l.
Proof.
  induction n as [|n IH]; cbn [replicate concat].
  - rewrite app_nil_r. reflexivity.
  - rewrite <- app_assoc, <- IH. reflexivity.
Qed.

Lemma is_cp_nonempty sz ch : is_cp sz ch -> ch <> [].
Proof. destruct ch; [intros [] | discriminate]. Qed.

(** From the start of a character of the line, the loop puts [n] whole
    characters, reading the line round and round. *)
Lemma draw_segment_loop_cycle sz chunks :
  Forall (is_cp sz) chunks ->
  forall n pre rest, chunks = pre ++ rest -> rest <> [] ->
  exists out tail,
    utflen sz out = N.of_nat n
    /\ well_formed sz out
    /\ out ++ tail = concat rest ++ concat (replicate n (concat chunks))
    /\ forall f, draw_segment_loop sz (length out + f) (concat chunks)
                   (length (concat pre)) 0 (N.of_nat n) = Ok out.
Proof.
  intros Hall. induction n as [|n IH]; intros pre rest Hsplit Hrest.
  - exists [], (concat rest). split; [destruct sz; reflexivity|].
    split; [apply well_formed_nil|]. split; [cbn; rewrite app_nil_r; reflexivity|].
    intros f. apply draw_segment_loop_done.
  - destruct rest as [|ch rest']; [congruence|].
    assert (Hch : is_cp sz ch).
    { rewrite Hsplit in Hall. apply Forall_app in Hall as [_ Hall].
      apply Forall_cons in Hall as [Hch _]. exact Hch. }
    assert (Hwf : well_formed sz ch).
    { exists [ch]. split; [repeat constructor; exact Hch|].
      cbn. rewrite app_nil_r. reflexivity. }
    assert (Hone : utflen sz ch = 1%N).
    { rewrite <- (app_nil_r ch). change (ch ++ []) with (concat [ch]).
      rewrite utflen_well_formed; [reflexivity | repeat constructor; exact Hch]. }
    assert (Hstep : forall f,
      draw_segment_loop sz (length ch + f) (concat chunks) (length (concat pre)) 0
                        (N.of_nat (S n))
      = out ← draw_segment_loop sz f (concat chunks)
                (match concat rest' with
                 | [] => O | _ => length (concat pre) + length ch end)%nat
                0 (N.of_nat n);
        Ok (ch ++ out)).
    { intros f.
      rewrite (draw_segment_loop_chunk sz (concat chunks) ch (concat pre)
                 (concat rest') 0 (N.of_nat (S n)) f).
      - replace (N.pred (N.of_nat (S n))) with (N.of_nat n) by lia. reflexivity.
      - apply is_cp_closes. exact Hch.
      - rewrite Hsplit, concat_app. reflexivity.
      - lia. }
    destruct rest' as [|ch' rest''].
    + destruct (IH [] chunks eq_refl) as (out & tail & Hlen & Hwfo & Hpre & Hrun).
      { rewrite Hsplit. destruct pre; discriminate. }
      exists (ch ++ out), tail. split; [rewrite utflen_app by exact Hwf; lia|].
      split; [apply well_formed_app; assumption|].
      split.
      * cbn [concat replicate]. rewrite app_nil_r, <- !app_assoc. f_equal.
        exact Hpre.
      * intros f. rewrite length_app, <- Nat.add_assoc, Hstep.
        cbn [concat]. cbn [concat length] in Hrun. rewrite Hrun. reflexivity.
    + destruct (IH (pre ++ [ch]) (ch' :: rest'')) as (out & tail & Hlen & Hwfo & Hpre & Hrun).
      { rewrite Hsplit, <- app_assoc. reflexivity. }
      { discriminate. }
      exists (ch ++ out), (tail ++ concat chunks).
      split; [rewrite utflen_app by exact Hwf; lia|].
      split; [apply well_formed_app; assumption|].
      split.
      * cbn [replicate]. rewrite (concat_cons (concat chunks)), concat_replicate_comm.
        rewrite <- !app_assoc. rewrite (app_assoc out tail), Hpre.
        cbn [concat]. rewrite <- !app_assoc. reflexivity.
      * intros f. rewrite length_app, <- Nat.add_assoc, Hstep.
        assert (Hne : concat (ch' :: rest'') <> []).
        { rewrite Hsplit in Hall. apply Forall_app in Hall as [_ Hall].
          apply Forall_cons in Hall as [_ Hall].
          apply Forall_cons in Hall as [Hch' _].
          cbn [concat]. pose proof (is_cp_nonempty sz ch' Hch').
          destruct ch'; [congruence | discriminate]. }
        destruct (concat (ch' :: rest'')) eqn:E; [congruence|].
        rewrite concat_app, length_app in Hrun. cbn [concat] in Hrun.
        rewrite app_nil_r in Hrun. rewrite Hrun. reflexivity.
Qed.

(** A segment of a rule is as wide as its cell. *)
Lemma draw_segment_cover (sz : unit_size) (c : cell_info)
    (left line : list Z) :
  well_formed sz line -> line <> [] ->
  exists seg tail k,
    utflen sz seg = get_cell_width sz c
    /\ well_formed sz seg
    /\ seg ++ tail = concat (replicate k line)
    /\ forall fuel, (length seg <= fuel)%nat ->
         draw_segment sz fuel c left line = Ok (left ++ seg).
Proof.
  intros (chunks & Hall & ->) Hne.
  assert (Hchunks : chunks <> []) by (intros ->; apply Hne; reflexivity).
  destruct (draw_segment_loop_cycle sz chunks Hall
              (N.to_nat (get_cell_width sz c)) [] chunks eq_refl Hchunks)
    as (out & tail & Hlen & Hwf & Hpre & Hrun).
  exists out, tail, (S (N.to_nat (get_cell_width sz c))).
  split; [lia|]. split; [exact Hwf|]. split; [exact Hpre|].
  intros fuel Hfuel. unfold draw_segment.
  rewrite N2Nat.id in Hrun. cbn [concat length] in Hrun.
  specialize (Hrun (fuel - length out)%nat).
  replace (length out + (fuel - length out))%nat with fuel in Hrun by lia.
  destruct (concat chunks) eqn:E; [congruence|]. rewrite Hrun. reflexivity.
Qed.

(** X19: for a rule character string that is one or more whole code points,
    [draw_segment] puts the left edge and then a segment of exactly as many
    code points as the cell is wide, padding included; the segment is whole
    code points and is the beginning of the line string repeated.  It needs
    one turn of its loop for each unit it puts. *)
Theorem draw_segment_covers_cell (sz : unit_size) (c : cell_info)
    (left line : list Z) :
  well_formed sz line -> line <> [] ->
  exists seg tail k,
    utflen sz seg = get_cell_width sz c
    /\ well_formed sz seg
    /\ seg ++ tail = concat (replicate k line)
    /\ forall fuel, (length seg <= fuel)%nat ->
         draw_segment sz fuel c left line = Ok (left ++ seg).
Proof. apply draw_segment_cover. Qed.

Lemma draw_segment_covers_cell_witness :
  exists seg tail k,
    utflen U8 seg = get_cell_width U8 (default_cell 10)
    /\ well_formed U8 seg
    /\ seg ++ tail = concat (replicate k (BOX U8 0x2500))
    /\ forall fuel, (length seg <= fuel)%nat ->
         draw_segment U8 fuel (default_cell 10) (BOX U8 0x250C) (BOX U8 0x2500)
         = Ok (BOX U8 0x250C ++ seg).
Proof.
  apply (draw_segment_covers_cell U8 (default_cell 10) (BOX U8 0x250C) (BOX U8 0x2500)).
  - exists [BOX U8 0x2500]. split; [|reflexivity].
    repeat constructor; vm_compute; reflexivity.
  - discriminate.
Defined.

Lemma draw_segments_cover sz tee line : well_formed sz line -> line <> [] ->
  forall cs, exists segs n,
    Forall2 (fun c seg => utflen sz seg = get_cell_width sz c /\ well_formed sz seg)
            cs segs
    /\ forall fuel, (n <= fuel)%nat ->
         draw_segments sz fuel cs tee line
         = Ok (concat (map (fun s => tee ++ s) segs)).
Proof.
  intros Hwf Hne. induction cs as [|c cs IH].
  - exists [], O. split; [constructor | reflexivity].
  - destruct IH as (segs & n & Hall & Hrun).
    destruct (draw_segment_cover sz c tee line Hwf Hne)
      as (seg & tail & k & Hlen & Hseg & _ & Hone).
    exists (seg :: segs), (Nat.max (length seg) n).
    split; [constructor; [split; assumption | exact Hall]|].
    intros fuel Hfuel. cbn [draw_segments].
    rewrite Hone by lia. cbn [mbind result_bind].
    rewrite Hrun by lia. reflexivity.
Qed.

Lemma draw_segments_no_line sz fuel tee : forall cs,
  draw_segments sz fuel cs tee []
  = Ok (concat (map (fun s => tee ++ s) (replicate (length cs) []))).
Proof.
  induction cs as [|c cs IH]; [reflexivity|].
  cbn [draw_segments draw_segment mbind result_bind length replicate map concat].
  rewrite IH. cbn [mbind result_bind]. rewrite app_nil_r. reflexivity.
Qed.

(** X20: with the writer in the first column, a rule is drawn without
    touching the cells: after the left edge comes, for each cell in turn, a
    segment of whole code points as wide as that cell with its padding, the
    segments separated by the tee, then the right edge and a newline.  When
    the style has no line character the segments are empty, and the rule is
    the edges and tees alone. *)
Theorem rule_covers_every_cell (sz : unit_size) (debug : bool) (r : row)
    (t : basic_tabulator) :
  in_range t -> _column t = O ->
  (well_formed sz (_line r) -> _line r <> [] ->
   exists segs n,
     Forall2 (fun c seg => utflen sz seg = get_cell_width sz c /\ well_formed sz seg)
             (_cells t) segs
     /\ forall fuel, (n <= fuel)%nat ->
          draw_line sz debug fuel r t = Ok (t, rule_of r segs))
  /\ (_line r = [] ->
      forall fuel,
        draw_line sz debug fuel r t
        = Ok (t, rule_of r (replicate (length (_cells t)) []))).
Proof.
  intros Hrange Hcol.
  assert (Hhead : forall fuel,
    draw_line sz debug fuel r t
    = match _cells t with
      | [] => Fault OutOfRange
      | c :: cs =>
          o ← draw_segment sz fuel c (_left r) (_line r);
          os ← draw_segments sz fuel cs (_center r) (_line r);
          Ok (t, [] ++ o ++ os ++ _right r ++ [NL])
      end).
  { intros fuel. unfold draw_line.
    rewrite check_columns_in_range by exact Hrange. cbn [mbind result_bind].
    rewrite Hcol. cbn [Nat.eqb negb mbind result_bind].
    rewrite check_columns_in_range by exact Hrange. reflexivity. }
  destruct (_cells t) as [|c cs] eqn:Hcells.
  { destruct Hrange as [Hc _]. rewrite Hcells in Hc. cbn in Hc. lia. }
  split.
  - intros Hwf Hne.
    destruct (draw_segment_cover sz c (_left r) (_line r) Hwf Hne)
      as (seg & tail & k & Hlen & Hseg & _ & Hone).
    destruct (draw_segments_cover sz (_center r) (_line r) Hwf Hne cs)
      as (segs & n & Hall & Hrun).
    exists (seg :: segs), (Nat.max (length seg) n).
    split; [constructor; [split; assumption | exact Hall]|].
    intros fuel Hfuel. rewrite Hhead, Hone by lia. cbn [mbind result_bind].
    rewrite Hrun by lia. cbn [mbind result_bind rule_of].
    rewrite <- !app_assoc. reflexivity.
  - intros Hline fuel. rewrite Hhead, Hline. cbn [draw_segment mbind result_bind].
    rewrite draw_segments_no_line. reflexivity.
Qed.

Lemma rule_covers_every_cell_witness :
  (well_formed U8 (_line (_top (box U8))) -> _line (_top (box U8)) <> [] ->
   exists segs n,
     Forall2 (fun c seg => utflen U8 seg = get_cell_width U8 c /\ well_formed U8 seg)
             [default_cell 10; default_cell 3] segs
     /\ forall fuel, (n <= fuel)%nat ->
          draw_line U8 true fuel (_top (box U8))
            (mk_tabulator [default_cell 10; default_cell 3] O O true O (box U8))
          = Ok (mk_tabulator [default_cell 10; default_cell 3] O O true O (box U8),
                rule_of (_top (box U8)) segs))
  /\ (_line (_top (box U8)) = [] ->
      forall fuel,
        draw_line U8 true fuel (_top (box U8))
          (mk_tabulator [default_cell 10; default_cell 3] O O true O (box U8))
        = Ok (mk_tabulator [default_cell 10; default_cell 3] O O true O (box U8),
              rule_of (_top (box U8)) (replicate 2 []))).
Proof.
  apply (rule_covers_every_cell U8 true (_top (box U8))
           (mk_tabulator [default_cell 10; default_cell 3] O O true O (box U8))).
  - split; cbn; lia.
  - reflexivity.
Defined.

(** ** The logger's return to the first column *)

Lemma flush_keeps_column sz debug fuel all_cells t r :
  in_range t -> flush sz debug fuel all_cells t = Ok r -> _column (fst r) = _column t.
Proof.
  intros Hrange. unfold flush. rewrite check_columns_in_range by exact Hrange.
  cbn [mbind result_bind]. apply flush_loop_keeps_range. exact Hrange.
Qed.

(** X21: [go_first_column] of the logger does nothing in the first column;
    anywhere else its stepping through the remaining columns comes to one
    forced drain of the table with the writer set back to the first column:
    the same cells, the same output, the same failure if the drain fails. *)
Theorem go_first_column_is_one_drain (sz : unit_size) (debug : bool)
    (fuel steps : nat) (t : basic_tabulator) :
  in_range t ->
  (length (_cells t) - _column t <= steps)%nat ->
  go_first_column sz debug fuel steps t
  = if (_column t =? O)%nat then Ok (t, [])
    else flush sz debug fuel true (with_column O t).
Proof.
  revert t. induction steps as [|steps IH]; intros t Hrange Hsteps;
    pose proof Hrange as [Hc Hs]; cbn [go_first_column];
    destruct (Nat.eqb_spec (_column t) O) as [Hz|Hnz]; try reflexivity; [lia|].
  unfold next_column. rewrite check_columns_in_range by exact Hrange.
  cbn [mbind result_bind].
  destruct (Nat.eqb_spec (S (_column t)) (length (_cells t))) as [Hlast|Hmid].
  - assert (Hr0 : in_range (with_column O t)) by (split; cbn; lia).
    pose proof (flush_keeps_range sz debug true fuel _ Hr0) as Hk.
    pose proof (flush_keeps_column sz debug fuel true (with_column O t)) as Hcol.
    destruct (flush sz debug fuel true (with_column O t)) as [[t1 out1]|f];
      [|reflexivity].
    destruct Hk as [_ Hr1]. specialize (Hcol (t1, out1) Hr0 eq_refl).
    cbn [fst _column with_column] in Hcol.
    cbn [mbind result_bind fst snd]. rewrite check_columns_in_range by exact Hr1.
    cbn [mbind result_bind fst snd].
    destruct steps; cbn [go_first_column]; rewrite Hcol; cbn [Nat.eqb mbind result_bind fst snd];
      rewrite app_nil_r; reflexivity.
  - assert (Hr1 : in_range (with_column (S (_column t)) t)) by (split; cbn; lia).
    cbn [mbind result_bind fst snd]. rewrite check_columns_in_range by exact Hr1.
    cbn [mbind result_bind fst snd].
    rewrite IH; [|exact Hr1 | cbn; lia]. cbn [_column with_column Nat.eqb].
    change (with_column O (with_column (S (_column t)) t)) with (with_column O t).
    destruct (flush sz debug fuel true (with_column O t)) as [[t1 out1]|f];
      reflexivity.
Qed.

Lemma go_first_column_is_one_drain_witness :
  go_first_column U8 true 5 3
    (mk_tabulator [default_cell 10; default_cell 10; default_cell 10] 1 O true O (ascii U8))
  = if (1 =? O)%nat
    then Ok (mk_tabulator [default_cell 10; default_cell 10; default_cell 10] 1 O true O
                          (ascii U8), [])
    else flush U8 true 5 true
           (with_column O
              (mk_tabulator [default_cell 10; default_cell 10; default_cell 10] 1 O true O
                            (ascii U8))).
Proof.
  apply (go_first_column_is_one_drain U8 true 5 3
           (mk_tabulator [default_cell 10; default_cell 10; default_cell 10] 1 O true O
                         (ascii U8))).
  - split; cbn; lia.
  - cbn. lia.
Defined.

(** ** A row that fits on one line *)

Lemma find_line_end_loop_all sz chunks : forall w it,
  Forall (is_cp sz) chunks -> (NL ∉ concat chunks) ->
  (N.of_nat (length chunks) <= w)%N ->
  find_line_end_loop sz 0 w (concat chunks) it = (it + length (concat chunks))%nat.
Proof.
  induction chunks as [|ch chunks IH]; intros w it Hall Hnl Hw.
  - cbn. lia.
  - apply Forall_cons in Hall as [Hch Hall]. cbn [concat length] in *.
    rewrite find_line_end_loop_step.
    + rewrite IH; [rewrite length_app; lia | exact Hall | | lia].
      intros Hin. apply Hnl. apply elem_of_app. right. exact Hin.
    + apply is_cp_closes. exact Hch.
    + intros Hin. apply Hnl. apply elem_of_app. left. exact Hin.
    + lia.
Qed.

Lemma truncate_buf_fitting sz c :
  fits_one_line sz c -> truncate_buf sz c = (c, length (_buf c)).
Proof.
  intros (Hw & Hwr & _ & Hwf & Hfit & Hnl & _). unfold truncate_buf.
  replace (_width c =? 0)%N with false by (symmetry; apply N.eqb_neq; exact Hw).
  destruct (truncate.is_none (_truncate c)).
  - rewrite Hwr, size_sub_0. unfold find_output_end.
    assert (He : find_line_end sz (_buf c) (_width c) = length (_buf c)).
    { destruct Hwf as (chunks & Hall & E). rewrite E in *. unfold find_line_end.
      rewrite find_line_end_loop_all; [reflexivity | exact Hall | exact Hnl |].
      rewrite utflen_well_formed in Hfit by exact Hall. exact Hfit. }
    rewrite He, Nat.eqb_refl. cbn [negb]. destruct (wrap.is_word _); reflexivity.
  - replace (_width c <? utflen sz (_buf c))%N with false
      by (symmetry; apply N.ltb_ge; exact Hfit).
    reflexivity.
Qed.

Lemma write_line_fitting sz c :
  fits_one_line sz c ->
  write_line sz c true = Ok (with_buf [] c, cell_line sz c, true).
Proof.
  intros Hc. pose proof (truncate_buf_fitting sz c Hc) as Htb.
  destruct Hc as (Hw & Hwr & Hst & Hwf & Hfit & Hnl & _).
  unfold write_line. cbn [orb].
  rewrite Htb, take_ge, Hwr, N.add_0_r by lia. cbn [negb andb].
  replace (0 <? _width c)%N with true by (symmetry; apply N.ltb_lt; lia).
  rewrite walk_back_fits by exact Hfit. cbn [mbind result_bind orb].
  rewrite size_sub_le by exact Hfit.
  assert (Hhalf : ((_width c - utflen sz (_buf c)) / 2
                   <= _width c - utflen sz (_buf c))%N)
    by (apply N.Div0.div_le_upper_bound; lia).
  assert (Hfills :
    match _justify c with
    | justify.center =>
        (((_width c - utflen sz (_buf c)) / 2)%N,
         size_sub (_width c - utflen sz (_buf c))
                  ((_width c - utflen sz (_buf c)) / 2))
    | justify.left => (0%N, (_width c - utflen sz (_buf c))%N)
    | justify.right => ((_width c - utflen sz (_buf c))%N, 0%N)
    end = fills (_justify c) (_width c - utflen sz (_buf c))).
  { unfold fills. destruct (_justify c); try reflexivity.
    rewrite size_sub_le by exact Hhalf. reflexivity. }
  rewrite Hfills. unfold cell_line.
  destruct (fills (_justify c) (_width c - utflen sz (_buf c))) as [lfill rfill].
  cbn [mbind result_bind orb fst snd]. destruct (_pad c) as [lpad rpad].
  rewrite Hst, drop_all, take_ge by lia. cbn [drop_space drop_spaces fst snd].
  assert (Hreset : with_row_state [] 0 true c = with_buf [] c).
  { unfold with_row_state, with_buf. rewrite Hwr, Hst. reflexivity. }
  destruct (wrap.is_word (_wrap c)); cbn [drop_spaces mbind result_bind orb negb];
    rewrite Hreset, <- !app_assoc; reflexivity.
Qed.

Lemma cell_line_width sz c :
  fits_one_line sz c -> utflen sz (cell_line sz c) = get_cell_width sz c.
Proof.
  intros (Hw & Hwr & Hst & Hwf & Hfit & Hnl & Hpad). unfold cell_line, get_cell_width.
  assert (Hsum : (fst (fills (_justify c) (_width c - utflen sz (_buf c)))
                  + snd (fills (_justify c) (_width c - utflen sz (_buf c)))
                  = _width c - utflen sz (_buf c))%N).
  { unfold fills. destruct (_justify c); cbn [fst snd]; try lia.
    assert ((_width c - utflen sz (_buf c)) / 2 <= _width c - utflen sz (_buf c))%N
      by (apply N.Div0.div_le_upper_bound; lia).
    lia. }
  rewrite utflen_app by exact Hpad.
  rewrite utflen_app by apply well_formed_fill.
  rewrite utflen_app by exact Hwf.
  rewrite utflen_app by apply well_formed_fill.
  rewrite !utflen_fill. lia.
Qed.

Lemma any_from_empty cs :
  Forall (fun c => empty c = true) cs -> any_from O cs = false.
Proof.
  unfold any_from. rewrite drop_0. induction 1 as [|c cs Hc _ IH]; [reflexivity|].
  cbn [existsb]. rewrite Hc, IH. reflexivity.
Qed.

Lemma flush_step_fitting sz debug st col real cs c done ls :
  fits_one_line sz c ->
  (col < length done + S (length cs))%nat ->
  flush_step sz debug true
    (mk_tabulator (done ++ c :: cs) col (length done) ls real st)
  = Ok (mk_tabulator (done ++ with_buf [] c :: cs) col
          (match cs with [] => O | _ => S (length done) end)
          (match cs with [] => true | _ => false end) real st,
        (if ls then _left (_cell st) else [])
        ++ cell_line sz c
        ++ match cs with
           | [] => _right (_cell st) ++ [NL]
           | _ => _center (_cell st)
           end).
Proof.
  intros Hc Hcol. unfold flush_step.
  cbn [orb _cells _column _sync_column _line_start _real_sb _style].
  rewrite check_columns_in_range
    by (split; cbn [_cells _column _sync_column]; rewrite length_app; cbn [length]; lia).
  cbn [mbind result_bind]. unfold cell_at. cbn [_cells _sync_column].
  rewrite list_lookup_middle by reflexivity.
  cbn [mbind result_bind]. rewrite (write_line_fitting sz c Hc).
  cbn [mbind result_bind].
  rewrite insert_app_r_alt by lia.
  rewrite Nat.sub_diag. cbn [insert list_insert].
  rewrite length_app. cbn [length].
  destruct cs as [|c' cs]; cbn [length].
  - replace (S (length done) =? length done + 1)%nat with true
      by (symmetry; apply Nat.eqb_eq; lia).
    reflexivity.
  - replace (S (length done) =? length done + S (S (length cs)))%nat with false
      by (symmetry; apply Nat.eqb_neq; lia).
    reflexivity.
Qed.

Lemma more_in_row col ls real st done rest :
  (done = [] -> any_from O rest = true) ->
  more true (mk_tabulator (done ++ rest) col (length done) ls real st) = true.
Proof.
  intros Hany. unfold more. cbn [negb andb orb _sync_column _column _cells].
  destruct done as [|d done]; [|reflexivity].
  cbn [length Nat.ltb Nat.leb app]. apply Hany. reflexivity.
Qed.

Lemma flush_loop_row sz debug st col real : forall cs c done ls fuel,
  Forall (fits_one_line sz) (c :: cs) ->
  (col < length done + S (length cs))%nat ->
  (done = [] -> any_from O (c :: cs) = true) ->
  Forall (fun c => empty c = true) done ->
  (S (length cs) <= fuel)%nat ->
  flush_loop sz debug fuel true
    (mk_tabulator (done ++ c :: cs) col (length done) ls real st)
  = Ok (mk_tabulator (done ++ (with_buf [] <$> c :: cs)) col O true real st,
        (if ls then _left (_cell st) else [])
        ++ cell_line sz c ++ row_rest (_cell st) (cell_line sz <$> cs)).
Proof.
  induction cs as [|c' cs IH]; intros c done ls fuel Hall Hcol Hany Hdone Hfuel;
    (destruct fuel as [|fuel]; [cbn [length] in Hfuel; lia|]);
    apply Forall_cons in Hall as [Hc Hall];
    cbn [flush_loop]; rewrite (more_in_row _ _ _ _ _ _ Hany);
    rewrite (flush_step_fitting sz debug st col real _ c done ls Hc Hcol);
    cbn [mbind result_bind fst snd].
  - assert (Hstop : more true (mk_tabulator (done ++ [with_buf [] c]) col O true real st)
                    = false).
    { unfold more. cbn [negb andb orb _sync_column _column _cells Nat.ltb Nat.leb].
      apply any_from_empty. apply Forall_app. split; [exact Hdone|].
      repeat constructor. }
    destruct fuel; cbn [flush_loop]; rewrite Hstop; cbn [mbind result_bind fst snd];
      cbn [fmap list_fmap row_rest]; rewrite app_nil_r; reflexivity.
  - specialize (IH c' (done ++ [with_buf [] c]) false fuel).
    rewrite length_app in IH. cbn [length] in IH.
    replace (length done + 1)%nat with (S (length done)) in IH by lia.
    rewrite <- app_assoc in IH. cbn [app] in IH.
    rewrite IH.
    + cbn [mbind result_bind fst snd fmap list_fmap row_rest].
      rewrite <- !app_assoc. cbn [app]. reflexivity.
    + exact Hall.
    + cbn [length] in *. lia.
    + intros E. destruct done; discriminate E.
    + apply Forall_app. split; [exact Hdone | repeat constructor].
    + cbn [length] in Hfuel. lia.
Qed.

Lemma rule_of_row_rest r l lines :
  rule_of r (l :: lines) = _left r ++ l ++ row_rest r lines.
Proof.
  cbn [rule_of]. do 2 f_equal.
  induction lines as [|l' lines IH]; [reflexivity|].
  cbn [map concat row_rest]. rewrite <- !app_assoc, IH. reflexivity.
Qed.

(** X22: a row every cell of which fits on one line.  When the drain stands
    at the start of a row, some cell holds something, and each cell has a
    nonzero width and holds whole code points without a newline, no more
    than its width, then the forced drain puts exactly one line: the left
    edge, each cell's text between its fills and paddings, separators between
    the cells, the right edge and a newline.  It leaves every cell empty and
    the drain at the start of the next row, whatever the policies of the
    cells; and each cell's part is as many code points as the segment a rule
    draws for it. *)
Theorem row_on_one_line (sz : unit_size) (debug : bool) (fuel : nat)
    (t : basic_tabulator) :
  in_range t ->
  _sync_column t = O -> _line_start t = true ->
  Forall (fits_one_line sz) (_cells t) ->
  any_from O (_cells t) = true ->
  (length (_cells t) <= fuel)%nat ->
  flush sz debug fuel true t
  = Ok (mk_tabulator (with_buf [] <$> _cells t) (_column t) O true
                     (_real_sb t) (_style t),
        rule_of (_cell (_style t)) (cell_line sz <$> _cells t))
  /\ Forall (fun c => utflen sz (cell_line sz c) = get_cell_width sz c) (_cells t).
Proof.
  intros Hrange Hsync Hstart Hall Hany Hfuel. split.
  - unfold flush. rewrite check_columns_in_range by exact Hrange.
    cbn [mbind result_bind]. destruct Hrange as [Hcol _].
    destruct t as [cells col sy ls real st].
    cbn [_cells _column _sync_column _line_start _real_sb _style] in *. subst sy ls.
    destruct cells as [|c cs]; [cbn in Hcol; lia|].
    pose proof (flush_loop_row sz debug st col real cs c [] true fuel Hall) as Hrow.
    cbn [app length] in Hrow. rewrite Hrow.
    + cbn [fmap list_fmap]. rewrite rule_of_row_rest. reflexivity.
    + cbn [length] in *. lia.
    + intros _. exact Hany.
    + constructor.
    + cbn [length] in Hfuel. lia.
  - eapply Forall_impl; [exact Hall|]. intros c. apply cell_line_width.
Qed.

Lemma row_on_one_line_witness :
  flush U8 true 2 true
    (mk_tabulator [with_buf (chars "ab") (default_cell 4); default_cell 3]
                  O O true O (ascii U8))
  = Ok (mk_tabulator
          (with_buf [] <$> [with_buf (chars "ab") (default_cell 4); default_cell 3])
          O O true O (ascii U8),
        rule_of (_cell (ascii U8))
          (cell_line U8 <$> [with_buf (chars "ab") (default_cell 4); default_cell 3]))
  /\ Forall (fun c => utflen U8 (cell_line U8 c) = get_cell_width U8 c)
            [with_buf (chars "ab") (default_cell 4); default_cell 3].
Proof.
  apply (row_on_one_line U8 true 2
           (mk_tabulator [with_buf (chars "ab") (default_cell 4); default_cell 3]
                         O O true O (ascii U8))).
  - split; cbn; lia.
  - reflexivity.
  - reflexivity.
  - repeat constructor; cbn; try lia; try discriminate;
      try (exists [[97]; [98]]; split; [repeat constructor | reflexivity]);
      try (exists []; split; [constructor | reflexivity]);
      try (exists [[32]]; split; [repeat constructor | reflexivity]);
      try (intros H; repeat (apply elem_of_cons in H as [H|H]; [discriminate H|]);
           inversion H).
  - reflexivity.
  - cbn. lia.
Defined.

(** ** Rules and rows of the declared styles *)

Ltac solve_short :=
  first [ left; reflexivity
        | right; split; [reflexivity | repeat constructor] ].

(** In each declared style and for each character type, a rule that has a
    line character is aligned with the rows. *)
Lemma declared_styles_aligned sz :
  Forall (fun s => Forall (fun r => _line r <> [] -> aligned_rule sz s r) (rules s))
         (styles sz).
Proof.
  destruct sz; repeat (apply List.Forall_cons || apply List.Forall_nil);
    intros Hline; try (exfalso; apply Hline; reflexivity);
    (split; [split; [reflexivity | repeat constructor]|]);
    repeat (split; [solve_short|]); repeat split; reflexivity.
Qed.

Lemma short_well_formed sz l : short sz l -> well_formed sz l.
Proof.
  intros [->|Hcp]; [apply well_formed_nil|].
  exists [l]. split; [repeat constructor; exact Hcp | cbn; rewrite app_nil_r; reflexivity].
Qed.

Lemma well_formed_NL sz : well_formed sz [NL].
Proof.
  exists [[NL]]. split; [|reflexivity]. repeat constructor. cbn.
  rewrite score_NL. reflexivity.
Qed.

Lemma cell_line_well_formed sz c :
  fits_one_line sz c -> well_formed sz (snd (_pad c)) ->
  well_formed sz (cell_line sz c).
Proof.
  intros (_ & _ & _ & Hwf & _ & _ & Hl) Hr. unfold cell_line.
  repeat (apply well_formed_app; [first [assumption | apply well_formed_fill]|]).
  exact Hr.
Qed.

Lemma utflen_row_rest sz r rc : forall segs lines,
  Forall2 (fun seg line => well_formed sz seg /\ well_formed sz line
                           /\ utflen sz seg = utflen sz line) segs lines ->
  well_formed sz (_center r) -> well_formed sz (_center rc) ->
  well_formed sz (_right r) -> well_formed sz (_right rc) ->
  utflen sz (_center r) = utflen sz (_center rc) ->
  utflen sz (_right r) = utflen sz (_right rc) ->
  utflen sz (row_rest r segs) = utflen sz (row_rest rc lines).
Proof.
  intros segs lines Hall Hc Hc' Hr Hr' Ec Er.
  induction Hall as [|seg line segs lines (Hs & Hl & E) _ IH]; cbn [row_rest].
  - rewrite !utflen_app by assumption. rewrite Er. reflexivity.
  - rewrite !utflen_app by assumption. rewrite Ec, E, IH. reflexivity.
Qed.

(** X23: in every style the class declares and for every character type, a
    rule that has a line character is exactly as long, in code points, as a
    row of the table: with the writer in the first column and a row in the
    cells that fits on one line, the rule drawn and the row drained have the
    same number of code points. *)
Theorem rules_are_as_long_as_rows (sz : unit_size) (debug : bool)
    (t : basic_tabulator) (r : row) :
  _style t ∈ styles sz -> r ∈ rules (_style t) -> _line r <> [] ->
  in_range t -> _column t = O -> _sync_column t = O -> _line_start t = true ->
  Forall (fits_one_line sz) (_cells t) ->
  Forall (fun c => well_formed sz (snd (_pad c))) (_cells t) ->
  any_from O (_cells t) = true ->
  exists fuel rule line t',
    draw_line sz debug fuel r t = Ok (t, rule)
    /\ flush sz debug fuel true t = Ok (t', line)
    /\ utflen sz rule = utflen sz line.
Proof.
  intros Hs Hr Hline Hrange Hcol Hsync Hstart Hfit Hpads Hany.
  pose proof (declared_styles_aligned sz) as Hal.
  rewrite Forall_forall in Hal. specialize (Hal _ Hs).
  rewrite Forall_forall in Hal. specialize (Hal _ Hr Hline).
  destruct Hal as (Hcp & Hl & Hc & Hri & Hl' & Hc' & Hri' & El & Ec & Er).
  apply short_well_formed in Hl, Hc, Hri, Hl', Hc', Hri'.
  assert (Hwf : well_formed sz (_line r)).
  { apply short_well_formed. right. exact Hcp. }
  (* the rule *)
  destruct (_cells t) as [|c cs] eqn:Hcells.
  { destruct Hrange as [Hlt _]. rewrite Hcells in Hlt. cbn in Hlt. lia. }
  destruct (draw_segment_cover sz c (_left r) (_line r) Hwf Hline)
    as (seg & tail & k & Hlen & Hseg & _ & Hone).
  destruct (draw_segments_cover sz (_center r) (_line r) Hwf Hline cs)
    as (segs & n & Hall & Hrun).
  set (fuel := Nat.max (Nat.max (length seg) n) (S (length cs))).
  assert (Hrule : draw_line sz debug fuel r t
                  = Ok (t, _left r ++ seg ++ row_rest r segs)).
  { unfold draw_line. rewrite check_columns_in_range by exact Hrange.
    cbn [mbind result_bind]. rewrite Hcol. cbn [Nat.eqb negb mbind result_bind].
    rewrite check_columns_in_range by exact Hrange. cbn [mbind result_bind].
    rewrite Hcells, Hone by (subst fuel; lia). cbn [mbind result_bind].
    rewrite Hrun by (subst fuel; lia). cbn [mbind result_bind app].
    rewrite <- (rule_of_row_rest r seg segs). cbn [rule_of].
    rewrite <- !app_assoc. reflexivity. }
  (* the row *)
  assert (Hrow : flush sz debug fuel true t
                 = Ok (mk_tabulator (with_buf [] <$> c :: cs) O O true
                                    (_real_sb t) (_style t),
                       _left (_cell (_style t)) ++ cell_line sz c
                       ++ row_rest (_cell (_style t)) (cell_line sz <$> cs))).
  { unfold flush. rewrite check_columns_in_range by exact Hrange.
    cbn [mbind result_bind]. destruct t as [cells col sy ls real st].
    cbn [_cells _column _sync_column _line_start _real_sb _style] in *.
    subst cells col sy ls.
    pose proof (flush_loop_row sz debug st O real cs c [] true fuel Hfit) as Hfl.
    cbn [app length] in Hfl. apply Hfl.
    - lia.
    - intros _. exact Hany.
    - constructor.
    - subst fuel. lia. }
  exists fuel. do 3 eexists. split; [exact Hrule|]. split; [exact Hrow|].
  apply Forall_cons in Hfit as [Hfc Hfcs]. apply Forall_cons in Hpads as [Hpc Hpcs].
  pose proof (cell_line_well_formed sz c Hfc Hpc) as Hlc.
  rewrite !utflen_app by assumption.
  rewrite El, Hlen, <- (cell_line_width sz c Hfc). do 2 f_equal.
  apply utflen_row_rest; try assumption.
  clear -Hall Hfcs Hpcs. revert segs Hall.
  induction cs as [|c' cs IH]; intros segs Hall.
  - apply Forall2_nil_inv_l in Hall as ->. constructor.
  - apply Forall2_cons_inv_l in Hall as (seg' & segs' & [E Hs] & Hall & ->).
    apply Forall_cons in Hfcs as [Hf Hfcs]. apply Forall_cons in Hpcs as [Hp Hpcs].
    cbn [fmap list_fmap]. constructor.
    + split; [exact Hs|]. split; [apply cell_line_well_formed; assumption|].
      rewrite E. symmetry. apply cell_line_width. exact Hf.
    + apply IH; assumption.
Qed.

Lemma rules_are_as_long_as_rows_witness :
  exists fuel rule line t',
    draw_line U8 true fuel (_top (box U8))
      (mk_tabulator [with_buf (chars "ab") (default_cell 4); default_cell 3]
                    O O true O (box U8)) 
    = Ok (mk_tabulator [with_buf (chars "ab") (default_cell 4); default_cell 3]
                       O O true O (box U8), rule)
    /\ flush U8 true fuel true
         (mk_tabulator [with_buf (chars "ab") (default_cell 4); default_cell 3]
                       O O true O (box U8))
       = Ok (t', line)
    /\ utflen U8 rule = utflen U8 line.
Proof.
  apply (rules_are_as_long_as_rows U8 true
           (mk_tabulator [with_buf (chars "ab") (default_cell 4); default_cell 3]
                         O O true O (box U8)) (_top (box U8))).
  - cbn [_style]. unfold styles. do 3 apply list_elem_of_further. apply list_elem_of_here.
  - apply list_elem_of_here.
  - discriminate.
  - split; cbn; lia.
  - reflexivity.
  - reflexivity.
  - reflexivity.
  - repeat constructor; cbn; try lia; try discriminate;
      try (exists [[97]; [98]]; split; [repeat constructor | reflexivity]);
      try (exists []; split; [constructor | reflexivity]);
      try (exists [[32]]; split; [repeat constructor | reflexivity]);
      try (intros H; repeat (apply elem_of_cons in H as [H|H]; [discriminate H|]);
           inversion H).
  - repeat constructor; try (exists [[32]]; split; [repeat constructor | reflexivity]).
  - reflexivity.
Defined.

(** ** A forced drain that does not end *)

(** X24: the forced drain does not always end when a cell wraps by word.  On
    a one-column table whose cell is not empty and is left as it was by a
    forced [write_line], [flush(true)] puts the same line again and again
    and never returns.  A width-9 cell holding the UTF-8 word "électricité"
    is such a cell: the word has no whitespace, [find_last_word] returns one
    past the line end, and the walk back starts on the lead unit of the last
    character and only stops at the beginning of the buffer. *)
Theorem forced_drain_repeats_unchanged_cell (sz : unit_size) (debug : bool)
    (t : basic_tabulator) (c : cell_info) (out : list Z) (fuel : nat) :
  _cells t = [c] -> _column t = O -> _sync_column t = O ->
  empty c = false ->
  write_line sz c true = Ok (c, out, true) ->
  flush sz debug fuel true t = Fault OutOfFuel.
Proof.
  destruct t as [cells col sy ls real st].
  cbn [_cells _column _sync_column]. intros -> -> -> Hne Hwl.
  assert (Hrange : forall b, in_range (mk_tabulator [c] O O b real st))
    by (intros b; split; cbn; lia).
  unfold flush. rewrite check_columns_in_range by apply Hrange.
  cbn [mbind result_bind].
  assert (Hmore : forall b, more true (mk_tabulator [c] O O b real st) = true).
  { intros b. unfold more.
    cbn [negb andb orb _cells _column _sync_column Nat.ltb Nat.leb].
    unfold any_from. cbn [drop existsb]. rewrite Hne. reflexivity. }
  assert (Hstep : forall b,
    flush_step sz debug true (mk_tabulator [c] O O b real st)
    = Ok (mk_tabulator [c] O O true real st,
          (if b then _left (_cell st) else []) ++ out
          ++ _right (_cell st) ++ [NL])).
  { intros b. unfold flush_step.
    cbn [orb _cells _column _sync_column _line_start _real_sb _style].
    rewrite check_columns_in_range by apply Hrange. cbn [mbind result_bind].
    unfold cell_at. cbn [_cells _sync_column lookup list_lookup mbind result_bind].
    rewrite Hwl. reflexivity. }
  destruct fuel as [|fuel]; cbn [flush_loop]; rewrite Hmore; [reflexivity|].
  rewrite Hstep. cbn [mbind result_bind fst].
  rewrite (flush_loop_stuck sz debug true _ _ (Hmore true) (Hstep true)).
  reflexivity.
Qed.

Lemma forced_drain_repeats_unchanged_cell_witness :
  flush U8 true 1000 true (mk_tabulator [electricite_cell] O O true O (ascii U8))
  = Fault OutOfFuel.
Proof.
  apply (forced_drain_repeats_unchanged_cell U8 true
           (mk_tabulator [electricite_cell] O O true O (ascii U8))
           electricite_cell [SPACE; SPACE]); reflexivity.
Defined.

(** ** The constructor of a cell *)

Lemma utflen_ellipsis sz : utflen sz (UTF8_ELLIPSIS sz) = 1%N.
Proof. destruct sz; reflexivity. Qed.

(** X25: with the default padding and ellipsis, the constructor of a cell
    accepts every width but 1: the ellipsis is one code point in each
    encoding, so the assertion [_width == 0 || _width > utflen(_ellipsis)]
    fails for width 1 alone, and only where [assert] is compiled in.  The
    cell it builds is empty, at the start of its line, left-justified, not
    truncating, and wraps by character. *)
Theorem default_cell_rejects_width_one (sz : unit_size) (debug : bool) (w : N) :
  cell_info_default sz debug w
  = if debug && (w =? 1)%N then Fault AssertionFailed
    else Ok (mk_cell_info [] w 0 true justify.left truncate.none wrap.character
                          ([SPACE], [SPACE]) (UTF8_ELLIPSIS sz)).
Proof.
  unfold cell_info_default, cell_info_ctor, check, width_ok, assert.
  cbn [_width _ellipsis]. rewrite utflen_ellipsis.
  destruct debug; [|reflexivity]. cbn [andb].
  destruct (N.eqb_spec w 1) as [->|Hne]; [reflexivity|].
  destruct (N.eqb_spec w 0) as [->|Hnz]; [reflexivity|].
  replace (1 <? w)%N with true by (symmetry; apply N.ltb_lt; lia).
  reflexivity.
Qed.
